(** * MedRep Intelligence Hub: response normalizer, Markdown renderer and
      knowledge-base proxy routes

    A shallow embedding of [src/app/page.tsx] (the response normalizer and the
    Markdown-subset renderer) and of the two versions of the knowledge-base
    route ([src/unnamed/part_000] and [src/unnamed/part_001]), with the
    properties the specification states about them. *)

From Stdlib Require Import ZArith NArith Ascii String Lia Floats.SpecFloat.
From stdpp Require Import base option list gmap.

Set Warnings "-register-all".
Local Open Scope Z_scope.

(** ** JavaScript values *)

Module JS.

(** A JavaScript string is a sequence of UTF-16 code units. *)
Abbreviation jsstring := (list N).

Definition str (s : string) : jsstring :=
  (λ a, N_of_ascii a) <$> list_ascii_of_string s.

(** JSON text is written with an apostrophe where the text has a double
    quote: [json "{'a':1}"] is the seven units of [{"a":1}]. *)
Definition json (s : string) : jsstring :=
  (λ c, if (c =? 39)%N then 34%N else c) <$> str s.

(** A number is a double: a value of the binary64 format of IEEE 754, in the
    form that the Standard Library gives it. *)
Abbreviation number := spec_float.

#[global] Instance spec_float_eq_dec : EqDecision spec_float.
Proof. solve_decision. Defined.

(** The double nearest to [m * 10 ^ e], ties going to the even significand:
    the number that a decimal literal denotes. A quotient is cut after more
    bits than a double keeps, a bit being added when the cut is not exact. *)
Definition Num (m e : Z) : number :=
  if m =? 0 then S754_zero false
  else if 400 <? e then S754_infinity (m <? 0)
  else if e <? - 400 - Z.log2 (Z.abs m) - 2 then S754_zero (m <? 0)
  else if 0 <=? e then binary_normalize 53 1024 (m * 10 ^ e) 0 false
  else
    let d := 10 ^ (- e) in
    let s := Z.max 0 (64 + Z.log2 d - Z.log2 (Z.abs m)) in
    let n := Z.shiftl (Z.abs m) s in
    let r := 2 * (n / d) + (if n mod d =? 0 then 0 else 1) in
    binary_normalize 53 1024 (if m <? 0 then - r else r) (- (s + 1)) false.

Inductive value :=
| JSUndefined
| JSNull
| JSBoolean (b : bool)
| JSNumber (n : number)
| JSString (s : jsstring)
| JSArray (items : list value)
| JSObject (props : list (jsstring * value)).

(** [!!v] in the source is [negb (truthy v)]. *)
Definition truthy (v : value) : bool :=
  match v with
  | JSUndefined | JSNull => false
  | JSBoolean b => b
  | JSNumber (S754_zero _) | JSNumber S754_nan => false
  | JSNumber _ => true
  | JSString s => negb (bool_decide (s = []))
  | JSArray _ | JSObject _ => true
  end.

Definition is_string (v : value) : bool :=
  match v with JSString _ => true | _ => false end.

(** [a || b] *)
Definition or_else (a b : value) : value := if truthy a then a else b.

(** *** Objects: insertion-ordered property lists; the first binding of a key
    is the property. *)
Fixpoint lookup_prop (k : jsstring) (ps : list (jsstring * value)) : value :=
  match ps with
  | [] => JSUndefined
  | (k', v) :: ps => if bool_decide (k' = k) then v else lookup_prop k ps
  end.

Fixpoint has_prop (k : jsstring) (ps : list (jsstring * value)) : bool :=
  match ps with
  | [] => false
  | (k', _) :: ps => bool_decide (k' = k) || has_prop k ps
  end.

(** [o[k] = v]: an existing property keeps its place, a new one goes last. *)
Fixpoint obj_set (k : jsstring) (v : value) (ps : list (jsstring * value))
  : list (jsstring * value) :=
  match ps with
  | [] => [(k, v)]
  | (k', v') :: ps =>
      if bool_decide (k' = k) then (k, v) :: ps else (k', v') :: obj_set k v ps
  end.

(** A property read [v.k]. Reading a property of [null] or [undefined] raises
    a TypeError ([None]). The names this program reads are never [length], an
    index or an inherited member, so a read finds own properties only: on a
    primitive or on an array it gives [undefined]. *)
Definition get (v : value) (k : jsstring) : option value :=
  match v with
  | JSUndefined | JSNull => None
  | JSObject ps => Some (lookup_prop k ps)
  | _ => Some JSUndefined
  end.

(** *** Decimal text *)
Fixpoint uint_units (d : Decimal.uint) : jsstring :=
  match d with
  | Decimal.Nil => []
  | Decimal.D0 d => 48%N :: uint_units d
  | Decimal.D1 d => 49%N :: uint_units d
  | Decimal.D2 d => 50%N :: uint_units d
  | Decimal.D3 d => 51%N :: uint_units d
  | Decimal.D4 d => 52%N :: uint_units d
  | Decimal.D5 d => 53%N :: uint_units d
  | Decimal.D6 d => 54%N :: uint_units d
  | Decimal.D7 d => 55%N :: uint_units d
  | Decimal.D8 d => 56%N :: uint_units d
  | Decimal.D9 d => 57%N :: uint_units d
  end.

Definition decimal_N (n : N) : jsstring := uint_units (N.to_uint n).

Definition decimal_Z (z : Z) : jsstring :=
  if z <? 0 then 45%N :: decimal_N (Z.abs_N z) else decimal_N (Z.abs_N z).

Fixpoint strip_zeros_rev (ds : jsstring) (e : Z) : jsstring * Z :=
  match ds with
  | 48%N :: ds' => strip_zeros_rev ds' (e + 1)
  | _ => (ds, e)
  end.

(** [m * 2 ^ e * 10 ^ p], as its integer part and the side of one half on
    which its fraction lies. *)
Definition scaled (m e p : Z) : Z * Z :=
  let num := m * (if 0 <=? e then 2 ^ e else 1) * (if 0 <=? p then 10 ^ p else 1) in
  let den := (if 0 <=? e then 1 else 2 ^ (- e)) * (if 0 <=? p then 1 else 10 ^ (- p)) in
  (num / den, num mod den * 2 - den).

(** The digits of Number::toString for the double [m * 2 ^ e], which lies
    between [10 ^ (E - 1)] and [10 ^ E]: the fewest digits [s], [k] of them,
    such that [s * 10 ^ (E - k)] denotes that double, and the nearest to it
    when two numbers of [k] digits do. The result is [s] followed by zeros to
    make seventeen digits. *)
Fixpoint shortest (fuel : nat) (k E m e : Z) : Z :=
  let '(lo, side) := scaled m e (k - E) in
  let x := binary_normalize 53 1024 m e false in
  let lo_ok := bool_decide (Num lo (E - k) = x) in
  let hi_ok := bool_decide (Num (lo + 1) (E - k) = x) in
  match fuel with
  | O => lo * 10 ^ (17 - k)
  | S fuel =>
      if lo_ok && hi_ok then
        (if side <? 0 then lo
         else if 0 <? side then lo + 1
         else if Z.even lo then lo else lo + 1) * 10 ^ (17 - k)
      else if lo_ok then lo * 10 ^ (17 - k)
      else if hi_ok then (lo + 1) * 10 ^ (17 - k)
      else shortest fuel (k + 1) E m e
  end.

Definition finite_toString (m : positive) (e : Z) : jsstring :=
  let W := (scaled (Z.pos m) e 400).1 in
  let E := Z.of_nat (length (decimal_N (Z.to_N W))) - 400 in
  let all := decimal_N (Z.to_N (shortest 17 1 E (Z.pos m) e)) in
  let n := E + (Z.of_nat (length all) - 17) in
  let ds := rev (strip_zeros_rev (rev all) 0).1 in
  let k := Z.of_nat (length ds) in
  if (k <=? n) && (n <=? 21) then ds ++ replicate (Z.to_nat (n - k)) 48%N
  else if (0 <? n) && (n <=? 21) then
    take (Z.to_nat n) ds ++ str "." ++ drop (Z.to_nat n) ds
  else if (-6 <? n) && (n <=? 0) then
    str "0." ++ replicate (Z.to_nat (- n)) 48%N ++ ds
  else
    let ex := (if n - 1 <? 0 then str "e-" else str "e+")
                ++ decimal_N (Z.abs_N (n - 1)) in
    match ds with
    | [d] => d :: ex
    | d :: rest => d :: str "." ++ rest ++ ex
    | [] => ex
    end.

(** Number::toString of ECMAScript. *)
Definition number_toString (x : number) : jsstring :=
  match x with
  | S754_nan => str "NaN"
  | S754_zero _ => str "0"
  | S754_infinity s => (if s then str "-" else []) ++ str "Infinity"
  | S754_finite s m e => (if s then str "-" else []) ++ finite_toString m e
  end.

(** *** [String(v)]

    Only values that come out of JSON are converted. An array is joined with
    commas, [null] and [undefined] elements giving the empty text. An object
    prints as [[object Object]], except that an own [toString] property (never
    callable in a JSON value) leaves no way to convert it: a TypeError. *)
Fixpoint String_ (v : value) : option jsstring :=
  match v with
  | JSUndefined => Some (str "undefined")
  | JSNull => Some (str "null")
  | JSBoolean b => Some (if b then str "true" else str "false")
  | JSNumber n => Some (number_toString n)
  | JSString s => Some s
  | JSArray items =>
      parts ← mapM (λ x, match x with
                         | JSUndefined | JSNull => Some []
                         | _ => String_ x
                         end) items;
      Some (match parts with
            | [] => []
            | p :: ps => p ++ concat ((λ q, 44%N :: q) <$> ps)
            end)
  | JSObject ps =>
      if has_prop (str "toString") ps then None else Some (str "[object Object]")
  end.

(** Own enumerable properties, as an object spread [{...v}] copies them. *)
Definition own_props (v : value) : list (jsstring * value) :=
  match v with
  | JSObject ps => ps
  | JSArray items => imap (λ i x, (decimal_N (N.of_nat i), x)) items
  | JSString s => imap (λ i c, (decimal_N (N.of_nat i), JSString [c])) s
  | _ => []
  end.

(** [{...a, ...b}] for an object [a]. *)
Definition spread (a : list (jsstring * value)) (b : value)
  : list (jsstring * value) :=
  let bs := own_props b in
  foldl (λ acc kv, obj_set kv.1 (lookup_prop kv.1 bs) acc) a bs.

(** *** Strings *)
Definition startsWith (s p : jsstring) : bool := bool_decide (take (length p) s = p).

Definition endsWith (s p : jsstring) : bool :=
  bool_decide (drop (length s - length p) s = p).

Definition includes (s : jsstring) (c : N) : bool := bool_decide (c ∈ s).

(** *** [toLowerCase]

    The default case conversion of Unicode (version 14): the code points of
    the text are mapped one by one, the capital sigma by its context. *)
Definition lead_surrogate (c : N) : bool := ((55296 <=? c) && (c <=? 56319))%N.
Definition trail_surrogate (c : N) : bool := ((56320 <=? c) && (c <=? 57343))%N.

(** The code points of a text: a lead surrogate and the trail surrogate
    after it make one code point, every other unit is its own. *)
Fixpoint code_points (s : jsstring) : list N :=
  match s with
  | [] => []
  | h :: tl =>
      match tl with
      | l :: rest =>
          if lead_surrogate h && trail_surrogate l
          then (65536 + (h - 55296) * 1024 + (l - 56320))%N :: code_points rest
          else h :: code_points tl
      | [] => [h]
      end
  end.

Definition units_of (c : N) : jsstring :=
  if ((65536 <=? c) && (c <? 1114112))%N
  then [55296 + (c - 65536) / 1024; 56320 + (c - 65536) mod 1024]%N
  else [c].

Definition from_code_points (l : list N) : jsstring := l ≫= units_of.

(** The simple lower-case mappings, in runs: the first and the last capital
    of the run, the step between its capitals, and the lower-case letter of
    the first; the letters of a run lie as far from their capitals as that. *)
Definition lower_runs : list (N * N * N * N) :=
  [(65, 90, 1, 97); (192, 214, 1, 224); (216, 222, 1, 248);
   (256, 302, 2, 257); (306, 310, 2, 307); (313, 327, 2, 314);
   (330, 374, 2, 331); (376, 376, 1, 255); (377, 381, 2, 378);
   (385, 385, 1, 595); (386, 388, 2, 387); (390, 390, 1, 596);
   (391, 391, 1, 392); (393, 394, 1, 598); (395, 395, 1, 396);
   (398, 398, 1, 477); (399, 399, 1, 601); (400, 400, 1, 603);
   (401, 401, 1, 402); (403, 403, 1, 608); (404, 404, 1, 611);
   (406, 406, 1, 617); (407, 407, 1, 616); (408, 408, 1, 409);
   (412, 412, 1, 623); (413, 413, 1, 626); (415, 415, 1, 629);
   (416, 420, 2, 417); (422, 422, 1, 640); (423, 423, 1, 424);
   (425, 425, 1, 643); (428, 428, 1, 429); (430, 430, 1, 648);
   (431, 431, 1, 432); (433, 434, 1, 650); (435, 437, 2, 436);
   (439, 439, 1, 658); (440, 440, 1, 441); (444, 444, 1, 445);
   (452, 452, 1, 454); (453, 453, 1, 454); (455, 455, 1, 457);
   (456, 456, 1, 457); (458, 458, 1, 460); (459, 475, 2, 460);
   (478, 494, 2, 479); (497, 497, 1, 499); (498, 500, 2, 499);
   (502, 502, 1, 405); (503, 503, 1, 447); (504, 542, 2, 505);
   (544, 544, 1, 414); (546, 562, 2, 547); (570, 570, 1, 11365);
   (571, 571, 1, 572); (573, 573, 1, 410); (574, 574, 1, 11366);
   (577, 577, 1, 578); (579, 579, 1, 384); (580, 580, 1, 649);
   (581, 581, 1, 652); (582, 590, 2, 583); (880, 882, 2, 881);
   (886, 886, 1, 887); (895, 895, 1, 1011); (902, 902, 1, 940);
   (904, 906, 1, 941); (908, 908, 1, 972); (910, 911, 1, 973);
   (913, 929, 1, 945); (931, 939, 1, 963); (975, 975, 1, 983);
   (984, 1006, 2, 985); (1012, 1012, 1, 952); (1015, 1015, 1, 1016);
   (1017, 1017, 1, 1010); (1018, 1018, 1, 1019); (1021, 1023, 1, 891);
   (1024, 1039, 1, 1104); (1040, 1071, 1, 1072); (1120, 1152, 2, 1121);
   (1162, 1214, 2, 1163); (1216, 1216, 1, 1231); (1217, 1229, 2, 1218);
   (1232, 1326, 2, 1233); (1329, 1366, 1, 1377); (4256, 4293, 1, 11520);
   (4295, 4295, 1, 11559); (4301, 4301, 1, 11565); (5024, 5103, 1, 43888);
   (5104, 5109, 1, 5112); (7312, 7354, 1, 4304); (7357, 7359, 1, 4349);
   (7680, 7828, 2, 7681); (7838, 7838, 1, 223); (7840, 7934, 2, 7841);
   (7944, 7951, 1, 7936); (7960, 7965, 1, 7952); (7976, 7983, 1, 7968);
   (7992, 7999, 1, 7984); (8008, 8013, 1, 8000); (8025, 8031, 2, 8017);
   (8040, 8047, 1, 8032); (8072, 8079, 1, 8064); (8088, 8095, 1, 8080);
   (8104, 8111, 1, 8096); (8120, 8121, 1, 8112); (8122, 8123, 1, 8048);
   (8124, 8124, 1, 8115); (8136, 8139, 1, 8050); (8140, 8140, 1, 8131);
   (8152, 8153, 1, 8144); (8154, 8155, 1, 8054); (8168, 8169, 1, 8160);
   (8170, 8171, 1, 8058); (8172, 8172, 1, 8165); (8184, 8185, 1, 8056);
   (8186, 8187, 1, 8060); (8188, 8188, 1, 8179); (8486, 8486, 1, 969);
   (8490, 8490, 1, 107); (8491, 8491, 1, 229); (8498, 8498, 1, 8526);
   (8544, 8559, 1, 8560); (8579, 8579, 1, 8580); (9398, 9423, 1, 9424);
   (11264, 11311, 1, 11312); (11360, 11360, 1, 11361);
   (11362, 11362, 1, 619); (11363, 11363, 1, 7549); (11364, 11364, 1, 637);
   (11367, 11371, 2, 11368); (11373, 11373, 1, 593); (11374, 11374, 1, 625);
   (11375, 11375, 1, 592); (11376, 11376, 1, 594); (11378, 11378, 1, 11379);
   (11381, 11381, 1, 11382); (11390, 11391, 1, 575);
   (11392, 11490, 2, 11393); (11499, 11501, 2, 11500);
   (11506, 11506, 1, 11507); (42560, 42604, 2, 42561);
   (42624, 42650, 2, 42625); (42786, 42798, 2, 42787);
   (42802, 42862, 2, 42803); (42873, 42875, 2, 42874);
   (42877, 42877, 1, 7545); (42878, 42886, 2, 42879);
   (42891, 42891, 1, 42892); (42893, 42893, 1, 613);
   (42896, 42898, 2, 42897); (42902, 42920, 2, 42903);
   (42922, 42922, 1, 614); (42923, 42923, 1, 604); (42924, 42924, 1, 609);
   (42925, 42925, 1, 620); (42926, 42926, 1, 618); (42928, 42928, 1, 670);
   (42929, 42929, 1, 647); (42930, 42930, 1, 669); (42931, 42931, 1, 43859);
   (42932, 42946, 2, 42933); (42948, 42948, 1, 42900);
   (42949, 42949, 1, 642); (42950, 42950, 1, 7566); (42951, 42953, 2, 42952);
   (42960, 42960, 1, 42961); (42966, 42968, 2, 42967);
   (42997, 42997, 1, 42998); (65313, 65338, 1, 65345);
   (66560, 66599, 1, 66600); (66736, 66771, 1, 66776);
   (66928, 66938, 1, 66967); (66940, 66954, 1, 66979);
   (66956, 66962, 1, 66995); (66964, 66965, 1, 67003);
   (68736, 68786, 1, 68800); (71840, 71871, 1, 71872);
   (93760, 93791, 1, 93792); (125184, 125217, 1, 125218)]%N.

Definition in_run (c : N) (run : N * N * N * N) : bool :=
  let '(first, last, step, _) := run in
  ((first <=? c) && (c <=? last) && ((c - first) mod step =? 0))%N.

Definition simple_lower (c : N) : N :=
  match List.find (in_run c) lower_runs with
  | Some (first, _, _, image) => (image + (c - first))%N
  | None => c
  end.

(** The one capital with a lower-case form of two code points is the dotted
    capital I. *)
Definition lower_point (c : N) : list N :=
  if (c =? 304)%N then [105; 775]%N else [simple_lower c].

(** Cased code points, and those that casing looks through. *)
Definition cased_ranges : list (N * N) :=
  [(65, 90); (97, 122); (170, 170); (181, 181); (186, 186); (192, 214);
   (216, 246); (248, 442); (444, 447); (452, 659); (661, 696); (704, 705);
   (736, 740); (837, 837); (880, 883); (886, 887); (890, 893); (895, 895);
   (902, 902); (904, 906); (908, 908); (910, 929); (931, 1013); (1015, 1153);
   (1162, 1327); (1329, 1366); (1376, 1416); (4256, 4293); (4295, 4295);
   (4301, 4301); (4304, 4346); (4349, 4351); (5024, 5109); (5112, 5117);
   (7296, 7304); (7312, 7354); (7357, 7359); (7424, 7615); (7680, 7957);
   (7960, 7965); (7968, 8005); (8008, 8013); (8016, 8023); (8025, 8025);
   (8027, 8027); (8029, 8029); (8031, 8061); (8064, 8116); (8118, 8124);
   (8126, 8126); (8130, 8132); (8134, 8140); (8144, 8147); (8150, 8155);
   (8160, 8172); (8178, 8180); (8182, 8188); (8305, 8305); (8319, 8319);
   (8336, 8348); (8450, 8450); (8455, 8455); (8458, 8467); (8469, 8469);
   (8473, 8477); (8484, 8484); (8486, 8486); (8488, 8488); (8490, 8493);
   (8495, 8500); (8505, 8505); (8508, 8511); (8517, 8521); (8526, 8526);
   (8544, 8575); (8579, 8580); (9398, 9449); (11264, 11492); (11499, 11502);
   (11506, 11507); (11520, 11557); (11559, 11559); (11565, 11565);
   (42560, 42605); (42624, 42653); (42786, 42887); (42891, 42894);
   (42896, 42954); (42960, 42961); (42963, 42963); (42965, 42969);
   (42997, 42998); (43000, 43002); (43824, 43866); (43868, 43880);
   (43888, 43967); (64256, 64262); (64275, 64279); (65313, 65338);
   (65345, 65370); (66560, 66639); (66736, 66771); (66776, 66811);
   (66928, 66938); (66940, 66954); (66956, 66962); (66964, 66965);
   (66967, 66977); (66979, 66993); (66995, 67001); (67003, 67004);
   (67456, 67456); (67459, 67461); (67463, 67504); (67506, 67514);
   (68736, 68786); (68800, 68850); (71840, 71903); (93760, 93823);
   (119808, 119892); (119894, 119964); (119966, 119967); (119970, 119970);
   (119973, 119974); (119977, 119980); (119982, 119993); (119995, 119995);
   (119997, 120003); (120005, 120069); (120071, 120074); (120077, 120084);
   (120086, 120092); (120094, 120121); (120123, 120126); (120128, 120132);
   (120134, 120134); (120138, 120144); (120146, 120485); (120488, 120512);
   (120514, 120538); (120540, 120570); (120572, 120596); (120598, 120628);
   (120630, 120654); (120656, 120686); (120688, 120712); (120714, 120744);
   (120746, 120770); (120772, 120779); (122624, 122633); (122635, 122654);
   (125184, 125251); (127280, 127305); (127312, 127337); (127344, 127369)]%N.

Definition case_ignorable_ranges : list (N * N) :=
  [(39, 39); (46, 46); (58, 58); (94, 94); (96, 96); (168, 168); (173, 173);
   (175, 175); (180, 180); (183, 184); (688, 879); (884, 885); (890, 890);
   (900, 901); (903, 903); (1155, 1161); (1369, 1369); (1375, 1375);
   (1425, 1469); (1471, 1471); (1473, 1474); (1476, 1477); (1479, 1479);
   (1524, 1524); (1536, 1541); (1552, 1562); (1564, 1564); (1600, 1600);
   (1611, 1631); (1648, 1648); (1750, 1757); (1759, 1768); (1770, 1773);
   (1807, 1807); (1809, 1809); (1840, 1866); (1958, 1968); (2027, 2037);
   (2042, 2042); (2045, 2045); (2070, 2093); (2137, 2139); (2184, 2184);
   (2192, 2193); (2200, 2207); (2249, 2306); (2362, 2362); (2364, 2364);
   (2369, 2376); (2381, 2381); (2385, 2391); (2402, 2403); (2417, 2417);
   (2433, 2433); (2492, 2492); (2497, 2500); (2509, 2509); (2530, 2531);
   (2558, 2558); (2561, 2562); (2620, 2620); (2625, 2626); (2631, 2632);
   (2635, 2637); (2641, 2641); (2672, 2673); (2677, 2677); (2689, 2690);
   (2748, 2748); (2753, 2757); (2759, 2760); (2765, 2765); (2786, 2787);
   (2810, 2815); (2817, 2817); (2876, 2876); (2879, 2879); (2881, 2884);
   (2893, 2893); (2901, 2902); (2914, 2915); (2946, 2946); (3008, 3008);
   (3021, 3021); (3072, 3072); (3076, 3076); (3132, 3132); (3134, 3136);
   (3142, 3144); (3146, 3149); (3157, 3158); (3170, 3171); (3201, 3201);
   (3260, 3260); (3263, 3263); (3270, 3270); (3276, 3277); (3298, 3299);
   (3328, 3329); (3387, 3388); (3393, 3396); (3405, 3405); (3426, 3427);
   (3457, 3457); (3530, 3530); (3538, 3540); (3542, 3542); (3633, 3633);
   (3636, 3642); (3654, 3662); (3761, 3761); (3764, 3772); (3782, 3782);
   (3784, 3789); (3864, 3865); (3893, 3893); (3895, 3895); (3897, 3897);
   (3953, 3966); (3968, 3972); (3974, 3975); (3981, 3991); (3993, 4028);
   (4038, 4038); (4141, 4144); (4146, 4151); (4153, 4154); (4157, 4158);
   (4184, 4185); (4190, 4192); (4209, 4212); (4226, 4226); (4229, 4230);
   (4237, 4237); (4253, 4253); (4348, 4348); (4957, 4959); (5906, 5908);
   (5938, 5939); (5970, 5971); (6002, 6003); (6068, 6069); (6071, 6077);
   (6086, 6086); (6089, 6099); (6103, 6103); (6109, 6109); (6155, 6159);
   (6211, 6211); (6277, 6278); (6313, 6313); (6432, 6434); (6439, 6440);
   (6450, 6450); (6457, 6459); (6679, 6680); (6683, 6683); (6742, 6742);
   (6744, 6750); (6752, 6752); (6754, 6754); (6757, 6764); (6771, 6780);
   (6783, 6783); (6823, 6823); (6832, 6862); (6912, 6915); (6964, 6964);
   (6966, 6970); (6972, 6972); (6978, 6978); (7019, 7027); (7040, 7041);
   (7074, 7077); (7080, 7081); (7083, 7085); (7142, 7142); (7144, 7145);
   (7149, 7149); (7151, 7153); (7212, 7219); (7222, 7223); (7288, 7293);
   (7376, 7378); (7380, 7392); (7394, 7400); (7405, 7405); (7412, 7412);
   (7416, 7417); (7468, 7530); (7544, 7544); (7579, 7679); (8125, 8125);
   (8127, 8129); (8141, 8143); (8157, 8159); (8173, 8175); (8189, 8190);
   (8203, 8207); (8216, 8217); (8228, 8228); (8231, 8231); (8234, 8238);
   (8288, 8292); (8294, 8303); (8305, 8305); (8319, 8319); (8336, 8348);
   (8400, 8432); (11388, 11389); (11503, 11505); (11631, 11631);
   (11647, 11647); (11744, 11775); (11823, 11823); (12293, 12293);
   (12330, 12333); (12337, 12341); (12347, 12347); (12441, 12446);
   (12540, 12542); (40981, 40981); (42232, 42237); (42508, 42508);
   (42607, 42610); (42612, 42621); (42623, 42623); (42652, 42655);
   (42736, 42737); (42752, 42785); (42864, 42864); (42888, 42890);
   (42994, 42996); (43000, 43001); (43010, 43010); (43014, 43014);
   (43019, 43019); (43045, 43046); (43052, 43052); (43204, 43205);
   (43232, 43249); (43263, 43263); (43302, 43309); (43335, 43345);
   (43392, 43394); (43443, 43443); (43446, 43449); (43452, 43453);
   (43471, 43471); (43493, 43494); (43561, 43566); (43569, 43570);
   (43573, 43574); (43587, 43587); (43596, 43596); (43632, 43632);
   (43644, 43644); (43696, 43696); (43698, 43700); (43703, 43704);
   (43710, 43711); (43713, 43713); (43741, 43741); (43756, 43757);
   (43763, 43764); (43766, 43766); (43867, 43871); (43881, 43883);
   (44005, 44005); (44008, 44008); (44013, 44013); (64286, 64286);
   (64434, 64450); (65024, 65039); (65043, 65043); (65056, 65071);
   (65106, 65106); (65109, 65109); (65279, 65279); (65287, 65287);
   (65294, 65294); (65306, 65306); (65342, 65342); (65344, 65344);
   (65392, 65392); (65438, 65439); (65507, 65507); (65529, 65531);
   (66045, 66045); (66272, 66272); (66422, 66426); (67456, 67461);
   (67463, 67504); (67506, 67514); (68097, 68099); (68101, 68102);
   (68108, 68111); (68152, 68154); (68159, 68159); (68325, 68326);
   (68900, 68903); (69291, 69292); (69446, 69456); (69506, 69509);
   (69633, 69633); (69688, 69702); (69744, 69744); (69747, 69748);
   (69759, 69761); (69811, 69814); (69817, 69818); (69821, 69821);
   (69826, 69826); (69837, 69837); (69888, 69890); (69927, 69931);
   (69933, 69940); (70003, 70003); (70016, 70017); (70070, 70078);
   (70089, 70092); (70095, 70095); (70191, 70193); (70196, 70196);
   (70198, 70199); (70206, 70206); (70367, 70367); (70371, 70378);
   (70400, 70401); (70459, 70460); (70464, 70464); (70502, 70508);
   (70512, 70516); (70712, 70719); (70722, 70724); (70726, 70726);
   (70750, 70750); (70835, 70840); (70842, 70842); (70847, 70848);
   (70850, 70851); (71090, 71093); (71100, 71101); (71103, 71104);
   (71132, 71133); (71219, 71226); (71229, 71229); (71231, 71232);
   (71339, 71339); (71341, 71341); (71344, 71349); (71351, 71351);
   (71453, 71455); (71458, 71461); (71463, 71467); (71727, 71735);
   (71737, 71738); (71995, 71996); (71998, 71998); (72003, 72003);
   (72148, 72151); (72154, 72155); (72160, 72160); (72193, 72202);
   (72243, 72248); (72251, 72254); (72263, 72263); (72273, 72278);
   (72281, 72283); (72330, 72342); (72344, 72345); (72752, 72758);
   (72760, 72765); (72767, 72767); (72850, 72871); (72874, 72880);
   (72882, 72883); (72885, 72886); (73009, 73014); (73018, 73018);
   (73020, 73021); (73023, 73029); (73031, 73031); (73104, 73105);
   (73109, 73109); (73111, 73111); (73459, 73460); (78896, 78904);
   (92912, 92916); (92976, 92982); (92992, 92995); (94031, 94031);
   (94095, 94111); (94176, 94177); (94179, 94180); (110576, 110579);
   (110581, 110587); (110589, 110590); (113821, 113822); (113824, 113827);
   (118528, 118573); (118576, 118598); (119143, 119145); (119155, 119170);
   (119173, 119179); (119210, 119213); (119362, 119364); (121344, 121398);
   (121403, 121452); (121461, 121461); (121476, 121476); (121499, 121503);
   (121505, 121519); (122880, 122886); (122888, 122904); (122907, 122913);
   (122915, 122916); (122918, 122922); (123184, 123197); (123566, 123566);
   (123628, 123631); (125136, 125142); (125252, 125259); (127995, 127999);
   (917505, 917505); (917536, 917631); (917760, 917999)]%N.

Definition in_ranges (ranges : list (N * N)) (c : N) : bool :=
  existsb (λ r, ((r.1 <=? c) && (c <=? r.2))%N) ranges.

(** Whether the first code point that is not looked through is cased. *)
Fixpoint cased_next (l : list N) : bool :=
  match l with
  | [] => false
  | c :: l =>
      if in_ranges case_ignorable_ranges c then cased_next l
      else in_ranges cased_ranges c
  end.

(** A capital sigma is final after a cased letter when no cased letter
    follows. [before] holds the code points before it, the nearest first. *)
Fixpoint lower_points (before l : list N) : list N :=
  match l with
  | [] => []
  | c :: l =>
      (if (c =? 931)%N
       then [if cased_next before && negb (cased_next l) then 962%N else 963%N]
       else lower_point c)
      ++ lower_points (c :: before) l
  end.

Definition toLowerCase (s : jsstring) : jsstring :=
  from_code_points (lower_points [] (code_points s)).

(** What the proof that lower-casing twice is lower-casing once speaks of:
    the capitals of a run, a code point that lower-casing leaves as it is, and
    a sequence in which no lead surrogate stands before a trail surrogate. *)
Definition surrogate (c : N) : bool := lead_surrogate c || trail_surrogate c.

Definition capitals (run : N * N * N * N) : list N :=
  let '(first, last, step, _) := run in
  (λ i, first + N.of_nat i * step)%N
    <$> seq 0 (S (N.to_nat ((last - first) / step))).

Definition settled (c : N) : bool := bool_decide (lower_point c = [c]).

Definition capital_checked (c : N) : bool :=
  settled (simple_lower c) && negb (surrogate (simple_lower c))
  && negb (surrogate c) && negb (c =? 304)%N.

Fixpoint well_paired (l : list N) : bool :=
  match l with
  | [] => true
  | h :: tl =>
      match tl with
      | l :: _ => negb (lead_surrogate h && trail_surrogate l) && well_paired tl
      | [] => true
      end
  end.

Definition starts_trail (l : list N) : bool :=
  match l with
  | c :: _ => trail_surrogate c
  | [] => false
  end.

(** White space and line terminators of ECMAScript ([\s], [trim]). *)
Definition is_space (c : N) : bool :=
  bool_decide (c ∈ [9; 10; 11; 12; 13; 32; 160; 5760; 8232; 8233; 8239; 8287;
                    12288; 65279]%N)
  || ((8192 <=? c) && (c <=? 8202))%N.

Definition is_line_terminator (c : N) : bool :=
  bool_decide (c ∈ [10; 13; 8232; 8233]%N).

Fixpoint trimStart (s : jsstring) : jsstring :=
  match s with
  | c :: r => if is_space c then trimStart r else s
  | [] => []
  end.

Definition trim (s : jsstring) : jsstring := rev (trimStart (rev (trimStart s))).

(** [s.split(c)] for a one-unit separator: never empty. *)
Fixpoint split_on (c : N) (s : jsstring) : list jsstring :=
  match s with
  | [] => [[]]
  | x :: r =>
      if bool_decide (x = c) then [] :: split_on c r
      else match split_on c r with
           | piece :: pieces => (x :: piece) :: pieces
           | [] => [[x]]
           end
  end.

(** [a.join(sep)] on strings. *)
Definition join (sep : jsstring) (l : list jsstring) : jsstring :=
  match l with
  | [] => []
  | p :: ps => p ++ concat ((λ q, sep ++ q) <$> ps)
  end.

(** *** [JSON.parse]

    A recursive-descent reader of the JSON grammar. [None] is the SyntaxError
    that [JSON.parse] raises. *)
Definition is_json_ws (c : N) : bool :=
  bool_decide (c ∈ [32; 9; 10; 13]%N).

Fixpoint skip_ws (s : jsstring) : jsstring :=
  match s with
  | c :: r => if is_json_ws c then skip_ws r else s
  | [] => []
  end.

Definition is_digit (c : N) : bool := ((48 <=? c) && (c <=? 57))%N.

Definition hex_digit (c : N) : option N :=
  if is_digit c then Some (c - 48)%N
  else if ((97 <=? c) && (c <=? 102))%N then Some (c - 87)%N
  else if ((65 <=? c) && (c <=? 70))%N then Some (c - 55)%N
  else None.

Definition unescape (c : N) : option N :=
  if bool_decide (c ∈ [34; 92; 47]%N) then Some c
  else if (c =? 98)%N then Some 8%N
  else if (c =? 102)%N then Some 12%N
  else if (c =? 110)%N then Some 10%N
  else if (c =? 114)%N then Some 13%N
  else if (c =? 116)%N then Some 9%N
  else None.

(** The characters of a string literal after its opening quote, and the text
    after the closing quote. *)
Fixpoint parse_chars (s : jsstring) : option (jsstring * jsstring) :=
  match s with
  | [] => None
  | c :: r =>
      if (c =? 34)%N then Some ([], r)
      else if (c =? 92)%N then
        match r with
        | [] => None
        | e :: r1 =>
            if (e =? 117)%N then
              match r1 with
              | h1 :: h2 :: h3 :: h4 :: r2 =>
                  a ← hex_digit h1; b ← hex_digit h2;
                  c' ← hex_digit h3; d ← hex_digit h4;
                  '(t, rest) ← parse_chars r2;
                  Some ((((a * 16 + b) * 16 + c') * 16 + d)%N :: t, rest)
              | _ => None
              end
            else
              u ← unescape e;
              '(t, rest) ← parse_chars r1;
              Some (u :: t, rest)
        end
      else if (c <? 32)%N then None
      else '(t, rest) ← parse_chars r; Some (c :: t, rest)
  end.

Fixpoint take_digits (s : jsstring) : jsstring * jsstring :=
  match s with
  | c :: r =>
      if is_digit c then let '(ds, rest) := take_digits r in (c :: ds, rest)
      else ([], s)
  | [] => ([], [])
  end.

Definition digits_value (ds : jsstring) : Z :=
  foldl (λ acc c, acc * 10 + Z.of_N (c - 48)) 0 ds.

(** A number token: an optional minus sign, an integer part without leading
    zeros, an optional fraction and an optional exponent. *)
Definition parse_number (s : jsstring) : option (number * jsstring) :=
  let '(neg, s1) := match s with
                    | 45%N :: r => (true, r)
                    | _ => (false, s)
                    end in
  let '(ip, s2) := take_digits s1 in
  match ip with
  | [] => None
  | d :: more =>
      if (d =? 48)%N && negb (bool_decide (more = [])) then None else
      fr ← match s2 with
           | 46%N :: r =>
               let '(fp, s3) := take_digits r in
               if bool_decide (fp = []) then None else Some (fp, s3)
           | _ => Some ([], s2)
           end;
      ex ← match fr.2 with
           | c :: r =>
               if bool_decide (c ∈ [101; 69]%N) then
                 let '(eneg, r1) := match r with
                                    | 45%N :: r' => (true, r')
                                    | 43%N :: r' => (false, r')
                                    | _ => (false, r)
                                    end in
                 let '(ep, s4) := take_digits r1 in
                 if bool_decide (ep = []) then None
                 else Some (if eneg then - digits_value ep else digits_value ep, s4)
               else Some (0, fr.2)
           | [] => Some (0, [])
           end;
      let x := Num (digits_value (ip ++ fr.1)) (ex.1 - Z.of_nat (length fr.1)) in
      Some (if neg then SFopp x else x, ex.2)
  end.

Definition object_of (members : list (jsstring * value)) : value :=
  JSObject (foldl (λ acc kv, obj_set kv.1 kv.2 acc) [] members).

Fixpoint parse_value (fuel : nat) (s : jsstring) : option (value * jsstring) :=
  match fuel with
  | O => None
  | S fuel =>
      match skip_ws s with
      | [] => None
      | c :: r =>
          if (c =? 34)%N then
            '(t, rest) ← parse_chars r; Some (JSString t, rest)
          else if (c =? 91)%N then
            match skip_ws r with
            | 93%N :: rest => Some (JSArray [], rest)
            | _ => '(vs, rest) ← parse_elements fuel r; Some (JSArray vs, rest)
            end
          else if (c =? 123)%N then
            match skip_ws r with
            | 125%N :: rest => Some (JSObject [], rest)
            | _ => '(ms, rest) ← parse_members fuel r; Some (object_of ms, rest)
            end
          else if startsWith (c :: r) (str "true") then
            Some (JSBoolean true, drop 4 (c :: r))
          else if startsWith (c :: r) (str "false") then
            Some (JSBoolean false, drop 5 (c :: r))
          else if startsWith (c :: r) (str "null") then
            Some (JSNull, drop 4 (c :: r))
          else
            '(n, rest) ← parse_number (c :: r); Some (JSNumber n, rest)
      end
  end
with parse_elements (fuel : nat) (s : jsstring)
  : option (list value * jsstring) :=
  match fuel with
  | O => None
  | S fuel =>
      '(v, rest) ← parse_value fuel s;
      match skip_ws rest with
      | 44%N :: r => '(vs, rest') ← parse_elements fuel r; Some (v :: vs, rest')
      | 93%N :: r => Some ([v], r)
      | _ => None
      end
  end
with parse_members (fuel : nat) (s : jsstring)
  : option (list (jsstring * value) * jsstring) :=
  match fuel with
  | O => None
  | S fuel =>
      match skip_ws s with
      | 34%N :: r =>
          '(k, rest) ← parse_chars r;
          match skip_ws rest with
          | 58%N :: r1 =>
              '(v, rest1) ← parse_value fuel r1;
              match skip_ws rest1 with
              | 44%N :: r2 =>
                  '(ms, rest2) ← parse_members fuel r2; Some ((k, v) :: ms, rest2)
              | 125%N :: r2 => Some ([(k, v)], r2)
              | _ => None
              end
          | _ => None
          end
      | _ => None
      end
  end.

Definition JSON_parse (s : jsstring) : option value :=
  '(v, rest) ← parse_value (2 * length s + 2) s;
  if bool_decide (skip_ws rest = []) then Some v else None.

End JS.

(** ** The response normalizer ([src/app/page.tsx]) *)

Module Normalizer.
Import JS.

(** The declared type of [answer] is [string], but nothing at run time makes
    it one: the field holds whatever value the payload carried. *)
Record ParsedResponse := {
  answer : value;
  sources_consulted : list jsstring;
  compliance_status : jsstring;
  domains_accessed : list jsstring;
  confidence : jsstring;
  flags : list jsstring
}.

(** [safeParseResult]. A raised TypeError is [None]. *)
Definition safeParseResult (result : value) : option value :=
  if negb (truthy result) then Some (JSObject [])
  else match result with
       | JSString s =>
           match JSON_parse s with
           | Some v => Some v
           | None => Some (JSObject [(str "answer", JSString s)])
           end
       | JSArray _ | JSObject _ =>
           a ← get result (str "answer");
           match a with
           | JSString t =>
               if startsWith t (str "{") then
                 match JSON_parse t with
                 | Some inner => Some (JSObject (spread (spread [] result) inner))
                 | None => Some result
                 end
               else Some result
           | _ => Some result
           end
       | _ => t ← String_ result; Some (JSObject [(str "answer", JSString t)])
       end.

Definition defaults : ParsedResponse := {|
  answer := JSString (str "");
  sources_consulted := [];
  compliance_status := str "compliant";
  domains_accessed := [];
  confidence := str "medium";
  flags := []
|}.

(** [defaults] as the object that [{ ...defaults, answer: x }] spreads. *)
Definition as_object (r : ParsedResponse) : list (jsstring * value) :=
  [ (str "answer", answer r);
    (str "sources_consulted", JSArray (JSString <$> sources_consulted r));
    (str "compliance_status", JSString (compliance_status r));
    (str "domains_accessed", JSArray (JSString <$> domains_accessed r));
    (str "confidence", JSString (confidence r));
    (str "flags", JSArray (JSString <$> flags r)) ].

Definition with_answer (x : value) : value :=
  JSObject (obj_set (str "answer") x (as_object defaults)).

(** [!data || !data.answer] *)
Definition lacks_answer (data : value) : option bool :=
  if negb (truthy data) then Some true
  else a ← get data (str "answer"); Some (negb (truthy a)).

Definition textKeys : list jsstring :=
  [str "text"; str "response"; str "content"; str "message";
   str "answer_text"; str "summary"; str "output"].

(** [data.answer = x]. The assignment is reached only when a read of [data]
    gave a string, that is on an object; in this strict-mode module an
    assignment on a primitive raises. The object may be the payload's own
    [response.result]; the payload is not read there again, so the update is
    carried in [data] alone. *)
Definition assign_answer (data x : value) : option value :=
  match data with
  | JSObject ps => Some (JSObject (obj_set (str "answer") x ps))
  | _ => None
  end.

(** The loop over [textKeys], leaving at the first key adopted. *)
Fixpoint adopt_text (keys : list jsstring) (data : value) : option value :=
  match keys with
  | [] => Some data
  | key :: keys =>
      x ← get data key;
      if truthy x && is_string x then assign_answer data x
      else adopt_text keys data
  end.

(** The local [safeArray]. The conversion of a parsed array is inside the
    [try], so a failure there falls through to the one-element result. *)
Definition safeArray (val : value) : option (list jsstring) :=
  match val with
  | JSArray items => mapM String_ items
  | JSString s =>
      let whole := if bool_decide (s = []) then [] else [s] in
      match JSON_parse s with
      | Some (JSArray parsed) =>
          match mapM String_ parsed with
          | Some l => Some l
          | None => Some whole
          end
      | _ => Some whole
      end
  | _ => Some []
  end.

(** [(x).toLowerCase()]: a TypeError unless [x] is a string. *)
Definition call_toLowerCase (x : value) : option jsstring :=
  match x with
  | JSString s => Some (toLowerCase s)
  | _ => None
  end.

(** [typeof x === 'string' && x.length > 0] after the [typeof] test *)
Definition length_positive (x : value) : bool :=
  match x with
  | JSString s => negb (bool_decide (s = []))
  | _ => false
  end.

(** [acc || data.k] *)
Definition or_get (acc data : value) (k : jsstring) : option value :=
  if truthy acc then Some acc else get data k.

(** The paths under [apiResult.response]. *)
Definition from_response (responseObj : value) : option value :=
  result ← get responseObj (str "result");
  data ← (if truthy result then safeParseResult result else Some JSNull);
  la ← lacks_answer data;
  message ← (if la then get responseObj (str "message") else Some JSUndefined);
  data ← (if la && truthy message then
            msgParsed ← safeParseResult message;
            a ← get msgParsed (str "answer");
            if truthy a then Some msgParsed
            else if is_string message && length_positive message
                 then Some (with_answer message)
            else Some data
          else Some data);
  a ← (if truthy data then get data (str "answer") else Some JSUndefined);
  if truthy data && negb (truthy a) then adopt_text textKeys data
  else Some data.

(** Top-level fields of [apiResult]. *)
Definition from_top_level (apiResult data : value) : option value :=
  la ← lacks_answer data;
  if la : bool then
    a ← get apiResult (str "answer");
    if truthy a then safeParseResult apiResult
    else
      t ← get apiResult (str "text");
      if truthy t then Some (with_answer t)
      else
        m ← get apiResult (str "message");
        if truthy m && is_string m then Some (with_answer m)
        else Some data
  else Some data.

(** The [raw_response] fallback. *)
Definition from_raw_response (apiResult data : value) : option value :=
  la ← lacks_answer data;
  raw ← (if la then get apiResult (str "raw_response") else Some JSUndefined);
  if la && truthy raw then
    rawParsed ← safeParseResult raw;
    a ← get rawParsed (str "answer");
    if truthy a then Some rawParsed
    else if is_string raw then Some (with_answer raw)
    else Some data
  else Some data.

(** The record returned for a chosen candidate. *)
Definition build (data : value) : option ParsedResponse :=
  a ← get data (str "answer");
  a ← or_get a data (str "text");
  a ← or_get a data (str "response");
  a ← or_get a data (str "content");
  a ← or_get a data (str "message");
  sc ← get data (str "sources_consulted");
  sc ← safeArray sc;
  cs ← get data (str "compliance_status");
  cs ← call_toLowerCase (or_else cs (JSString (str "compliant")));
  da ← get data (str "domains_accessed");
  da ← safeArray da;
  cf ← get data (str "confidence");
  cf ← call_toLowerCase (or_else cf (JSString (str "medium")));
  fl ← get data (str "flags");
  fl ← safeArray fl;
  Some {| answer := or_else a (JSString (str ""));
          sources_consulted := sc;
          compliance_status := cs;
          domains_accessed := da;
          confidence := cf;
          flags := fl |}.

(** [deepExtractResponse]: [None] when the call raises. *)
Definition deepExtractResponse (apiResult : value) : option ParsedResponse :=
  if negb (truthy apiResult) then Some defaults else
  responseObj ← get apiResult (str "response");
  data ← (if truthy responseObj then from_response responseObj else Some JSNull);
  data ← from_top_level apiResult data;
  data ← from_raw_response apiResult data;
  if negb (truthy data) then Some defaults else build data.

(** *** The extraction paths, one by one

    Each path gives the candidate object it resolves, when that candidate
    carries a usable (truthy) [answer]. Reads are total here: a property of
    [null] reads as [undefined]. *)
Definition prop (v : value) (k : jsstring) : value :=
  default JSUndefined (get v k).

Definition parsed (v : value) : value :=
  default JSUndefined (safeParseResult v).

Definition nullish (v : value) : bool :=
  match v with
  | JSUndefined | JSNull => true
  | _ => false
  end.

Definition has_answer (d : value) : bool :=
  truthy d && truthy (prop d (str "answer")).

(** [response.result], parsed, with its own [answer]. *)
Definition path_result (r : value) : option value :=
  let d := parsed (prop r (str "result")) in
  if truthy (prop r (str "result")) && has_answer d then Some d else None.

(** [response.result], parsed, without an [answer]: the first of the
    alternate keys that holds a non-empty string is adopted. *)
Definition path_text_keys (r : value) : option value :=
  let d := parsed (prop r (str "result")) in
  if truthy (prop r (str "result")) && truthy d && negb (has_answer d) then
    key ← List.find (λ k, truthy (prop d k) && is_string (prop d k)) textKeys;
    assign_answer d (prop d key)
  else None.

(** A text field that is parsed ([response.message], [raw_response]): the
    parsed object when it has an [answer], else the text itself. *)
Definition path_text (m : value) : option value :=
  if truthy m then
    if truthy (prop (parsed m) (str "answer")) then Some (parsed m)
    else if is_string m then Some (with_answer m)
    else None
  else None.

Definition path_message (r : value) : option value :=
  path_text (prop r (str "message")).

(** The top-level [answer], then [text], then [message] if it is a string. *)
Definition path_top_level (api : value) : option value :=
  if truthy (prop api (str "answer")) then
    if has_answer (parsed api) then Some (parsed api) else None
  else if truthy (prop api (str "text")) then
    Some (with_answer (prop api (str "text")))
  else if truthy (prop api (str "message")) && is_string (prop api (str "message"))
  then Some (with_answer (prop api (str "message")))
  else None.

Definition path_raw_response (api : value) : option value :=
  path_text (prop api (str "raw_response")).

Fixpoint first_some {A} (l : list (option A)) : option A :=
  match l with
  | [] => None
  | Some a :: _ => Some a
  | None :: l => first_some l
  end.

(** Modelled on the specification's words (section 4.1): the paths in the
    order the specification gives them, the alternate keys of
    [response.result] being part of its first step. *)
Definition spec_order (api : value) : list (option value) :=
  let r := prop api (str "response") in
  (if truthy r then [path_result r; path_text_keys r; path_message r] else [])
  ++ [path_top_level api; path_raw_response api].

(** The order in which the code of [deepExtractResponse] probes them:
    the paths under [response] and the top-level fields, then
    [raw_response]. *)
Definition before_raw_response (api : value) : list (option value) :=
  let r := prop api (str "response") in
  (if truthy r then [path_result r; path_message r; path_text_keys r] else [])
  ++ [path_top_level api].

Definition code_order (api : value) : list (option value) :=
  before_raw_response api ++ [path_raw_response api].

(** What the alternate keys leave of a candidate without an answer, and what
    a parsed text field leaves, given the data before it. *)
Definition keys_tried (d : value) : option value :=
  match List.find (λ k, truthy (prop d k) && is_string (prop d k)) textKeys with
  | Some k => assign_answer d (prop d k)
  | None => Some d
  end.

Definition text_tried (m d : value) : value :=
  if negb (has_answer d) && truthy m then
    if truthy (prop (parsed m) (str "answer")) then parsed m
    else if is_string m then with_answer m
    else d
  else d.

Definition top_level_tried (api d : value) : value :=
  if has_answer d then d
  else if truthy (prop api (str "answer")) then parsed api
  else if truthy (prop api (str "text")) then with_answer (prop api (str "text"))
  else if truthy (prop api (str "message")) && is_string (prop api (str "message"))
  then with_answer (prop api (str "message"))
  else d.

(** A payload with an alternate key in [response.result] and a
    [response.message]. *)
Definition keys_and_message : value :=
  JSObject [(str "response",
    JSObject [(str "result", JSObject [(str "text", JSString (str "T"))]);
              (str "message", JSString (str "M"))])].

(** A payload whose [response.result] has its answer, beside a
    [response.message] that parses to [null]. *)
Definition answer_and_null_message : value :=
  JSObject [(str "response",
    JSObject [(str "result", JSObject [(str "answer", JSString (str "A"))]);
              (str "message", JSString (str "null"))])].

(** A candidate whose status fields are strings (or absent) and whose list
    fields can be converted: [build] does not raise on it. *)
Definition text_or_absent (x : value) : bool := negb (truthy x) || is_string x.

Definition well_typed (d : value) : bool :=
  text_or_absent (prop d (str "compliance_status"))
  && text_or_absent (prop d (str "confidence"))
  && bool_decide (is_Some (safeArray (prop d (str "sources_consulted"))))
  && bool_decide (is_Some (safeArray (prop d (str "domains_accessed"))))
  && bool_decide (is_Some (safeArray (prop d (str "flags")))).

End Normalizer.

(** ** The Markdown renderer ([src/app/page.tsx]) *)

Module Markdown.
Import JS.

Inductive list_type := ul | ol.

#[global] Instance list_type_eq_dec : EqDecision list_type.
Proof. solve_decision. Defined.

(** Blocks carry the React key they are built with and the text handed to
    [formatInline], which only decorates the inside of a block. *)
Record item := { item_key : nat; item_indent : nat; item_text : jsstring }.

Inductive block :=
| Pre (key : nat) (code : jsstring)
| Hr (key : nat)
| H5 (key : nat) (content : jsstring)
| H4 (key : nat) (content : jsstring)
| H3 (key : nat) (content : jsstring)
| H2 (key : nat) (content : jsstring)
| Blockquote (key : nat) (content : jsstring)
| Ul (key : nat) (items : list item)
| Ol (key : nat) (items : list item)
| Spacer (key : nat)
| P (key : nat) (content : jsstring).

Record state := {
  elements : list block;
  inCodeBlock : bool;
  codeLines : list jsstring;
  listItems : list item;
  listType : option list_type
}.

Definition initial : state :=
  {| elements := []; inCodeBlock := false; codeLines := [];
     listItems := []; listType := None |}.

Definition push (b : block) (st : state) : state :=
  {| elements := elements st ++ [b]; inCodeBlock := inCodeBlock st;
     codeLines := codeLines st; listItems := listItems st;
     listType := listType st |}.

Definition flushList (currentIdx : nat) (st : state) : state :=
  match listItems st, listType st with
  | _ :: _, Some t =>
      {| elements := elements st ++
           [match t with
            | ul => Ul currentIdx (listItems st)
            | ol => Ol currentIdx (listItems st)
            end];
         inCodeBlock := inCodeBlock st; codeLines := codeLines st;
         listItems := []; listType := None |}
  | _, _ => st
  end.

(** [if (listType !== t) { flushList(i); listType = t }; listItems.push(it)] *)
Definition add_item (i : nat) (t : list_type) (it : item) (st : state) : state :=
  let st := if bool_decide (listType st = Some t) then st
            else let st := flushList i st in
                 {| elements := elements st; inCodeBlock := inCodeBlock st;
                    codeLines := codeLines st; listItems := listItems st;
                    listType := Some t |} in
  {| elements := elements st; inCodeBlock := inCodeBlock st;
     codeLines := codeLines st; listItems := listItems st ++ [it];
     listType := listType st |}.

(** The longest prefix of units satisfying [p], and the rest. *)
Fixpoint span (p : N → bool) (s : jsstring) : jsstring * jsstring :=
  match s with
  | c :: r => if p c then let '(a, b) := span p r in (c :: a, b) else ([], s)
  | [] => ([], [])
  end.

(** [line.trim().startsWith('```')] *)
Definition is_fence (line : jsstring) : bool :=
  startsWith (trim line) [96; 96; 96]%N.

(** The rule pattern: three or more of one of [-], [*], [_], and nothing
    else. *)
Definition is_rule (s : jsstring) : bool :=
  match s with
  | c :: _ =>
      bool_decide (c ∈ [45; 42; 95]%N) && bool_decide (3 ≤ length s)%nat
      && forallb (λ x, bool_decide (x = c)) s
  | [] => false
  end.

(** The unordered item pattern: white space, one of [-], [*], [+], one
    white-space unit, then at least one unit that is no line terminator.
    Gives the length of the indent and the captured text. *)
Definition match_ul (line : jsstring) : option (nat * jsstring) :=
  let '(ws, r) := span is_space line in
  match r with
  | m :: w :: c :: rest =>
      if bool_decide (m ∈ [45; 42; 43]%N) && is_space w
         && negb (is_line_terminator c)
      then Some (length ws, (span (λ x, negb (is_line_terminator x)) (c :: rest)).1)
      else None
  | _ => None
  end.

(** The ordered item test: white space, digits, a dot, one white-space unit.
    Gives the indent and what follows that unit. *)
Definition test_ol (line : jsstring) : option (nat * jsstring) :=
  let '(ws, r) := span is_space line in
  let '(ds, r) := span is_digit r in
  match ds, r with
  | _ :: _, 46%N :: w :: rest => if is_space w then Some (length ws, rest) else None
  | _, _ => None
  end.

(** The ordered item pattern proper also wants one captured unit. *)
Definition match_ol (line : jsstring) : option (nat * jsstring) :=
  match test_ol line with
  | Some (indent, c :: rest) =>
      if is_line_terminator c then None
      else Some (indent, (span (λ x, negb (is_line_terminator x)) (c :: rest)).1)
  | _ => None
  end.

(** One turn of the loop over the lines. *)
Definition step (i : nat) (line : jsstring) (st : state) : state :=
  if is_fence line then
    if inCodeBlock st then
      {| elements := elements st ++ [Pre i (join [10%N] (codeLines st))];
         inCodeBlock := false; codeLines := [];
         listItems := listItems st; listType := listType st |}
    else
      let st := flushList i st in
      {| elements := elements st; inCodeBlock := true;
         codeLines := codeLines st; listItems := listItems st;
         listType := listType st |}
  else if inCodeBlock st then
    {| elements := elements st; inCodeBlock := inCodeBlock st;
       codeLines := codeLines st ++ [line];
       listItems := listItems st; listType := listType st |}
  else if is_rule (trim line) then push (Hr i) (flushList i st)
  else if startsWith line (str "#### ") then
    push (H5 i (drop 5 line)) (flushList i st)
  else if startsWith line (str "### ") then
    push (H4 i (drop 4 line)) (flushList i st)
  else if startsWith line (str "## ") then
    push (H3 i (drop 3 line)) (flushList i st)
  else if startsWith line (str "# ") then
    push (H2 i (drop 2 line)) (flushList i st)
  else if startsWith line (str "> ") then
    push (Blockquote i (drop 2 line)) (flushList i st)
  else
    match match_ul line with
    | Some (indent, content) =>
        add_item i ul {| item_key := i; item_indent := indent;
                         item_text := content |} st
    | None =>
        match (if bool_decide (test_ol line = None) then None else match_ol line) with
        | Some (indent, content) =>
            add_item i ol {| item_key := i; item_indent := indent;
                             item_text := content |} st
        | None =>
            if bool_decide (trim line = []) then push (Spacer i) (flushList i st)
            else push (P i line) (flushList i st)
        end
    end.

(** The loop, from line [i] on. *)
Fixpoint run (i : nat) (lines : list jsstring) (st : state) : state :=
  match lines with
  | [] => st
  | line :: lines => run (S i) lines (step i line st)
  end.

(** The blocks of the returned [div] for the given lines. *)
Definition render (lines : list jsstring) : list block :=
  elements (flushList (length lines) (run 0 lines initial)).

(** Inside an open fence: the state with more code lines. *)
Definition with_code (st : state) (more : list jsstring) : state :=
  {| elements := elements st; inCodeBlock := true;
     codeLines := codeLines st ++ more;
     listItems := listItems st; listType := listType st |}.

(** Outside a fence no code line is pending. *)
Definition no_pending_code (st : state) : Prop :=
  inCodeBlock st = false → codeLines st = [].

(** The React key of a block among its siblings: the line number, and
    whether it is prefixed by [list-], as the keys of the two kinds of list
    are. *)
Definition block_key (b : block) : bool * nat :=
  match b with
  | Ul k _ | Ol k _ => (true, k)
  | Pre k _ | Hr k | H5 k _ | H4 k _ | H3 k _ | H2 k _ | Blockquote k _
  | Spacer k | P k _ => (false, k)
  end.

Definition block_items (b : block) : list item :=
  match b with
  | Ul _ items | Ol _ items => items
  | _ => []
  end.

(** The number of lines that a block shows: one per item of a list, one for
    any block else that is no code. *)
Definition lines_shown (b : block) : nat :=
  match b with
  | Ul _ items | Ol _ items => length items
  | Pre _ _ => 0
  | _ => 1
  end.

(** *** [formatInline] (of the first of the two texts of the page, the one
    with the loop over [remaining])

    The tokens pushed, in order; their keys are their positions. [Text] is
    the plain fragment. *)
Inductive inline :=
| Text (s : jsstring)
| Strong (s : jsstring)
| Em (s : jsstring)
| Code (s : jsstring).

(** What [formatInline] returns: the one token, or the fragment of them
    all. *)
Inductive node :=
| Single (t : inline)
| Fragment (ts : list inline).

(** The first occurrence of the marker [m] in [s]: what precedes it and what
    follows it. *)
Fixpoint find_marker (m s : jsstring) : option (jsstring * jsstring) :=
  if startsWith s m then Some ([], drop (length m) s)
  else match s with
       | [] => None
       | c :: r =>
           match find_marker m r with
           | Some (a, b) => Some (c :: a, b)
           | None => None
           end
       end.

(** The three patterns have one shape: anything, the marker, anything, the
    marker, anything, with the first two groups lazy and the dot matching
    every unit. The first group is the shortest prefix after which the rest
    matches, which is what precedes the first marker: a later marker closes
    this first one as well as any marker in between. The second group is
    then what precedes the next marker. The groups are returned in order. *)
Definition match_pair (m s : jsstring)
  : option (jsstring * jsstring * jsstring) :=
  match find_marker m s with
  | Some (before, after) =>
      match find_marker m after with
      | Some (inner, rest) => Some (before, inner, rest)
      | None => None
      end
  | None => None
  end.

(** [if (match[1]) tokens.push(plain); tokens.push(token)] *)
Definition tokens_of (before : jsstring) (t : inline) : list inline :=
  (if bool_decide (before = []) then [] else [Text before]) ++ [t].

(** The loop over [remaining]. Every turn but the last shortens
    [remaining], so [fuel] bounds the turns; [None] is fuel run out. *)
Fixpoint inline_tokens (fuel : nat) (remaining : jsstring)
  : option (list inline) :=
  if bool_decide (remaining = []) then Some [] else
  match fuel with
  | O => None
  | S fuel =>
      match match_pair [42; 42]%N remaining with
      | Some (before, inner, rest) =>
          (tokens_of before (Strong inner) ++.) <$> inline_tokens fuel rest
      | None =>
          match match_pair [42%N] remaining with
          | Some (before, inner, rest) =>
              (tokens_of before (Em inner) ++.) <$> inline_tokens fuel rest
          | None =>
              match match_pair [96%N] remaining with
              | Some (before, inner, rest) =>
                  (tokens_of before (Code inner) ++.) <$> inline_tokens fuel rest
              | None => Some [Text remaining]
              end
          end
      end
  end.

Definition formatInline (text : jsstring) : option node :=
  tokens ← inline_tokens (length text) text;
  Some (match tokens with
        | [t] => Single t
        | _ => Fragment tokens
        end).

(** The text that a token was cut from. *)
Definition source (t : inline) : jsstring :=
  match t with
  | Text s => s
  | Strong s => [42; 42]%N ++ s ++ [42; 42]%N
  | Em s => [42%N] ++ s ++ [42%N]
  | Code s => [96%N] ++ s ++ [96%N]
  end.

Definition node_tokens (n : node) : list inline :=
  match n with
  | Single t => [t]
  | Fragment ts => ts
  end.

(** A token whose content holds no marker of its own kind; a plain fragment
    that is not empty. *)
Definition closed_token (t : inline) : Prop :=
  match t with
  | Text s => s ≠ []
  | Strong s => ∀ a b, s ≠ a ++ [42; 42]%N ++ b
  | Em s => 42%N ∉ s
  | Code s => 96%N ∉ s
  end.

(** *** Invariants of the loop

    Before line [i] is read, the keys handed out so far are distinct and
    carry line numbers below [i]; [or_list_i] admits the key of a list
    flushed at line [i] itself. *)
Definition keys_inv (or_list_i : bool) (i : nat) (st : state) : Prop :=
  NoDup (block_key <$> elements st)
  ∧ Forall (λ b, ((block_key b).2 < i)%nat
                 ∨ (or_list_i = true ∧ block_key b = (true, i)))
      (elements st)
  ∧ Forall (λ b, NoDup (item_key <$> block_items b)) (elements st)
  ∧ NoDup (item_key <$> listItems st)
  ∧ Forall (λ it, (item_key it < i)%nat) (listItems st).

(** Outside a fence, [n] lines are accounted for by the blocks and the
    pending items, and pending items have a list type. *)
Definition lines_inv (n : nat) (st : state) : Prop :=
  inCodeBlock st = false
  ∧ (listType st = None → listItems st = [])
  ∧ (sum_list_with lines_shown (elements st) + length (listItems st) = n)%nat.

(** Text written with [|] where the text has a line feed. *)
Definition text_of (s : string) : jsstring :=
  (λ c, if (c =? 124)%N then 10%N else c) <$> str s.

(** [renderMarkdown]: [None] is the [null] returned for an empty text. *)
Definition renderMarkdown (text : jsstring) : option (list block) :=
  if bool_decide (text = []) then None
  else Some (render (split_on 10 text)).

End Markdown.

(** ** The knowledge-base routes ([src/unnamed/part_000], [src/unnamed/part_001]) *)

Module Route.
Import JS.

(** *** Exceptions and the upstream service *)

(** A thrown value: an [Error] with its message, or something else. *)
Inductive exn :=
| Error_ (message : jsstring)
| NonError.

(** [e instanceof Error ? e.message : fallback] *)
Definition message_or (e : exn) (fallback : jsstring) : jsstring :=
  match e with
  | Error_ m => m
  | NonError => fallback
  end.

(** What [fetch] resolves to: the status line and the two ways the handlers
    read the body, each of which may reject. *)
Record response := {
  ok : bool;
  status : Z;
  json : exn + value;
  text : exn + jsstring
}.

Inductive outcome :=
| Responded (r : response)
| Rejected (e : exn).

(** The multipart form of a train call. *)
Record train_form := {
  form_file : list N;
  form_file_type : jsstring;
  form_file_name : jsstring;
  data_parser : jsstring;
  chunk_size : jsstring;
  chunk_overlap : jsstring;
  extra_info : jsstring
}.

(** An upstream call. The knowledge-base id is recorded before its
    percent-encoding into the URL. *)
Inductive call :=
| ListDocuments (ragId : jsstring)
| Train (fileType : jsstring) (ragId : jsstring) (form : train_form)
| DeleteDocuments (ragId : jsstring) (names : list jsstring).

(** The knowledge base that a call addresses. *)
Definition call_ragId (c : call) : jsstring :=
  match c with
  | ListDocuments ragId | Train _ ragId _ | DeleteDocuments ragId _ => ragId
  end.

(** The upstream service as seen by one request: the outcome of its n-th
    call. *)
Definition upstream := nat → outcome.

(** A handler step: it may throw, and it extends the log of upstream calls. *)
Definition M (A : Type) : Type := list call → (exn + A) * list call.

Definition ret {A} (a : A) : M A := λ l, (inr a, l).

Definition bind {A B} (m : M A) (f : A → M B) : M B :=
  λ l, match m l with
       | (inl e, l') => (inl e, l')
       | (inr a, l') => f a l'
       end.

Notation "'let*' x ':=' m 'in' k" := (bind m (λ x, k))
  (at level 10, x pattern, m at level 100, k at level 200).

(** [await p] for a promise already settled. *)
Definition settle {A} (x : exn + A) : M A := λ l, (x, l).

(** [try { m } catch (e) { ... }], the handler left to the caller. *)
Definition try_ {A} (m : M A) : M (exn + A) := λ l, (inr (m l).1, (m l).2).

Definition fetch (up : upstream) (c : call) : M response :=
  λ l, match up (length l) with
       | Responded r => (inr r, l ++ [c])
       | Rejected e => (inl e, l ++ [c])
       end.

(** An uploaded file: its name, its declared media type and its bytes. *)
Record File := {
  file_name : jsstring;
  file_type : jsstring;
  file_bytes : list N
}.

(** *** Responses of the routes *)

Record RAGDocument := {
  fileName : jsstring;
  fullPath : jsstring;
  fileType : jsstring;
  doc_status : jsstring
}.

(** The JSON envelopes. [Failure] is the one with [success: false]; each of
    the others has [success: true]. *)
Inductive body :=
| Failure (error : jsstring) (details : option jsstring)
| Documents (documents : list RAGDocument) (ragId : jsstring) (timestamp : jsstring)
| Running (message : jsstring) (timestamp : jsstring)
| Trained (message : jsstring) (name : jsstring) (type : value)
    (documentCount : value) (ragId : jsstring) (timestamp : jsstring)
| Deleted (message : jsstring) (deletedCount : nat) (ragId : jsstring)
    (timestamp : jsstring).

Definition success (b : body) : bool :=
  match b with
  | Failure _ _ => false
  | _ => true
  end.

(** [NextResponse.json(body, { status })]; the status is 200 when left out. *)
Record http_response := { http_status : Z; http_body : body }.

Definition respond (b : body) : http_response :=
  {| http_status := 200; http_body := b |}.

(** The catch-all around every handler body. *)
Definition handle (m : M http_response) : http_response * list call :=
  match m [] with
  | (inr r, l) => (r, l)
  | (inl e, l) =>
      ({| http_status := 500;
          http_body := Failure (message_or e (str "Server error")) None |}, l)
  end.

(** The last call of a log was answered with success and a body that
    decodes. *)
Definition accepted (up : upstream) (log : list call) : Prop :=
  ∃ r data, log ≠ [] ∧ up (length log - 1)%nat = Responded r
            ∧ ok r = true ∧ json r = inr data.

(** *** Pieces shared by the handlers *)

Definition is_high_surrogate (c : N) : bool := ((55296 <=? c) && (c <=? 56319))%N.
Definition is_low_surrogate (c : N) : bool := ((56320 <=? c) && (c <=? 57343))%N.

Fixpoint well_formed (s : jsstring) : bool :=
  match s with
  | [] => true
  | c :: r =>
      if is_high_surrogate c then
        match r with
        | d :: r' => is_low_surrogate d && well_formed r'
        | [] => false
        end
      else negb (is_low_surrogate c) && well_formed r
  end.

(** [encodeURIComponent(ragId)]: a URIError on a lone surrogate; the encoded
    text itself is not modelled. *)
Definition encodeURIComponent (s : jsstring) : M jsstring :=
  if well_formed s then ret s else settle (inl (Error_ (str "URI malformed"))).

(** A log of at most three calls, made with a configured key and each
    addressing a knowledge base whose id is non-empty and well formed. *)
Definition guarded (key : jsstring) (log : list call) : Prop :=
  (length log ≤ 3)%nat
  ∧ ∀ c, c ∈ log →
      key ≠ [] ∧ call_ragId c ≠ [] ∧ well_formed (call_ragId c) = true.

(** The own properties of the object [FILE_TYPE_MAP]. *)
Definition FILE_TYPE_MAP : gmap (list N) (list N) :=
  {[ str "application/pdf" := str "pdf";
     str "application/vnd.openxmlformats-officedocument.wordprocessingml.document"
       := str "docx";
     str "text/plain" := str "txt" ]}.

(** The object is a literal: a key that is none of its own finds what every
    object inherits. Each of these members is truthy: [__proto__] is the
    prototype object, the others are functions. *)
Definition inherited_members : list jsstring :=
  [str "constructor"; str "__proto__"; str "hasOwnProperty";
   str "isPrototypeOf"; str "propertyIsEnumerable"; str "toLocaleString";
   str "toString"; str "valueOf"; str "__defineGetter__";
   str "__defineSetter__"; str "__lookupGetter__"; str "__lookupSetter__"].

(** The text of such a member where the train URL interpolates it. *)
Definition member_text (key : jsstring) : jsstring :=
  if bool_decide (key = str "__proto__") then str "[object Object]"
  else if bool_decide (key = str "constructor")
  then str "function Object() { [native code] }"
  else str "function " ++ key ++ str "() { [native code] }".

(** [FILE_TYPE_MAP[type]] when it is truthy, as the text that the train URL
    shows of it. *)
Definition FILE_TYPE_MAP_at (type : jsstring) : option jsstring :=
  match FILE_TYPE_MAP !! type with
  | Some fileType => Some fileType
  | None =>
      if bool_decide (type ∈ inherited_members) then Some (member_text type)
      else None
  end.

(** The [fileType] field of the JSON answer: the type when it is a string;
    [JSON.stringify] writes the prototype object as the empty object and
    leaves a function out. *)
Definition type_field (fileType : jsstring) : value :=
  if bool_decide (fileType ∈ [str "pdf"; str "docx"; str "txt"])
  then JSString fileType
  else if bool_decide (fileType = str "[object Object]") then JSObject []
  else JSUndefined.

(** [l.pop()] of a list that [split] produced *)
Definition pop (l : list jsstring) : jsstring := default [] (last l).

Definition type_of_extension (ext : jsstring) : jsstring :=
  if bool_decide (ext = str "pdf") then str "pdf"
  else if bool_decide (ext = str "docx") then str "docx"
  else if bool_decide (ext = str "txt") then str "txt"
  else str "unknown".

(** One entry of the document listing. *)
Definition to_document (filePath : value) : exn + RAGDocument :=
  match (match filePath with
         | JSString s => Some s
         | _ => String_ filePath
         end) with
  | None => inl (Error_ (str "Cannot convert object to primitive value"))
  | Some full =>
      let name := let last_part := pop (split_on 47 full) in
                  if bool_decide (last_part = []) then full else last_part in
      let ext := toLowerCase (pop (split_on 46 name)) in
      inr {| fileName := name; fullPath := full;
             fileType := type_of_extension ext; doc_status := str "active" |}
  end.

Fixpoint map_fallible {A B} (f : A → exn + B) (l : list A) : exn + list B :=
  match l with
  | [] => inr []
  | x :: l =>
      match f x with
      | inl e => inl e
      | inr y => match map_fallible f l with
                 | inl e => inl e
                 | inr ys => inr (y :: ys)
                 end
      end
  end.

(** [Array.isArray(data) ? data : data.documents || data.data || []] *)
Definition listed (data : value) : exn + value :=
  match data with
  | JSArray _ => inr data
  | _ =>
      match get data (str "documents") with
      | None =>
          inl (Error_ (str "Cannot read properties of null (reading 'documents')"))
      | Some d =>
          if truthy d then inr d
          else inr (or_else (default JSUndefined (get data (str "data"))) (JSArray []))
      end
  end.

(** The listing, as both list flows build it. *)
Definition documents_of (data : value) : exn + list RAGDocument :=
  match listed data with
  | inl e => inl e
  | inr (JSArray items) => map_fallible to_document items
  | inr _ => inl (Error_ (str "filePaths.map is not a function"))
  end.

Definition missing_key (on_server : bool) : http_response :=
  {| http_status := 500;
     http_body := Failure (if on_server then str "LYZR_API_KEY not configured on server"
                           else str "LYZR_API_KEY not configured") None |}.

Definition bad_request (error : jsstring) : http_response :=
  {| http_status := 400; http_body := Failure error None |}.

(** [trainData.document_count || trainData.chunks || 1], once [trainData]
    is known not to be [null] *)
Definition document_count (trainData : value) : value :=
  or_else (default JSUndefined (get trainData (str "document_count")))
    (or_else (default JSUndefined (get trainData (str "chunks")))
       (JSNumber (Num 1 0))).

Definition trained_response (file : File) (fileType : jsstring) (count : value)
    (ragId now : jsstring) : http_response :=
  {| http_status := 200;
     http_body := Trained (str "Document uploaded and trained successfully")
                    (file_name file) (type_field fileType) count ragId now |}.

Definition upstream_failure (what : jsstring) (st : Z) (details : jsstring)
  : http_response :=
  {| http_status := st;
     http_body := Failure (what ++ decimal_Z st) (Some details) |}.

(** [NextResponse.json(body, { status })] makes a response that has a body:
    a status outside 200 to 599 raises a RangeError, and a status that allows
    no body (204, 205, 304) a TypeError. *)
Definition carries_body (st : Z) : bool :=
  (200 <=? st) && (st <=? 599) && negb (bool_decide (st ∈ [204; 205; 304])).

Definition NextResponse_json (r : http_response) : M http_response :=
  let st := http_status r in
  if (st <? 200) || (599 <? st) then
    settle (inl (Error_
      (JS.json "init['status'] must be in the range of 200 to 599, inclusive.")))
  else if bool_decide (st ∈ [204; 205; 304]) then
    settle (inl (Error_
      (str "Response constructor: Invalid response status code " ++ decimal_Z st)))
  else ret r.

(** *** Requests *)

(** The two flows of [POST], told apart by the content type of the request:
    a JSON body carrying [ragId], or a form carrying [ragId] and [file].
    Reading the body may reject; a field may be missing. The requests taken
    here are those whose [ragId], when given, is a string, and whose
    [documentNames], when given, is a list of strings. A JSON body may hold
    any value there: an empty array given as [ragId] is truthy and encodes to
    the empty id. Such requests are outside these types. *)
Inductive POST_request :=
| ListRequest (body : exn + option jsstring)
| UploadRequest (form : exn + option jsstring * option File).

Record DELETE_body := {
  delete_ragId : option jsstring;
  documentNames : option (list jsstring)
}.

(** [!ragId] on a field that is a string when present *)
Definition present (x : option jsstring) : option jsstring :=
  match x with
  | Some (c :: s) => Some (c :: s)
  | _ => None
  end.

(** *** The list flow of [POST] (the same text in both files) *)
Definition list_flow (now : jsstring) (up : upstream) (body : exn + option jsstring)
  : M http_response :=
  let* ragId := settle body in
  match present ragId with
  | None => ret (bad_request (str "ragId is required"))
  | Some ragId =>
      let* id := encodeURIComponent ragId in
      let* response := fetch up (ListDocuments id) in
      if ok response then
        let* data := settle (json response) in
        let* documents := settle (documents_of data) in
        ret (respond (Documents documents ragId now))
      else
        let* errorText := settle (text response) in
        NextResponse_json
          (upstream_failure (str "Failed to get documents: ") (status response)
             errorText)
  end.

(** *** [DELETE] (the same text in both files) *)

(** [p.endsWith(`/${name}`) || p === name] *)
Definition matches (name : jsstring) (p : value) : exn + bool :=
  match p with
  | JSString s => inr (endsWith s (47%N :: name) || bool_decide (s = name))
  | JSUndefined | JSNull =>
      inl (Error_ (str "Cannot read properties of null (reading 'endsWith')"))
  | _ => inl (Error_ (str "p.endsWith is not a function"))
  end.

(** What that test decides: the path ends with the separator followed by the
    name, or is the name. *)
Definition path_matches (name p : jsstring) : Prop :=
  (47%N :: name) `suffix_of` p ∨ p = name.

(** [allPaths.find(...)] *)
Fixpoint find_path (name : jsstring) (allPaths : list value)
  : exn + option jsstring :=
  match allPaths with
  | [] => inr None
  | p :: rest =>
      match matches name p, p with
      | inl e, _ => inl e
      | inr true, JSString s => inr (Some s)
      | inr _, _ => find_path name rest
      end
  end.

(** The function mapped over [documentNames]. *)
Definition full_path (allPaths : value) (name : jsstring)
  : exn + option jsstring :=
  if includes name 47 then inr (Some name)
  else match allPaths with
       | JSArray items => find_path name items
       | _ => inl (Error_ (str "allPaths.find is not a function"))
       end.

(** [.filter(Boolean)] *)
Definition keep_truthy (l : list (option jsstring)) : list jsstring :=
  omap present l.

Definition fullPaths (names : list jsstring) (allPaths : value)
  : exn + list jsstring :=
  match map_fallible (full_path allPaths) names with
  | inl e => inl e
  | inr l => inr (keep_truthy l)
  end.

(** A first delete refused, then the listing, then a delete accepted. *)
(** A refusal with the status 304, and a text. *)
Definition not_modified : outcome :=
  Responded {| ok := false; status := 304; json := inl NonError;
               text := inr (str "not modified") |}.

Definition refused_then_listed : upstream :=
  λ n, match n with
       | 0%nat => Responded {| ok := false; status := 404; json := inl NonError;
                               text := inr (str "not found") |}
       | 1%nat => Responded {| ok := true; status := 200;
                               json := inr (JSArray [JSString (str "storage/report.pdf")]);
                               text := inr [] |}
       | _ => Responded {| ok := true; status := 200; json := inr JSNull;
                           text := inr [] |}
       end.

(** A listing wrapped in an object, as the answer to every call. *)
Definition wrapped_listing : response :=
  {| ok := true; status := 200;
     json := inr (JSObject [(str "documents",
                             JSArray [JSString (str "storage/a.txt");
                                      JSString (str "b.pdf")])]);
     text := inr [] |}.

Definition always_listed : upstream := λ _, Responded wrapped_listing.

Definition deleted (count : nat) (ragId now : jsstring) : http_response :=
  respond (Deleted (str "Documents deleted successfully") count ragId now).

Definition DELETE (LYZR_API_KEY now : jsstring) (up : upstream)
    (request : exn + DELETE_body) : http_response * list call :=
  handle (
    if bool_decide (LYZR_API_KEY = []) then ret (missing_key true) else
    let* body := settle request in
    match present (delete_ragId body), documentNames body with
    | Some ragId, Some names =>
        let* id := encodeURIComponent ragId in
        let* response := fetch up (DeleteDocuments id names) in
        if ok response then ret (deleted (length names) ragId now) else
        let* id := encodeURIComponent ragId in
        let* listResponse := fetch up (ListDocuments id) in
        let first_failure :=
          let* errorText := settle (text response) in
          NextResponse_json
            (upstream_failure (str "Failed to delete documents: ")
               (status response) errorText) in
        if ok listResponse then
          let* listData := settle (json listResponse) in
          let* allPaths := settle (listed listData) in
          let* paths := settle (fullPaths names allPaths) in
          match paths with
          | [] => first_failure
          | _ =>
              let* id := encodeURIComponent ragId in
              let* retryResponse := fetch up (DeleteDocuments id paths) in
              if ok retryResponse then ret (deleted (length paths) ragId now) else
              let* retryErrorText := settle (text retryResponse) in
              NextResponse_json
                (upstream_failure (str "Failed to delete documents: ")
                   (status retryResponse) retryErrorText)
          end
        else first_failure
    | _, _ => ret (bad_request (str "ragId and documentNames array are required"))
    end).

End Route.

(** *** The first route file ([src/unnamed/part_000]) *)

Module Part000.
Import JS Route.

Definition trainFormData (file : File) : train_form :=
  {| form_file := file_bytes file;
     form_file_type := file_type file;
     form_file_name := file_name file;
     data_parser := str "auto";
     chunk_size := str "2000";
     chunk_overlap := str "200";
     extra_info := str "{}" |}.

Definition upload (now : jsstring) (up : upstream)
    (form : exn + option jsstring * option File) : M http_response :=
  let* fields := settle form in
  match present fields.1, fields.2 with
  | Some ragId, Some file =>
      match FILE_TYPE_MAP_at (file_type file) with
      | None =>
          ret (bad_request (str "Unsupported file type: " ++ file_type file
                              ++ str ". Supported: PDF, DOCX, TXT"))
      | Some fileType =>
          let* id := encodeURIComponent ragId in
          let* trainResponse := fetch up (Train fileType id (trainFormData file)) in
          if negb (ok trainResponse) then
            let* errorText := settle (text trainResponse) in
            NextResponse_json
              (upstream_failure (str "Failed to train document: ")
                 (status trainResponse) errorText)
          else
            let* trainData := settle (json trainResponse) in
            match get trainData (str "document_count") with
            | None =>
                settle (inl (Error_ (str
                  "Cannot read properties of null (reading 'document_count')")))
            | Some _ =>
                ret (trained_response file fileType (document_count trainData)
                       ragId now)
            end
      end
  | _, _ => ret (bad_request (str "ragId and file are required"))
  end.

Definition POST (LYZR_API_KEY now : jsstring) (up : upstream)
    (request : POST_request) : http_response * list call :=
  handle (
    if bool_decide (LYZR_API_KEY = []) then ret (missing_key true) else
    match request with
    | ListRequest body => list_flow now up body
    | UploadRequest form => upload now up form
    end).

Definition DELETE := Route.DELETE.

End Part000.

(** *** The second route file ([src/unnamed/part_001]) *)

Module Part001.
Import JS Route.

Definition running (now : jsstring) : http_response :=
  respond (Running (str "RAG Knowledge Base API is running") now).

Definition GET (LYZR_API_KEY now : jsstring) (up : upstream)
    (ragId : option jsstring) : http_response * list call :=
  handle (
    if bool_decide (LYZR_API_KEY = []) then ret (missing_key false) else
    match present ragId with
    | Some ragId =>
        let* id := encodeURIComponent ragId in
        let* response := fetch up (ListDocuments id) in
        if ok response then
          let* data := settle (json response) in
          let* documents := settle (documents_of data) in
          ret (respond (Documents documents ragId now))
        else ret (running now)
    | None => ret (running now)
    end).

Definition parsers : list jsstring := [str "auto"; str "llmsherpa"; str "none"].

(** [file.type || fallback] *)
Definition type_or (file : File) (fallback : jsstring) : jsstring :=
  if bool_decide (file_type file = []) then fallback else file_type file.

Definition buildTrainForm (file : File) (fileBytes : list N) (parser : jsstring)
  : train_form :=
  {| form_file := fileBytes;
     form_file_type := type_or file (str "application/octet-stream");
     form_file_name := file_name file;
     data_parser := parser;
     chunk_size := str "2000";
     chunk_overlap := str "200";
     extra_info := str "{}" |}.

(** The loop over [parsers]: the state is [trainData] and [lastTrainError];
    [break] leaves with the decoded body. *)
Fixpoint train_loop (up : upstream) (train : jsstring → call)
    (parsers : list jsstring) (trainData : value) (lastTrainError : jsstring)
  : M (value * jsstring) :=
  match parsers with
  | [] => ret (trainData, lastTrainError)
  | parser :: rest =>
      let* attempt :=
        try_ (let* resp := fetch up (train parser) in
              if ok resp then
                let* data := settle (json resp) in ret (inl data)
              else
                let* errorText := settle (text resp) in ret (inr errorText)) in
      match attempt with
      | inr (inl data) => ret (data, lastTrainError)
      | inr (inr errorText) => train_loop up train rest trainData errorText
      | inl e =>
          train_loop up train rest trainData
            (message_or e (str "Network error during upload"))
      end
  end.

(** [FILE_TYPE_MAP[file.type]], then the extension of the file name. *)
Definition resolve_type (file : File) : option jsstring :=
  match FILE_TYPE_MAP_at (file_type file) with
  | Some fileType => Some fileType
  | None =>
      let ext := toLowerCase (pop (split_on 46 (file_name file))) in
      if bool_decide (ext = str "pdf") then Some (str "pdf")
      else if bool_decide (ext = str "docx") then Some (str "docx")
      else if bool_decide (ext = str "txt") then Some (str "txt")
      else None
  end.

Definition all_parsers_failed (lastTrainError : jsstring) : http_response :=
  {| http_status := 500;
     http_body := Failure
       (str "Failed to train document after trying multiple parsers")
       (Some lastTrainError) |}.

Definition upload (now : jsstring) (up : upstream)
    (form : exn + option jsstring * option File) : M http_response :=
  let* fields := settle form in
  match present fields.1, fields.2 with
  | Some ragId, Some file =>
      match resolve_type file with
      | None =>
          ret (bad_request (str "Unsupported file type: "
                              ++ type_or file (str "unknown")
                              ++ str ". Supported: PDF, DOCX, TXT"))
      | Some fileType =>
          let* id := encodeURIComponent ragId in
          let fileBytes := file_bytes file in
          let train parser := Train fileType id (buildTrainForm file fileBytes parser) in
          let* final := train_loop up train parsers JSNull [] in
          let '(trainData, lastTrainError) := final in
          if negb (truthy trainData) then ret (all_parsers_failed lastTrainError)
          else
            ret (trained_response file fileType (document_count trainData)
                   ragId now)
      end
  | _, _ => ret (bad_request (str "ragId and file are required"))
  end.

Definition POST (LYZR_API_KEY now : jsstring) (up : upstream)
    (request : POST_request) : http_response * list call :=
  handle (
    if bool_decide (LYZR_API_KEY = []) then ret (missing_key true) else
    match request with
    | ListRequest body => list_flow now up body
    | UploadRequest form => upload now up form
    end).

Definition DELETE := Route.DELETE.

(** *** Outcomes of a train attempt, as the loop tells them apart

    An attempt fails when [fetch] rejects, when the status is no success, or
    when the body of a success cannot be decoded; the text kept in
    [lastTrainError] is then [attempt_error]. It succeeds with the decoded
    body otherwise. *)
Definition attempt_failed (o : outcome) : bool :=
  match o with
  | Rejected _ => true
  | Responded r =>
      if ok r then match json r with inl _ => true | inr _ => false end
      else true
  end.

Definition attempt_error (o : outcome) : jsstring :=
  let network e := message_or e (str "Network error during upload") in
  match o with
  | Rejected e => network e
  | Responded r =>
      if ok r then match json r with inl e => network e | inr _ => [] end
      else match text r with inl e => network e | inr t => t end
  end.

Definition attempt_succeeded (o : outcome) : option value :=
  match o with
  | Rejected _ => None
  | Responded r =>
      if ok r then match json r with inl _ => None | inr data => Some data end
      else None
  end.

(** A script of three attempts: two failures with status 422, then a
    success. *)
Definition unprocessable : outcome :=
  Responded {| ok := false; status := 422; json := inl NonError;
               text := inr (str "unparsable") |}.

Definition trained : outcome :=
  Responded {| ok := true; status := 200;
               json := inr (JSObject [(str "document_count", JSNumber (Num 4 0))]);
               text := inr [] |}.

Definition fail_fail_succeed : upstream :=
  λ n, match n with
       | 0%nat | 1%nat => unprocessable
       | _ => trained
       end.

Definition always_unprocessable : upstream := λ _, unprocessable.

(** A success whose body is the JSON text [null], and one whose body cannot
    be decoded. *)
Definition trained_null : outcome :=
  Responded {| ok := true; status := 200; json := inr JSNull;
               text := inr (str "null") |}.

Definition trained_undecodable : outcome :=
  Responded {| ok := true; status := 200;
               json := inl (Error_ (str "Unexpected end of JSON input"));
               text := inr [] |}.



Definition report_pdf : File :=
  {| file_name := str "report.pdf"; file_type := str "application/pdf";
     file_bytes := [37; 80; 68; 70]%N |}.

End Part001.

(** ** The exchange with the agent ([handleSend] in [src/app/page.tsx])

    The file holds two texts of the page; this is [handleSend] of the first,
    the one that calls [deepExtractResponse]. What it appends for the agent
    once [callAIAgent] has settled: the message, and the audit entry when
    there is one. The ids and the time
    stamps of the records, drawn at random and from the clock, are left out;
    [extractText] and the message of the TypeError that the normalizer may
    raise come from outside this file and are parameters. *)

Module Chat.
Import JS Normalizer.

Record AuditEntry := {
  query : jsstring;
  responseStatus : jsstring;
  domainsAccessed : list jsstring;
  audit_confidence : jsstring;
  sessionId : jsstring;
  fullResponse : value;
  sourcesConsulted : list jsstring;
  audit_flags : list jsstring
}.

(** The agent's [ChatMessage]: its content and its [parsedResponse]. *)
Record AgentMessage := {
  content : value;
  parsedResponse : option ParsedResponse
}.

Definition unable : jsstring :=
  str "I was unable to retrieve relevant information for your query. Please ensure knowledge base documents have been uploaded, or try rephrasing your question.".

Definition error_content (e : Route.exn) : jsstring :=
  str "An error occurred while processing your query: "
  ++ Route.message_or e (str "Unknown error") ++ str ". Please try again.".

Section handleSend.

Variable extractText : value → Route.exn + value.
Variable raised : value → Route.exn.

(** [finalAnswer], from the extracted answer down to the fixed text. *)
Definition final_answer (result : value) (extracted : ParsedResponse)
  : Route.exn + value :=
  if truthy (answer extracted) then inr (answer extracted)
  else match get result (str "response") with
       | None => inl (raised result)
       | Some response =>
           if truthy response then
             match extractText response with
             | inl e => inl e
             | inr text => inr (or_else text (JSString unable))
             end
           else inr (JSString unable)
       end.

(** The body of the [try]. *)
Definition answer_to (msg session : jsstring) (result : value)
  : Route.exn + AgentMessage * AuditEntry :=
  match deepExtractResponse result with
  | None => inl (raised result)
  | Some extracted =>
      match final_answer result extracted with
      | inl e => inl e
      | inr finalAnswer =>
          inr ({| content := finalAnswer;
                  parsedResponse := Some
                    {| answer := finalAnswer;
                       sources_consulted := sources_consulted extracted;
                       compliance_status := compliance_status extracted;
                       domains_accessed := domains_accessed extracted;
                       confidence := confidence extracted;
                       flags := flags extracted |} |},
               {| query := msg;
                  responseStatus := compliance_status extracted;
                  domainsAccessed := domains_accessed extracted;
                  audit_confidence := confidence extracted;
                  sessionId := session;
                  fullResponse := or_else (answer extracted) finalAnswer;
                  sourcesConsulted := sources_consulted extracted;
                  audit_flags := flags extracted |})
      end
  end.

(** The [try] with its [catch]: the agent message appended, and the audit
    entry appended with it, if any. [settled] is how the promise of
    [callAIAgent] settled. *)
Definition reply (msg session : jsstring) (settled : Route.exn + value)
  : AgentMessage * option AuditEntry :=
  match match settled with
        | inl e => inl e
        | inr result => answer_to msg session result
        end with
  | inr (agentMsg, auditEntry) => (agentMsg, Some auditEntry)
  | inl e => ({| content := JSString (error_content e); parsedResponse := None |},
              None)
  end.

End handleSend.

End Chat.

(** * Properties *)

(** ** Lower-casing twice is lower-casing once *)

Module JSFacts.
Import JS.

Lemma in_run_capitals c first last step image :
  step ≠ 0%N → in_run c (first, last, step, image) = true →
  c ∈ capitals (first, last, step, image).
Proof.
  intros Hstep H. unfold in_run in H.
  apply andb_prop in H as [H Hmod]. apply andb_prop in H as [Hlo Hhi].
  apply N.leb_le in Hlo, Hhi. apply N.eqb_eq in Hmod.
  unfold capitals. apply list_elem_of_fmap.
  exists (N.to_nat ((c - first) / step)). split.
  - rewrite N2Nat.id.
    pose proof (N.div_mod (c - first) step Hstep) as Hdm.
    rewrite Hmod, N.add_0_r in Hdm. lia.
  - apply elem_of_seq. split; [apply Nat.le_0_l|]. simpl.
    assert ((c - first) / step <= (last - first) / step)%N as Hle
      by (apply N.Div0.div_le_mono; lia).
    revert Hle. generalize ((c - first) / step)%N ((last - first) / step)%N.
    intros a b Hle. lia.
Qed.

Lemma steps_positive :
  forallb (λ run : N * N * N * N, negb (run.1.2 =? 0)%N) lower_runs = true.
Proof. vm_compute. reflexivity. Qed.

Lemma capitals_checked :
  forallb (λ run, forallb capital_checked (capitals run)) lower_runs = true.
Proof. vm_compute. reflexivity. Qed.

Lemma capital_of_run c run :
  List.find (in_run c) lower_runs = Some run → capital_checked c = true.
Proof.
  intros [Hin Hc]%find_some.
  pose proof (proj1 (forallb_forall _ _) steps_positive run Hin) as Hstep.
  pose proof (proj1 (forallb_forall _ _) capitals_checked run Hin) as Hall.
  destruct run as [[[first last] step] image]. simpl in Hstep.
  apply negb_true_iff, N.eqb_neq in Hstep.
  apply (proj1 (forallb_forall _ _) Hall).
  apply list_elem_of_In. by apply in_run_capitals.
Qed.

(** What a code point becomes is settled: lower-casing leaves it as it is. *)
Lemma lower_point_settled c : Forall (λ o, settled o = true) (lower_point c).
Proof.
  unfold lower_point. destruct (c =? 304)%N eqn:E.
  { repeat constructor. }
  constructor; [|constructor]. unfold simple_lower.
  destruct (List.find (in_run c) lower_runs) as [[[[first last] step] image]|] eqn:Hf.
  - pose proof (capital_of_run _ _ Hf) as Hc.
    unfold capital_checked, simple_lower in Hc. rewrite Hf in Hc.
    by repeat (apply andb_prop in Hc as [Hc _]).
  - unfold settled, lower_point, simple_lower. rewrite E, Hf.
    by apply bool_decide_eq_true.
Qed.

Lemma lower_point_surrogate c :
  if surrogate c then lower_point c = [c]
  else Forall (λ o, surrogate o = false) (lower_point c).
Proof.
  unfold lower_point. destruct (c =? 304)%N eqn:E.
  { apply N.eqb_eq in E as ->. simpl. repeat constructor. }
  unfold simple_lower.
  destruct (List.find (in_run c) lower_runs) as [[[[first last] step] image]|] eqn:Hf.
  - pose proof (capital_of_run _ _ Hf) as Hk.
    unfold capital_checked, simple_lower in Hk. rewrite Hf in Hk.
    apply andb_prop in Hk as [Hk _].
    apply andb_prop in Hk as [Hk Hc]. apply andb_prop in Hk as [_ Ho].
    apply negb_true_iff in Hc, Ho. rewrite Hc. by repeat constructor.
  - destruct (surrogate c) eqn:Hc; [done|]. by repeat constructor.
Qed.

Lemma settled_not_sigma c : settled c = true → (c =? 931)%N = false.
Proof.
  intros H. destruct (c =? 931)%N eqn:E; [|done].
  apply N.eqb_eq in E as ->. vm_compute in H. discriminate.
Qed.

Lemma lower_points_settled l : ∀ before,
  Forall (λ o, settled o = true) (lower_points before l).
Proof.
  induction l as [|c l IH]; intros before; simpl; [constructor|].
  apply Forall_app. split; [|apply IH].
  destruct (c =? 931)%N; [|apply lower_point_settled].
  destruct (cased_next before && negb (cased_next l)); by repeat constructor.
Qed.

Lemma lower_points_of_settled l : ∀ before,
  Forall (λ o, settled o = true) l → lower_points before l = l.
Proof.
  induction l as [|c l IH]; intros before Hl; [done|].
  apply Forall_cons in Hl as [Hc Hl]. simpl.
  rewrite (settled_not_sigma _ Hc), (IH _ Hl).
  apply bool_decide_eq_true in Hc. by rewrite Hc.
Qed.

(** Reading the code points of a text written from code points. *)
Lemma units_of_pair c :
  (65536 <= c)%N → (c < 1114112)%N →
  ∃ h l, units_of c = [h; l] ∧ lead_surrogate h = true
         ∧ trail_surrogate l = true
         ∧ (65536 + (h - 55296) * 1024 + (l - 56320))%N = c.
Proof.
  intros Hlo Hhi. unfold units_of.
  rewrite (proj2 (N.leb_le _ _) Hlo), (proj2 (N.ltb_lt _ _) Hhi). simpl.
  eexists _, _. split; [done|].
  assert ((c - 65536) / 1024 < 1024)%N as Hq
    by (apply N.Div0.div_lt_upper_bound; lia).
  assert ((c - 65536) mod 1024 < 1024)%N as Hr by (apply N.mod_lt; lia).
  pose proof (N.div_mod (c - 65536) 1024 ltac:(lia)) as Hdm.
  revert Hq Hr Hdm.
  generalize ((c - 65536) / 1024)%N ((c - 65536) mod 1024)%N.
  intros q r Hq Hr Hdm.
  unfold lead_surrogate, trail_surrogate.
  split; [apply andb_true_intro; split; apply N.leb_le; lia|].
  split; [apply andb_true_intro; split; apply N.leb_le; lia|]. lia.
Qed.

Lemma units_of_single c :
  ((65536 <=? c) && (c <? 1114112))%N = false → units_of c = [c].
Proof. intros H. unfold units_of. by rewrite H. Qed.

Lemma from_code_points_cons c l :
  from_code_points (c :: l) = units_of c ++ from_code_points l.
Proof. done. Qed.

Lemma starts_trail_from l :
  starts_trail (from_code_points l) = starts_trail l.
Proof.
  destruct l as [|c l]; [done|]. rewrite from_code_points_cons.
  destruct ((65536 <=? c) && (c <? 1114112))%N eqn:E.
  - apply andb_prop in E as [Hlo Hhi]. apply N.leb_le in Hlo.
    apply N.ltb_lt in Hhi.
    destruct (units_of_pair c Hlo Hhi) as (h & lw & -> & Hh & _ & _). simpl.
    unfold lead_surrogate, trail_surrogate in *.
    apply andb_prop in Hh as [H1 H2]. apply N.leb_le in H1, H2.
    transitivity false; [|symmetry]; apply andb_false_iff.
    + left. apply N.leb_gt. lia.
    + right. apply N.leb_gt. lia.
  - by rewrite (units_of_single _ E).
Qed.

Lemma code_points_single c s :
  lead_surrogate c && starts_trail s = false →
  code_points (c :: s) = c :: code_points s.
Proof.
  destruct s as [|l rest]; [done|]. simpl. by intros ->.
Qed.

Lemma code_points_from l :
  well_paired l = true → code_points (from_code_points l) = l.
Proof.
  induction l as [|c l IH]; [done|]. intros Hl.
  assert (well_paired l = true ∧ lead_surrogate c && starts_trail l = false)
    as [Hl' Hc].
  { destruct l as [|c' l]; [by rewrite andb_false_r|]. simpl in Hl.
    apply andb_prop in Hl as [H1 H2]. split; [done|].
    by apply negb_true_iff in H1. }
  rewrite from_code_points_cons.
  destruct ((65536 <=? c) && (c <? 1114112))%N eqn:E.
  - apply andb_prop in E as [Hlo Hhi]. apply N.leb_le in Hlo.
    apply N.ltb_lt in Hhi.
    destruct (units_of_pair c Hlo Hhi) as (h & lw & -> & Hh & Hlw & Heq).
    simpl. rewrite Hh, Hlw. simpl. rewrite Heq. f_equal. by apply IH.
  - rewrite (units_of_single _ E). simpl app.
    rewrite code_points_single; [by rewrite IH|].
    by rewrite starts_trail_from.
Qed.

Lemma code_points_pair h l rest :
  code_points (h :: l :: rest)
  = if lead_surrogate h && trail_surrogate l
    then (65536 + (h - 55296) * 1024 + (l - 56320))%N :: code_points rest
    else h :: code_points (l :: rest).
Proof. done. Qed.

Lemma well_paired_cons c l :
  well_paired (c :: l)
  = negb (lead_surrogate c && starts_trail l) && well_paired l.
Proof. destruct l; [by rewrite andb_false_r|done]. Qed.

Lemma joined_not_surrogate h l :
  lead_surrogate h = true → trail_surrogate l = true →
  surrogate (65536 + (h - 55296) * 1024 + (l - 56320))%N = false.
Proof.
  unfold surrogate, lead_surrogate, trail_surrogate.
  intros [H1 H2]%andb_prop [H3 H4]%andb_prop.
  apply N.leb_le in H1, H2, H3, H4.
  apply orb_false_iff. split; apply andb_false_iff; right; apply N.leb_gt; lia.
Qed.

Lemma code_points_paired_aux n : ∀ s, (length s ≤ n)%nat →
  well_paired (code_points s) = true
  ∧ (starts_trail (code_points s) = true → starts_trail s = true).
Proof.
  induction n as [|n IH]; intros s Hn.
  { destruct s; [done|simpl in Hn; lia]. }
  destruct s as [|h [|l rest]]; [done|done|].
  simpl in Hn. rewrite code_points_pair.
  destruct (lead_surrogate h && trail_surrogate l) eqn:E.
  - destruct (IH rest ltac:(lia)) as [Hw Hs].
    apply andb_prop in E as [Hh Hl].
    pose proof (joined_not_surrogate h l Hh Hl) as Hj.
    apply orb_false_iff in Hj as [Hj1 Hj2].
    rewrite well_paired_cons, Hj1, Hw. split; [done|].
    cbn [starts_trail]. congruence.
  - destruct (IH (l :: rest) ltac:(simpl; lia)) as [Hw Hs].
    rewrite well_paired_cons, Hw, andb_true_r. split; [|done].
    apply negb_true_iff.
    destruct (lead_surrogate h) eqn:Hh; [|done]. simpl in E. simpl.
    destruct (starts_trail (code_points (l :: rest))) eqn:Hc0; [|done].
    specialize (Hs eq_refl). simpl in Hs. congruence.
Qed.

Lemma code_points_paired s : well_paired (code_points s) = true.
Proof. by apply (code_points_paired_aux (length s)). Qed.

Lemma sigma_not_surrogate c : (c =? 931)%N = true → surrogate c = false.
Proof. intros ->%N.eqb_eq. done. Qed.

Lemma lower_points_paired l : ∀ before,
  well_paired l = true →
  well_paired (lower_points before l) = true
  ∧ (starts_trail (lower_points before l) = true → starts_trail l = true).
Proof.
  induction l as [|c l IH]; intros before Hl; [done|].
  rewrite well_paired_cons in Hl. apply andb_prop in Hl as [Hc Hl].
  apply negb_true_iff in Hc.
  destruct (IH (c :: before) Hl) as [Hw Hs]. simpl lower_points.
  set (out := lower_points (c :: before) l) in *.
  assert (Hone : ∀ o, surrogate o = false →
            well_paired (o :: out) = true
            ∧ (starts_trail (o :: out) = true → starts_trail (c :: l) = true)).
  { intros o Ho. apply orb_false_iff in Ho as [Ho1 Ho2].
    rewrite well_paired_cons, Ho1, Hw. simpl. split; [done|]. congruence. }
  destruct (c =? 931)%N eqn:Hsig.
  { simpl app. destruct (cased_next before && negb (cased_next l)); by apply Hone. }
  pose proof (lower_point_surrogate c) as Hsur.
  destruct (surrogate c) eqn:Hcs.
  - rewrite Hsur. simpl app. rewrite well_paired_cons, Hw, andb_true_r.
    split; [|done]. apply negb_true_iff.
    destruct (lead_surrogate c) eqn:Hlead; [|done]. simpl in *.
    destruct (starts_trail out) eqn:Hout; [|done].
    specialize (Hs eq_refl). congruence.
  - unfold lower_point in *. destruct (c =? 304)%N.
    + simpl app. rewrite well_paired_cons.
      destruct (Hone 775%N eq_refl) as [H1 _]. rewrite H1. split; done.
    + apply Forall_cons in Hsur as [Hsur _]. simpl app. by apply Hone.
Qed.

Lemma toLowerCase_idempotent s : toLowerCase (toLowerCase s) = toLowerCase s.
Proof.
  unfold toLowerCase.
  rewrite code_points_from
    by (apply lower_points_paired, code_points_paired).
  by rewrite lower_points_of_settled by apply lower_points_settled.
Qed.

End JSFacts.

(** ** The response normalizer *)

(** Closed statements are settled by running the definitions. *)
Ltac by_evaluation := vm_compute; reflexivity.

Module NormalizerFacts.
Import JS Normalizer.

#[local] Arguments adopt_text : simpl never.
#[local] Arguments safeParseResult : simpl never.
#[local] Arguments build : simpl never.
#[local] Arguments str : simpl never.
#[local] Opaque textKeys.

Lemma truthy_not_nullish v : truthy v = true → nullish v = false.
Proof. by destruct v. Qed.

Lemma get_prop v k : nullish v = false → get v k = Some (prop v k).
Proof. by destruct v. Qed.

Lemma get_truthy v k : truthy v = true → get v k = Some (prop v k).
Proof. intros H. by apply get_prop, truthy_not_nullish. Qed.

Lemma safeParseResult_parsed v : safeParseResult v = Some (parsed v).
Proof.
  unfold parsed, safeParseResult.
  destruct (truthy v) eqn:Hv; [|done].
  destruct v as [| |b|n|s|items|ps]; simpl in *; try done.
  - by destruct (JSON_parse s).
  - destruct (lookup_prop (str "answer") ps) as [| | | |t| |]; simpl; try done.
    destruct (startsWith t (str "{")); [|done]. by destruct (JSON_parse t).
Qed.

Lemma adopt_text_cons k keys d :
  adopt_text (k :: keys) d =
    x ← get d k;
    if truthy x && is_string x then assign_answer d x else adopt_text keys d.
Proof. done. Qed.

Lemma lacks_answer_eq d : lacks_answer d = Some (negb (has_answer d)).
Proof.
  unfold lacks_answer, has_answer.
  destruct (truthy d) eqn:Hd; [|done]. simpl.
  by rewrite (get_truthy _ _ Hd).
Qed.

Lemma lookup_obj_set k v ps : lookup_prop k (obj_set k v ps) = v.
Proof.
  induction ps as [|[k' v'] ps IH]; simpl.
  - by rewrite bool_decide_eq_true_2.
  - destruct (bool_decide (k' = k)) eqn:E; simpl.
    + by rewrite bool_decide_eq_true_2.
    + by rewrite E.
Qed.

Lemma has_answer_truthy d : has_answer d = true → truthy d = true.
Proof. unfold has_answer. by intros [? _]%andb_prop. Qed.

Lemma truthy_prop_object d k :
  truthy (prop d k) = true → ∃ ps, d = JSObject ps.
Proof. destruct d; try done. eauto. Qed.

Lemma with_answer_has_answer x :
  truthy x = true →
  has_answer (with_answer x) = true ∧ prop (with_answer x) (str "answer") = x.
Proof.
  intros Hx. assert (E : prop (with_answer x) (str "answer") = x) by reflexivity.
  unfold has_answer. by rewrite E, Hx.
Qed.

Lemma assign_answer_has_answer d x d' :
  assign_answer d x = Some d' → truthy x = true →
  has_answer d' = true ∧ prop d' (str "answer") = x.
Proof.
  destruct d; try done. intros [= <-] Hx.
  unfold has_answer, prop. simpl. by rewrite lookup_obj_set, Hx.
Qed.

(** The loop over the alternate keys adopts the first key that holds a
    non-empty string. *)
Lemma adopt_text_find keys d :
  truthy d = true →
  adopt_text keys d =
    match List.find (λ k, truthy (prop d k) && is_string (prop d k)) keys with
    | Some k => assign_answer d (prop d k)
    | None => Some d
    end.
Proof.
  intros Hd. induction keys as [|k keys IH]; [done|].
  rewrite adopt_text_cons, (get_truthy _ _ Hd). simpl.
  by destruct (truthy (prop d k) && is_string (prop d k)).
Qed.

Lemma string_truthy_length m :
  truthy m = true → is_string m = true → length_positive m = true.
Proof. by destruct m. Qed.

(** The paths under [response]: what [from_response] leaves in [data]. *)
Lemma has_answer_split d :
  has_answer d = true → truthy d = true ∧ truthy (prop d (str "answer")) = true.
Proof. unfold has_answer. by intros ?%andb_prop. Qed.

Lemma truthy_prop_has_answer d :
  truthy (prop d (str "answer")) = true → has_answer d = true.
Proof.
  intros H. destruct (truthy_prop_object _ _ H) as [ps ->].
  unfold has_answer. by rewrite H.
Qed.

Lemma from_response_tail d :
  (if truthy d then get d (str "answer") else Some JSUndefined)
    ≫= (λ a, if truthy d && negb (truthy a) then adopt_text textKeys d
             else Some d)
  = if truthy d && negb (has_answer d) then keys_tried d else Some d.
Proof.
  unfold has_answer, keys_tried. destruct (truthy d) eqn:Hd; [|done].
  rewrite (get_truthy _ _ Hd). simpl.
  destruct (truthy (prop d (str "answer"))); [done|].
  simpl. by apply adopt_text_find.
Qed.

Lemma from_response_eq r :
  truthy r = true →
  (path_result r = None → nullish (parsed (prop r (str "message"))) = false) →
  from_response r =
    let R := prop r (str "result") in
    let d := text_tried (prop r (str "message"))
               (if truthy R then parsed R else JSNull) in
    if truthy d && negb (has_answer d) then keys_tried d else Some d.
Proof.
  intros Hr Hm. unfold from_response.
  rewrite !(get_truthy r _ Hr). simpl.
  set (R := prop r (str "result")). set (m := prop r (str "message")) in *.
  assert (Hdata : (if truthy R then safeParseResult R else Some JSNull)
                  = Some (if truthy R then parsed R else JSNull)).
  { destruct (truthy R); [apply safeParseResult_parsed|done]. }
  rewrite Hdata. simpl. rewrite lacks_answer_eq. simpl.
  set (d0 := if truthy R then parsed R else JSNull).
  assert (Hmsg :
    ((if negb (has_answer d0) then Some m else Some JSUndefined)
       ≫= λ message,
         (if negb (has_answer d0) && truthy message then
            safeParseResult message
              ≫= λ msgParsed, get msgParsed (str "answer")
              ≫= λ a, if truthy a then Some msgParsed
                      else if is_string message && length_positive message
                           then Some (with_answer message) else Some d0
          else Some d0)
         ≫= λ data0,
           (if truthy data0 then get data0 (str "answer") else Some JSUndefined)
             ≫= λ a, if truthy data0 && negb (truthy a)
                     then adopt_text textKeys data0 else Some data0)
    = (if truthy (text_tried m d0) && negb (has_answer (text_tried m d0))
       then keys_tried (text_tried m d0) else Some (text_tried m d0))).
  { rewrite <- from_response_tail. unfold text_tried.
    destruct (has_answer d0) eqn:Hd0; simpl; [done|].
    destruct (truthy m) eqn:Htm; simpl; [|done].
    assert (Hnone : path_result r = None).
    { unfold path_result. fold R. subst d0.
      destruct (truthy R); [by rewrite Hd0|done]. }
    rewrite safeParseResult_parsed. simpl.
    rewrite (get_prop _ _ (Hm Hnone)). simpl.
    destruct (truthy (prop (parsed m) (str "answer"))); simpl; [done|].
    destruct (is_string m) eqn:Hs; simpl; [|done].
    by rewrite (string_truthy_length _ Htm Hs). }
  exact Hmsg.
Qed.

Lemma from_top_level_eq api d :
  truthy api = true → from_top_level api d = Some (top_level_tried api d).
Proof.
  intros Hapi. unfold from_top_level, top_level_tried.
  rewrite lacks_answer_eq. simpl. destruct (has_answer d); simpl; [done|].
  rewrite !(get_truthy api _ Hapi). simpl.
  destruct (truthy (prop api (str "answer"))); [apply safeParseResult_parsed|].
  simpl. destruct (truthy (prop api (str "text"))); [done|]. simpl.
  by destruct (truthy (prop api (str "message"))
               && is_string (prop api (str "message"))).
Qed.

Lemma from_raw_response_eq api d :
  truthy api = true →
  (has_answer d = false →
   nullish (parsed (prop api (str "raw_response"))) = false) →
  from_raw_response api d = Some (text_tried (prop api (str "raw_response")) d).
Proof.
  intros Hapi Hraw. unfold from_raw_response, text_tried.
  rewrite lacks_answer_eq. simpl. destruct (has_answer d); simpl; [done|].
  rewrite (get_truthy api _ Hapi). simpl.
  destruct (truthy (prop api (str "raw_response"))); simpl; [|done].
  rewrite safeParseResult_parsed. simpl.
  rewrite (get_prop _ _ (Hraw eq_refl)). simpl.
  destruct (truthy (prop (parsed (prop api (str "raw_response"))) (str "answer")));
    [done|].
  by destruct (is_string (prop api (str "raw_response"))).
Qed.

(** A path that resolves gives a candidate with an answer. *)
Lemma path_text_has_answer m c : path_text m = Some c → has_answer c = true.
Proof.
  unfold path_text. destruct (truthy m) eqn:Hm; [|done].
  destruct (truthy (prop (parsed m) (str "answer"))) eqn:Ha.
  - intros [= <-]. by apply truthy_prop_has_answer.
  - destruct (is_string m); [|done]. intros [= <-].
    by apply with_answer_has_answer.
Qed.

Lemma text_tried_path m d :
  has_answer d = false →
  text_tried m d = default d (path_text m).
Proof.
  intros Hd. unfold text_tried, path_text. rewrite Hd. simpl.
  destruct (truthy m); [|done].
  destruct (truthy (prop (parsed m) (str "answer"))); [done|].
  by destruct (is_string m).
Qed.

Lemma text_tried_keep m d : has_answer d = true → text_tried m d = d.
Proof. intros Hd. unfold text_tried. by rewrite Hd. Qed.

Lemma top_level_tried_keep api d :
  has_answer d = true → top_level_tried api d = d.
Proof. intros Hd. unfold top_level_tried. by rewrite Hd. Qed.

Lemma top_level_tried_path api d :
  has_answer d = false →
  match path_top_level api with
  | Some c => top_level_tried api d = c ∧ has_answer c = true
  | None => has_answer (top_level_tried api d) = false
  end.
Proof.
  intros Hd. unfold top_level_tried, path_top_level. rewrite Hd.
  destruct (truthy (prop api (str "answer"))).
  { by destruct (has_answer (parsed api)) eqn:E. }
  destruct (truthy (prop api (str "text"))) eqn:Ht.
  { split; [done|]. by apply with_answer_has_answer. }
  destruct (truthy (prop api (str "message"))) eqn:Hm; simpl; [|done].
  destruct (is_string (prop api (str "message"))); [|done].
  split; [done|]. by apply with_answer_has_answer.
Qed.

(** The three paths under [response], in the order of the code. *)
Lemma from_response_paths r :
  truthy r = true →
  (path_result r = None → nullish (parsed (prop r (str "message"))) = false) →
  match first_some [path_result r; path_message r; path_text_keys r] with
  | Some c => from_response r = Some c ∧ has_answer c = true
  | None => ∃ d, from_response r = Some d ∧ has_answer d = false
  end.
Proof.
  intros Hr Hm. rewrite (from_response_eq _ Hr Hm). simpl.
  unfold path_result, path_message, path_text_keys.
  set (R := prop r (str "result")). set (m := prop r (str "message")).
  destruct (truthy R) eqn:HR; simpl.
  - destruct (has_answer (parsed R)) eqn:Ha; simpl.
    + rewrite (text_tried_keep _ _ Ha), Ha, andb_false_r. done.
    + rewrite (text_tried_path _ _ Ha).
      destruct (path_text m) as [c|] eqn:Hp; simpl.
      * by rewrite (path_text_has_answer _ _ Hp), andb_false_r.
      * rewrite Ha, !andb_true_r. unfold keys_tried.
        destruct (truthy (parsed R)) eqn:Hd; simpl; [|eauto].
        destruct (List.find _ textKeys) as [k|] eqn:Hf; simpl; [|eauto].
        apply find_some in Hf as [_ [Hk _]%andb_prop].
        destruct (truthy_prop_object _ _ Hk) as [ps Hps]. rewrite Hps in *.
        simpl. split; [done|].
        by eapply (assign_answer_has_answer (JSObject ps)).
  - rewrite (text_tried_path m JSNull) by done.
    destruct (path_text m) as [c|] eqn:Hp; simpl.
    + by rewrite (path_text_has_answer _ _ Hp), andb_false_r.
    + eauto.
Qed.

Lemma first_some_app {A} (l1 l2 : list (option A)) :
  first_some (l1 ++ l2) =
    match first_some l1 with
    | Some a => Some a
    | None => first_some l2
    end.
Proof. induction l1 as [|[a|] l1 IH]; simpl; auto. Qed.

Lemma no_path_on_falsy api :
  truthy api = false → first_some (code_order api) = None.
Proof. by destruct api. Qed.

(** The top-level fields and [raw_response], after data without an answer. *)
Lemma later_paths api d0 d :
  truthy api = true →
  (path_top_level api = None →
   nullish (parsed (prop api (str "raw_response"))) = false) →
  has_answer d0 = false →
  first_some [path_top_level api; path_raw_response api] = Some d →
  ∃ d1, from_top_level api d0 = Some d1
        ∧ from_raw_response api d1 = Some d
        ∧ has_answer d = true.
Proof.
  intros Hapi Hraw Hd0 Hd.
  rewrite (from_top_level_eq _ _ Hapi). eexists. split; [done|].
  pose proof (top_level_tried_path api d0 Hd0) as Htop. simpl in Hd.
  rewrite (from_raw_response_eq _ _ Hapi).
  2:{ intros Hnone. apply Hraw.
      destruct (path_top_level api) as [c|]; [|done].
      destruct Htop as [E Hc]. rewrite E in Hnone. congruence. }
  destruct (path_top_level api) as [c|].
  - destruct Htop as [-> Hc]. injection Hd as <-.
    by rewrite (text_tried_keep _ _ Hc).
  - rewrite (text_tried_path _ _ Htop). unfold path_raw_response in Hd.
    destruct (path_text (prop api (str "raw_response"))) as [c|] eqn:Hp; [|done].
    injection Hd as <-. split; [done|]. by eapply path_text_has_answer.
Qed.

Lemma later_paths_keep api d :
  truthy api = true →
  has_answer d = true →
  from_top_level api d = Some d ∧ from_raw_response api d = Some d.
Proof.
  intros Hapi Hd.
  rewrite (from_top_level_eq _ _ Hapi), (top_level_tried_keep _ _ Hd).
  split; [done|]. rewrite (from_raw_response_eq _ _ Hapi) by congruence.
  by rewrite (text_tried_keep _ _ Hd).
Qed.

(** The candidate that the code settles on is the one of the earliest path
    in the order of the code. The two unguarded reads are those of a parsed
    [response.message], made when [response.result] gave no answer, and of a
    parsed [raw_response], made when no earlier path gave one. *)
Lemma chosen_candidate api d :
  first_some (code_order api) = Some d →
  (path_result (prop api (str "response")) = None →
   nullish (parsed (prop (prop api (str "response")) (str "message"))) = false) →
  (first_some (before_raw_response api) = None →
   nullish (parsed (prop api (str "raw_response"))) = false) →
  deepExtractResponse api = build d ∧ has_answer d = true.
Proof.
  intros Hd Hm Hraw.
  destruct (truthy api) eqn:Hapi;
    [|by rewrite (no_path_on_falsy _ Hapi) in Hd].
  unfold deepExtractResponse. rewrite Hapi. simpl.
  rewrite (get_truthy _ _ Hapi). simpl.
  unfold code_order, before_raw_response in Hd. cbv zeta in Hd.
  rewrite <- app_assoc, first_some_app in Hd.
  unfold before_raw_response in Hraw. cbv zeta in Hraw.
  rewrite first_some_app in Hraw.
  set (r := prop api (str "response")) in *.
  assert (Hend : ∀ c, has_answer c = true →
            (if negb (truthy c) then Some defaults else build c) = build c).
  { intros c Hc. by rewrite (has_answer_truthy _ Hc). }
  destruct (truthy r) eqn:Hr.
  - pose proof (from_response_paths r Hr Hm) as Hpaths.
    destruct (first_some [path_result r; path_message r; path_text_keys r])
      as [c|].
    + destruct Hpaths as [-> Hc]. injection Hd as <-. simpl.
      destruct (later_paths_keep api c Hapi Hc) as [H1 H2].
      rewrite H1. simpl. rewrite H2. simpl. by rewrite Hend.
    + destruct Hpaths as (d0 & -> & Hd0). simpl.
      destruct (later_paths api d0 d Hapi) as (d1 & H1 & H2 & Hc);
        [by intros E; apply Hraw; simpl; rewrite E|done..|].
      rewrite H1. simpl. rewrite H2. simpl. by rewrite Hend.
  - simpl in Hd. simpl.
    destruct (later_paths api JSNull d Hapi) as (d1 & H1 & H2 & Hc);
      [by intros E; apply Hraw; simpl; rewrite E|done..|].
    rewrite H1. simpl. rewrite H2. simpl. by rewrite Hend.
Qed.

Lemma or_get_truthy a d k : truthy a = true → or_get a d k = Some a.
Proof. intros H. unfold or_get. by rewrite H. Qed.

Lemma call_toLowerCase_typed x fallback :
  text_or_absent x = true →
  is_Some (call_toLowerCase (or_else x (JSString fallback))).
Proof.
  unfold text_or_absent, or_else. destruct (truthy x); simpl; [|by eauto].
  destruct x; done.
Qed.

(** On a well-typed candidate with an answer, [build] returns, and the
    answer of the record is the answer of the candidate. *)
Lemma build_well_typed d :
  has_answer d = true → well_typed d = true →
  ∃ r, build d = Some r ∧ answer r = prop d (str "answer").
Proof.
  intros [Hd Ha]%has_answer_split Hw. unfold well_typed in Hw.
  apply andb_prop in Hw as [Hw Hfl]. apply andb_prop in Hw as [Hw Hda].
  apply andb_prop in Hw as [Hw Hsc]. apply andb_prop in Hw as [Hcs Hcf].
  apply bool_decide_eq_true_1 in Hfl as [fl Hfl].
  apply bool_decide_eq_true_1 in Hda as [da Hda].
  apply bool_decide_eq_true_1 in Hsc as [sc Hsc].
  destruct (call_toLowerCase_typed _ (str "compliant") Hcs) as [cs Hcs'].
  destruct (call_toLowerCase_typed _ (str "medium") Hcf) as [cf Hcf'].
  unfold build. rewrite !(get_truthy d _ Hd). simpl.
  do 4 (rewrite (or_get_truthy _ _ _ Ha); simpl).
  rewrite Hsc. simpl. rewrite Hcs'. simpl. rewrite Hda. simpl.
  rewrite Hcf'. simpl. rewrite Hfl. simpl.
  eexists. split; [done|]. simpl. unfold or_else. by rewrite Ha.
Qed.

(** C1 (amended). Every payload for which some extraction path yields a
    usable answer, the paths being probed in the order of the code (the
    [answer] of the parsed [response.result], then [response.message], then
    the alternate text keys of the parsed [response.result], then the
    top-level [answer], [text] and [message], then [raw_response]), is given a
    record whose answer is the answer of the earliest such path, and is not
    empty. This holds for payloads on which the function returns: a
    [response.message] that is read, because [response.result] gave no
    answer, does not parse to [null]; a [raw_response] that is read, because
    no earlier path gave an answer, does not parse to [null]; and the chosen
    candidate is well typed. The payload whose [response.result] is the text
    of [{answer: Hi, confidence: HIGH}] yields the answer [Hi] and the
    confidence [high]. *)
Theorem earliest_path_answer :
  (∀ api d,
     first_some (code_order api) = Some d →
     (path_result (prop api (str "response")) = None →
      nullish (parsed (prop (prop api (str "response")) (str "message")))
        = false) →
     (first_some (before_raw_response api) = None →
      nullish (parsed (prop api (str "raw_response"))) = false) →
     well_typed d = true →
     ∃ r, deepExtractResponse api = Some r
          ∧ answer r = prop d (str "answer")
          ∧ truthy (answer r) = true
          ∧ answer r ≠ JSString [])
  ∧ deepExtractResponse
      (JSObject [(str "response",
         JSObject [(str "result",
           JSString (json "{'answer':'Hi','confidence':'HIGH'}"))])])
    = Some {| answer := JSString (str "Hi");
              sources_consulted := [];
              compliance_status := str "compliant";
              domains_accessed := [];
              confidence := str "high";
              flags := [] |}.
Proof.
  split; [|by_evaluation].
  intros api d Hd Hm Hraw Hw.
  destruct (chosen_candidate api d Hd Hm Hraw) as [-> Hc].
  destruct (build_well_typed d Hc Hw) as (r & -> & Hr).
  exists r. split; [done|]. split; [done|].
  apply has_answer_split in Hc as [_ Ha]. rewrite Hr. split; [done|].
  intros E. by rewrite E in Ha.
Qed.

Lemma earliest_path_answer_witness :
  (∃ r, deepExtractResponse keys_and_message = Some r
        ∧ answer r = prop (JSObject [(str "answer", JSString (str "M"))])
                          (str "answer")
        ∧ truthy (answer r) = true
        ∧ answer r ≠ JSString [])
  ∧ (∃ r, deepExtractResponse answer_and_null_message = Some r
          ∧ answer r = prop (JSObject [(str "answer", JSString (str "A"))])
                            (str "answer")
          ∧ truthy (answer r) = true
          ∧ answer r ≠ JSString []).
Proof.
  split.
  - apply (proj1 earliest_path_answer keys_and_message
             (JSObject [(str "answer", JSString (str "M"))]));
      try (intros _); vm_compute; reflexivity.
  - apply (proj1 earliest_path_answer answer_and_null_message
             (JSObject [(str "answer", JSString (str "A"))]));
      [vm_compute; reflexivity
      |intros H; vm_compute in H; discriminate
      |intros H; vm_compute in H; discriminate
      |vm_compute; reflexivity].
Defined.

(** C1 as stated fails: in the order of the specification the first step, on
    [response.result], resolves the alternate key [text] of
    [keys_and_message] to [T], but the code gives [response.message] the
    precedence and answers [M]. *)
Lemma spec_order_counterexample :
  ∃ d r, first_some (spec_order keys_and_message) = Some d
         ∧ prop d (str "answer") = JSString (str "T")
         ∧ deepExtractResponse keys_and_message = Some r
         ∧ answer r = JSString (str "M")
         ∧ answer r ≠ prop d (str "answer").
Proof.
  eexists _, _. split; [by_evaluation|].
  split; [by_evaluation|]. split; [by_evaluation|].
  split; [by_evaluation|]. vm_compute. discriminate.
Qed.

(** C10. A bare string, a number or a boolean given to [deepExtractResponse]
    yields the record of defaults, whose answer is the empty text: a top-level
    string is never taken as the answer. *)
Theorem primitive_payload_gives_defaults :
  (∀ s, deepExtractResponse (JSString s) = Some defaults)
  ∧ (∀ n, deepExtractResponse (JSNumber n) = Some defaults)
  ∧ (∀ b, deepExtractResponse (JSBoolean b) = Some defaults)
  ∧ answer defaults = JSString [].
Proof.
  repeat split; intros x; unfold deepExtractResponse;
    match goal with |- context [truthy ?v] => destruct (truthy v) eqn:E end;
    done.
Qed.

(** C3. On the payload [{ response: { message: "null" } }] the message
    parses to [null], and reading its [answer] raises: the normalizer does
    not return. *)
Theorem null_message_raises :
  JSON_parse (str "null") = Some JSNull
  ∧ deepExtractResponse
      (JSObject [(str "response",
                  JSObject [(str "message", JSString (str "null"))])]) = None.
Proof. split; by_evaluation. Qed.

(** The same happens on [raw_response], and on a status field that is no
    string. *)
Lemma null_raw_response_raises :
  deepExtractResponse
    (JSObject [(str "raw_response", JSString (str "null"))]) = None.
Proof. by_evaluation. Qed.

Lemma numeric_confidence_raises :
  deepExtractResponse
    (JSObject [(str "answer", JSString (str "x"));
               (str "confidence", JSNumber (Num 5 0))]) = None.
Proof. by_evaluation. Qed.

(** C6 (amended). The safe-array coercion. An array each of whose elements
    [String] can convert gives the texts of its elements, as many and in the
    same order; a string that parses to such an array gives the texts of that
    array; a non-empty string that does not parse to an array gives itself as
    the only element; the empty string, and every value that is neither an
    array nor a string, gives the empty array. *)
Theorem safeArray_coercion :
  (∀ items strs,
     mapM String_ items = Some strs →
     safeArray (JSArray items) = Some strs
     ∧ length strs = length items
     ∧ ∀ i x, items !! i = Some x →
         ∃ t, strs !! i = Some t ∧ String_ x = Some t)
  ∧ (∀ s parsed strs,
       JSON_parse s = Some (JSArray parsed) →
       mapM String_ parsed = Some strs →
       safeArray (JSString s) = Some strs)
  ∧ (∀ s, s ≠ [] →
       (∀ parsed, JSON_parse s ≠ Some (JSArray parsed)) →
       safeArray (JSString s) = Some [s])
  ∧ safeArray (JSString []) = Some []
  ∧ (∀ v, (∀ items, v ≠ JSArray items) → (∀ s, v ≠ JSString s) →
       safeArray v = Some []).
Proof.
  split; [|split; [|split; [|split]]].
  - intros items strs H. split; [done|]. split.
    + symmetry. by eapply length_mapM.
    + intros i x Hx. apply mapM_Some_1 in H.
      destruct (Forall2_lookup_l _ _ _ _ _ H Hx) as (t & Ht & Hs). eauto.
  - intros s parsed strs Hp Hs. simpl. by rewrite Hp, Hs.
  - intros s Hne Hp. simpl. rewrite bool_decide_eq_false_2 by done.
    destruct (JSON_parse s) as [[| | | | |parsed|]|] eqn:E; try done.
    by destruct (Hp parsed).
  - by_evaluation.
  - intros v Ha Hs. destruct v as [| | | |s|items|]; try done.
    + by destruct (Hs s).
    + by destruct (Ha items).
Qed.

Lemma safeArray_coercion_witness :
  safeArray (JSArray [JSNumber (Num 7 0); JSString (str "a"); JSNull])
    = Some [str "7"; str "a"; str "null"]
  ∧ safeArray (JSString (json "['x', 2]")) = Some [str "x"; str "2"]
  ∧ safeArray (JSString (str "plain")) = Some [str "plain"]
  ∧ safeArray (JSNumber (Num 7 0)) = Some [].
Proof.
  destruct safeArray_coercion as (Harr & Hparse & Hother & _ & Hrest).
  split; [|split; [|split]].
  - refine (proj1 (Harr _ _ _)). vm_compute; reflexivity.
  - refine (Hparse _ [JSString (str "x"); JSNumber (Num 2 0)] _ _ _);
      vm_compute; reflexivity.
  - apply Hother; [discriminate|]. intros parsed H. vm_compute in H. discriminate.
  - apply Hrest; discriminate.
Defined.

(** C6 as stated fails on an element that [String] cannot convert, an
    object with its own [toString]: the array that holds one raises instead
    of giving texts, and the string that parses to such an array gives itself
    as the only element, not the texts of the array. *)
Lemma safeArray_unconvertible :
  safeArray (JSArray [JSString (str "a");
                      JSObject [(str "toString", JSNull)]]) = None
  ∧ JSON_parse (json "[{'toString':1}]")
    = Some (JSArray [JSObject [(str "toString", JSNumber (Num 1 0))]])
  ∧ safeArray (JSString (json "[{'toString':1}]"))
    = Some [json "[{'toString':1}]"].
Proof. repeat split; by_evaluation. Qed.

End NormalizerFacts.

(** ** The knowledge-base routes *)

Module RouteFacts.
Import JS Route.

#[local] Arguments str : simpl never.

Lemma key_configured (key : jsstring) : key ≠ [] → bool_decide (key = []) = false.
Proof. intros. by apply bool_decide_eq_false_2. Qed.

Lemma present_Some (s : jsstring) : s ≠ [] → present (Some s) = Some s.
Proof. by destruct s. Qed.

(** One turn of the loop over the parsers. *)
Lemma train_loop_failed up train p rest td err log :
  Part001.attempt_failed (up (length log)) = true →
  Part001.train_loop up train (p :: rest) td err log =
    Part001.train_loop up train rest td
      (Part001.attempt_error (up (length log))) (log ++ [train p]).
Proof.
  unfold Part001.attempt_failed, Part001.attempt_error. simpl.
  unfold bind, try_, fetch, settle, ret. simpl.
  destruct (up (length log)) as [r|e]; simpl; [|done].
  destruct (ok r); simpl.
  - by destruct (json r).
  - intros _. by destruct (text r).
Qed.

Lemma train_loop_succeeded up train p rest td err log data :
  Part001.attempt_succeeded (up (length log)) = Some data →
  Part001.train_loop up train (p :: rest) td err log =
    (inr (data, err), log ++ [train p]).
Proof.
  unfold Part001.attempt_succeeded. simpl.
  unfold bind, try_, fetch, settle, ret. simpl.
  destruct (up (length log)) as [r|e]; simpl; [|done].
  destruct (ok r); simpl; [|done].
  destruct (json r); [done|]. by intros [= ->].
Qed.

(** The loop stops at the first attempt that succeeds. *)
Lemma train_loop_first_success up train k : ∀ ps td err log data,
  (k < length ps)%nat →
  (∀ i, (i < k)%nat → Part001.attempt_failed (up (length log + i)%nat) = true) →
  Part001.attempt_succeeded (up (length log + k)%nat) = Some data →
  ∃ e, Part001.train_loop up train ps td err log =
         (inr (data, e), log ++ (train <$> take (S k) ps)).
Proof.
  induction k as [|k IH]; intros [|p ps] td err log data Hk Hfail Hok;
    simpl in Hk; try lia.
  - rewrite Nat.add_0_r in Hok. rewrite (train_loop_succeeded _ _ _ _ _ _ _ _ Hok).
    by eexists.
  - rewrite train_loop_failed.
    2:{ specialize (Hfail 0%nat). rewrite Nat.add_0_r in Hfail. apply Hfail. lia. }
    destruct (IH ps td (Part001.attempt_error (up (length log)))
                (log ++ [train p]) data) as [e He].
    + lia.
    + intros i Hi. rewrite length_app. simpl.
      replace (length log + 1 + i)%nat with (length log + S i)%nat by lia.
      apply Hfail. lia.
    + rewrite length_app. simpl.
      by replace (length log + 1 + k)%nat with (length log + S k)%nat by lia.
    + exists e. rewrite He. by rewrite <- app_assoc.
Qed.

(** When every attempt fails the loop makes them all and keeps the error
    text of the last. *)
Lemma train_loop_all_failed up train : ∀ ps td err log,
  (∀ i, (i < length ps)%nat →
        Part001.attempt_failed (up (length log + i)%nat) = true) →
  Part001.train_loop up train ps td err log =
    (inr (td, match ps with
              | [] => err
              | _ => Part001.attempt_error
                       (up (length log + (length ps - 1))%nat)
              end),
     log ++ (train <$> ps)).
Proof.
  induction ps as [|p ps IH]; intros td err log Hfail.
  - simpl. unfold ret. by rewrite app_nil_r.
  - rewrite train_loop_failed.
    2:{ specialize (Hfail 0%nat). rewrite Nat.add_0_r in Hfail. apply Hfail.
        simpl. lia. }
    rewrite IH.
    2:{ intros i Hi. rewrite length_app. simpl.
        replace (length log + 1 + i)%nat with (length log + S i)%nat by lia.
        apply Hfail. simpl. lia. }
    rewrite length_app. simpl. rewrite <- app_assoc. simpl.
    destruct ps as [|q ps]; simpl.
    + by rewrite Nat.add_0_r.
    + by replace (length log + 1 + (length ps - 0))%nat
        with (length log + S (length ps))%nat by lia.
Qed.

(** The upload of the second route file, once the type is resolved, is the
    loop over the parsers and the report of what it leaves. *)
Lemma upload_runs_loop (key now : jsstring) up (ragId : jsstring) file fileType :
  key ≠ [] → ragId ≠ [] → well_formed ragId = true →
  Part001.resolve_type file = Some fileType →
  Part001.POST key now up (UploadRequest (inr (Some ragId, Some file))) =
    match Part001.train_loop up
            (λ parser, Train fileType ragId
                         (Part001.buildTrainForm file (file_bytes file) parser))
            Part001.parsers JSNull [] [] with
    | (inr (trainData, lastTrainError), log) =>
        (if negb (truthy trainData) then Part001.all_parsers_failed lastTrainError
         else trained_response file fileType (document_count trainData) ragId now,
         log)
    | (inl e, log) =>
        ({| http_status := 500;
            http_body := Failure (message_or e (str "Server error")) None |}, log)
    end.
Proof.
  intros Hkey Hrag Hwf Hty. unfold Part001.POST, handle.
  rewrite (key_configured _ Hkey). unfold Part001.upload.
  unfold bind at 1. unfold settle at 1. cbn [fst snd].
  rewrite (present_Some _ Hrag), Hty.
  unfold bind, encodeURIComponent, ret. rewrite Hwf.
  destruct (Part001.train_loop _ _ _ _ _ _) as [[e|[trainData lastTrainError]] log];
    [done|].
  by destruct (truthy trainData).
Qed.

(** [NextResponse.json] with a status that a response with a body may
    carry. *)
Lemma NextResponse_json_carries r log :
  carries_body (http_status r) = true → NextResponse_json r log = (inr r, log).
Proof.
  unfold carries_body, NextResponse_json. intros H.
  apply andb_prop in H as [H Hnull]. apply andb_prop in H as [Hlo Hhi].
  apply Z.leb_le in Hlo, Hhi. apply negb_true_iff in Hnull.
  rewrite (proj2 (Z.ltb_ge _ _) Hlo), (proj2 (Z.ltb_ge _ _) Hhi), Hnull. done.
Qed.

(** With another status it raises. *)
Lemma NextResponse_json_raises r log :
  carries_body (http_status r) = false →
  ∃ message, NextResponse_json r log = (inl (Error_ message), log).
Proof.
  unfold carries_body, NextResponse_json. intros H.
  destruct (http_status r <? 200) eqn:Hlo; [by eexists|].
  destruct (599 <? http_status r) eqn:Hhi; [by eexists|]. simpl.
  apply Z.ltb_ge in Hlo, Hhi.
  rewrite (proj2 (Z.leb_le _ _) Hlo), (proj2 (Z.leb_le _ _) Hhi) in H.
  simpl in H. apply negb_false_iff in H. rewrite H. by eexists.
Qed.

(** Either way it makes no call. *)
Lemma NextResponse_json_log r log : (NextResponse_json r log).2 = log.
Proof.
  destruct (carries_body (http_status r)) eqn:Hst.
  - by rewrite NextResponse_json_carries.
  - by destruct (NextResponse_json_raises r log Hst) as [m ->].
Qed.

(** The log of a handler that ends in [NextResponse.json]. *)
Lemma handle_NextResponse_json_log r log :
  (match NextResponse_json r log with
   | (inr r', l) => (r', l)
   | (inl e, l) =>
       ({| http_status := 500;
           http_body := Failure (message_or e (str "Server error")) None |}, l)
   end).2 = log.
Proof.
  pose proof (NextResponse_json_log r log) as H.
  by destruct (NextResponse_json r log) as [[e|r'] l].
Qed.

(** An own key of the map is found by the lookup of the code. *)
Lemma FILE_TYPE_MAP_at_own type fileType :
  FILE_TYPE_MAP !! type = Some fileType → FILE_TYPE_MAP_at type = Some fileType.
Proof. unfold FILE_TYPE_MAP_at. by intros ->. Qed.

(** The upload of the first route file, once the type is found, makes one
    call. *)
Lemma single_attempt_calls (key now : jsstring) up (ragId : jsstring) file fileType :
  key ≠ [] → ragId ≠ [] → well_formed ragId = true →
  FILE_TYPE_MAP_at (file_type file) = Some fileType →
  (Part000.POST key now up (UploadRequest (inr (Some ragId, Some file)))).2
    = [Train fileType ragId (Part000.trainFormData file)].
Proof.
  intros Hkey Hrag Hwf Hty. unfold Part000.POST, handle.
  rewrite (key_configured _ Hkey). unfold Part000.upload.
  unfold bind at 1. unfold settle at 1. cbn [fst snd].
  rewrite (present_Some _ Hrag), Hty.
  unfold bind, encodeURIComponent, ret, fetch, settle. rewrite Hwf. simpl.
  destruct (up 0%nat) as [r|e]; [|done].
  destruct (ok r); simpl.
  - destruct (json r) as [e|data]; [done|]. by destruct (get data _).
  - destruct (text r) as [e|t]; [done|]. apply handle_NextResponse_json_log.
Qed.

(** Its answer when the call succeeds with a body that decodes to something
    other than [null]. *)
Lemma single_attempt_trained (key now : jsstring) up (ragId : jsstring) file
    fileType r data :
  key ≠ [] → ragId ≠ [] → well_formed ragId = true →
  FILE_TYPE_MAP_at (file_type file) = Some fileType →
  up 0%nat = Responded r → ok r = true → json r = inr data →
  Normalizer.nullish data = false →
  (Part000.POST key now up (UploadRequest (inr (Some ragId, Some file)))).1
    = trained_response file fileType (document_count data) ragId now.
Proof.
  intros Hkey Hrag Hwf Hty Hup Hok Hjson Hdata. unfold Part000.POST, handle.
  rewrite (key_configured _ Hkey). unfold Part000.upload.
  unfold bind at 1. unfold settle at 1. cbn [fst snd].
  rewrite (present_Some _ Hrag), Hty.
  unfold bind, encodeURIComponent, ret, fetch, settle. rewrite Hwf. simpl.
  rewrite Hup, Hok. simpl. rewrite Hjson. by destruct data.
Qed.

(** Its answer when the call is refused with a text that can be read and a
    status that a response with a body may carry. *)
Lemma single_attempt_refused (key now : jsstring) up (ragId : jsstring) file
    fileType r details :
  key ≠ [] → ragId ≠ [] → well_formed ragId = true →
  FILE_TYPE_MAP_at (file_type file) = Some fileType →
  up 0%nat = Responded r → ok r = false → text r = inr details →
  carries_body (status r) = true →
  (Part000.POST key now up (UploadRequest (inr (Some ragId, Some file)))).1
    = upstream_failure (str "Failed to train document: ") (status r) details.
Proof.
  intros Hkey Hrag Hwf Hty Hup Hok Htext Hst. unfold Part000.POST, handle.
  rewrite (key_configured _ Hkey). unfold Part000.upload.
  unfold bind at 1. unfold settle at 1. cbn [fst snd].
  rewrite (present_Some _ Hrag), Hty.
  unfold bind, encodeURIComponent, ret, fetch, settle. rewrite Hwf. simpl.
  rewrite Hup, Hok. simpl. rewrite Htext.
  by rewrite NextResponse_json_carries.
Qed.

(** Its answer when the call itself is rejected: that of the catch-all. *)
Lemma single_attempt_rejected (key now : jsstring) up (ragId : jsstring) file
    fileType e :
  key ≠ [] → ragId ≠ [] → well_formed ragId = true →
  FILE_TYPE_MAP_at (file_type file) = Some fileType →
  up 0%nat = Rejected e →
  (Part000.POST key now up (UploadRequest (inr (Some ragId, Some file)))).1
    = {| http_status := 500;
         http_body := Failure (message_or e (str "Server error")) None |}.
Proof.
  intros Hkey Hrag Hwf Hty Hup. unfold Part000.POST, handle.
  rewrite (key_configured _ Hkey). unfold Part000.upload.
  unfold bind at 1. unfold settle at 1. cbn [fst snd].
  rewrite (present_Some _ Hrag), Hty.
  unfold bind, encodeURIComponent, ret, fetch, settle. rewrite Hwf. simpl.
  by rewrite Hup.
Qed.

(** C2 (amended). In the second route file, an upload whose file type
    resolves makes its train calls in the order auto, llmsherpa, none, each
    with the same file bytes, and stops at the first attempt that answers
    with a success status and a body that decodes: when the attempts before
    attempt [k] (counted from 0) fail and attempt [k] is such a success,
    exactly [k + 1] calls are made, and the result of that attempt is the one
    reported whenever its body is truthy. In the first route file the upload
    makes exactly one train call, with the parser auto, and reports the
    outcome of that call: the trained document when the call answers with a
    success status and a body that decodes to something other than [null],
    the failure with the status and the text of the answer when the call is
    refused with a readable text and a status that a response with a body
    may carry, and the failure with status 500 and the message of the error
    when the call itself is rejected. *)
Theorem parser_chain_first_success :
  (∀ (key now : jsstring) up (ragId : jsstring) file fileType k data,
     key ≠ [] → ragId ≠ [] → well_formed ragId = true →
     Part001.resolve_type file = Some fileType →
     (k < 3)%nat →
     (∀ i, (i < k)%nat → Part001.attempt_failed (up i) = true) →
     Part001.attempt_succeeded (up k) = Some data →
     (Part001.POST key now up (UploadRequest (inr (Some ragId, Some file)))).2
       = (λ parser, Train fileType ragId
                      (Part001.buildTrainForm file (file_bytes file) parser))
           <$> take (S k) [str "auto"; str "llmsherpa"; str "none"]
     ∧ (truthy data = true →
        (Part001.POST key now up (UploadRequest (inr (Some ragId, Some file)))).1
          = trained_response file fileType (document_count data) ragId now))
  ∧ (∀ (key now : jsstring) up (ragId : jsstring) file fileType,
       key ≠ [] → ragId ≠ [] → well_formed ragId = true →
       FILE_TYPE_MAP_at (file_type file) = Some fileType →
       (Part000.POST key now up (UploadRequest (inr (Some ragId, Some file)))).2
         = [Train fileType ragId (Part000.trainFormData file)]
       ∧ data_parser (Part000.trainFormData file) = str "auto"
       ∧ (∀ r data,
            up 0%nat = Responded r → ok r = true → json r = inr data →
            Normalizer.nullish data = false →
            (Part000.POST key now up
               (UploadRequest (inr (Some ragId, Some file)))).1
              = trained_response file fileType (document_count data) ragId now)
       ∧ (∀ r details,
            up 0%nat = Responded r → ok r = false → text r = inr details →
            carries_body (status r) = true →
            (Part000.POST key now up
               (UploadRequest (inr (Some ragId, Some file)))).1
              = upstream_failure (str "Failed to train document: ")
                  (status r) details)
       ∧ (∀ e,
            up 0%nat = Rejected e →
            (Part000.POST key now up
               (UploadRequest (inr (Some ragId, Some file)))).1
              = {| http_status := 500;
                   http_body :=
                     Failure (message_or e (str "Server error")) None |})).
Proof.
  split.
  - intros key now up ragId file fileType k data Hkey Hrag Hwf Hty Hk Hfail Hok.
    rewrite (upload_runs_loop _ _ _ _ _ _ Hkey Hrag Hwf Hty).
    destruct (train_loop_first_success up
                (λ parser, Train fileType ragId
                   (Part001.buildTrainForm file (file_bytes file) parser))
                k Part001.parsers JSNull [] [] data) as [e He]; [done..|].
    rewrite He. simpl. split; [done|]. by intros ->.
  - intros key now up ragId file fileType Hkey Hrag Hwf Hty.
    split; [by apply single_attempt_calls|]. split; [done|].
    split; [|split].
    + intros r data.
      by apply (single_attempt_trained key now up ragId file fileType r data).
    + intros r details.
      by apply (single_attempt_refused key now up ragId file fileType r details).
    + intros e.
      by apply (single_attempt_rejected key now up ragId file fileType e).
Qed.

Lemma parser_chain_first_success_witness :
  (Part001.POST (str "key") (str "now") Part001.fail_fail_succeed
     (UploadRequest (inr (Some (str "kb1"), Some Part001.report_pdf)))).2
    = (λ parser, Train (str "pdf") (str "kb1")
                   (Part001.buildTrainForm Part001.report_pdf
                      (file_bytes Part001.report_pdf) parser))
        <$> take 3 [str "auto"; str "llmsherpa"; str "none"]
  ∧ (Part000.POST (str "key") (str "now") Part001.fail_fail_succeed
       (UploadRequest (inr (Some (str "kb1"), Some Part001.report_pdf)))).2
      = [Train (str "pdf") (str "kb1") (Part000.trainFormData Part001.report_pdf)]
  ∧ (Part000.POST (str "key") (str "now") Part001.fail_fail_succeed
       (UploadRequest (inr (Some (str "kb1"), Some Part001.report_pdf)))).1
      = upstream_failure (str "Failed to train document: ") 422
          (str "unparsable").
Proof.
  destruct parser_chain_first_success as [Hchain Hsingle]. split; [|split].
  - refine (proj1 (Hchain (str "key") (str "now") Part001.fail_fail_succeed
                     (str "kb1") Part001.report_pdf (str "pdf") 2%nat
                     (JSObject [(str "document_count", JSNumber (Num 4 0))])
                     _ _ _ _ _ _ _));
      try (vm_compute; reflexivity); try discriminate; try lia.
    intros [|[|i]] Hi; [reflexivity|reflexivity|lia].
  - refine (proj1 (Hsingle (str "key") (str "now") Part001.fail_fail_succeed
                     (str "kb1") Part001.report_pdf (str "pdf") _ _ _ _));
      try (vm_compute; reflexivity); discriminate.
  - refine (proj1 (proj2 (proj2 (proj2
              (Hsingle (str "key") (str "now") Part001.fail_fail_succeed
                 (str "kb1") Part001.report_pdf (str "pdf") _ _ _ _))))
              {| ok := false; status := 422; json := inl NonError;
                 text := inr (str "unparsable") |} (str "unparsable")
              _ _ _ _);
      try (vm_compute; reflexivity); discriminate.
Defined.

(** C2 as stated fails on the first route file: when the first two attempts
    would fail and the third succeed, its upload makes one call and reports
    the failure of that call. *)
Lemma single_attempt_counterexample :
  Part001.attempt_failed (Part001.fail_fail_succeed 0%nat) = true
  ∧ Part001.attempt_failed (Part001.fail_fail_succeed 1%nat) = true
  ∧ is_Some (Part001.attempt_succeeded (Part001.fail_fail_succeed 2%nat))
  ∧ Part000.POST (str "key") (str "now") Part001.fail_fail_succeed
      (UploadRequest (inr (Some (str "kb1"), Some Part001.report_pdf)))
    = (upstream_failure (str "Failed to train document: ") 422 (str "unparsable"),
       [Train (str "pdf") (str "kb1") (Part000.trainFormData Part001.report_pdf)]).
Proof.
  split; [reflexivity|]. split; [reflexivity|]. split; [by eexists|].
  by_evaluation.
Qed.

(** Two edges of the loop of the second route file. A success whose body
    cannot be decoded is one more failed attempt: the next parser is tried. A
    success whose body is [null] ends the loop, and is then reported as the
    failure of all parsers. *)
Lemma undecodable_success_is_retried :
  (Part001.POST (str "key") (str "now")
     (λ n, match n with
           | 0%nat => Part001.trained_undecodable
           | _ => Part001.trained
           end)
     (UploadRequest (inr (Some (str "kb1"), Some Part001.report_pdf)))).2
  = (λ parser, Train (str "pdf") (str "kb1")
                 (Part001.buildTrainForm Part001.report_pdf
                    (file_bytes Part001.report_pdf) parser))
      <$> [str "auto"; str "llmsherpa"].
Proof. by_evaluation. Qed.

Lemma null_body_reported_as_failure :
  Part001.POST (str "key") (str "now") (λ _, Part001.trained_null)
    (UploadRequest (inr (Some (str "kb1"), Some Part001.report_pdf)))
  = (Part001.all_parsers_failed [],
     [Train (str "pdf") (str "kb1")
        (Part001.buildTrainForm Part001.report_pdf
           (file_bytes Part001.report_pdf) (str "auto"))]).
Proof. by_evaluation. Qed.

(** C5 (amended). In the second route file, when the three attempts fail, by
    a status that is no success, by a rejected call or by a body that cannot
    be decoded, the upload answers with the failure envelope whose details are
    the error text of the last attempt, and its HTTP status is 500 whatever
    status the attempts returned. *)
Theorem all_parsers_failed_report
    (key now : jsstring) up (ragId : jsstring) file fileType :
  key ≠ [] → ragId ≠ [] → well_formed ragId = true →
  Part001.resolve_type file = Some fileType →
  (∀ i, (i < 3)%nat → Part001.attempt_failed (up i) = true) →
  Part001.POST key now up (UploadRequest (inr (Some ragId, Some file)))
    = ({| http_status := 500;
          http_body := Failure
            (str "Failed to train document after trying multiple parsers")
            (Some (Part001.attempt_error (up 2%nat))) |},
       (λ parser, Train fileType ragId
                    (Part001.buildTrainForm file (file_bytes file) parser))
         <$> [str "auto"; str "llmsherpa"; str "none"]).
Proof.
  intros Hkey Hrag Hwf Hty Hfail.
  rewrite (upload_runs_loop _ _ _ _ _ _ Hkey Hrag Hwf Hty).
  by rewrite train_loop_all_failed.
Qed.

Lemma all_parsers_failed_report_witness :
  Part001.POST (str "key") (str "now") Part001.always_unprocessable
    (UploadRequest (inr (Some (str "kb1"), Some Part001.report_pdf)))
  = ({| http_status := 500;
        http_body := Failure
          (str "Failed to train document after trying multiple parsers")
          (Some (Part001.attempt_error (Part001.always_unprocessable 2%nat))) |},
     (λ parser, Train (str "pdf") (str "kb1")
                  (Part001.buildTrainForm Part001.report_pdf
                     (file_bytes Part001.report_pdf) parser))
       <$> [str "auto"; str "llmsherpa"; str "none"]).
Proof.
  apply all_parsers_failed_report;
    try (vm_compute; reflexivity); discriminate.
Defined.

(** C5 as stated fails: three attempts refused with status 422 are reported
    with status 500. *)
Lemma final_status_counterexample :
  Part001.attempt_failed (Part001.always_unprocessable 0%nat) = true
  ∧ Part001.attempt_failed (Part001.always_unprocessable 1%nat) = true
  ∧ Part001.always_unprocessable 2%nat
    = Responded {| ok := false; status := 422; json := inl NonError;
                   text := inr (str "unparsable") |}
  ∧ http_status
      (Part001.POST (str "key") (str "now") Part001.always_unprocessable
         (UploadRequest (inr (Some (str "kb1"), Some Part001.report_pdf)))).1
    = 500
  ∧ 500 ≠ 422.
Proof.
  split; [done|]. split; [done|]. split; [done|].
  split; [by_evaluation|lia].
Qed.




(** C9. In the [GET] handler of the second route file, when a [ragId] is
    given and the upstream listing call answers with a status that is no
    success, the handler falls through to the health answer: status 200 with
    [success: true] and the message that the API is running. The failure of
    the listing is not reported. *)
Theorem listing_failure_reported_as_running
    (key now : jsstring) up (ragId : jsstring) r :
  key ≠ [] → ragId ≠ [] → well_formed ragId = true →
  up 0%nat = Responded r → ok r = false →
  Part001.GET key now up (Some ragId)
    = ({| http_status := 200;
          http_body := Running (str "RAG Knowledge Base API is running") now |},
       [ListDocuments ragId])
  ∧ success (Running (str "RAG Knowledge Base API is running") now) = true.
Proof.
  intros Hkey Hrag Hwf Hup Hok. split; [|done].
  unfold Part001.GET, handle. rewrite (key_configured _ Hkey).
  rewrite (present_Some _ Hrag).
  unfold bind, encodeURIComponent, ret, fetch. rewrite Hwf. simpl.
  by rewrite Hup, Hok.
Qed.

Lemma listing_failure_reported_as_running_witness :
  Part001.GET (str "key") (str "now") Part001.always_unprocessable
    (Some (str "kb1"))
  = ({| http_status := 200;
        http_body := Running (str "RAG Knowledge Base API is running") (str "now") |},
     [ListDocuments (str "kb1")]).
Proof.
  refine (proj1 (listing_failure_reported_as_running (str "key") (str "now")
                   Part001.always_unprocessable (str "kb1")
                   {| ok := false; status := 422; json := inl NonError;
                      text := inr (str "unparsable") |} _ _ _ _ _));
    try (vm_compute; reflexivity); discriminate.
Defined.

(** *** Deleting with path resolution *)

Lemma endsWith_suffix (s p : jsstring) : endsWith s p = true ↔ p `suffix_of` s.
Proof.
  unfold endsWith. rewrite bool_decide_eq_true. split.
  - intros H. exists (take (length s - length p) s).
    rewrite <- (take_drop (length s - length p) s) at 1. by rewrite H.
  - intros [k ->]. rewrite length_app.
    replace (length k + length p - length p)%nat with (length k) by lia.
    by rewrite drop_app_length.
Qed.

Lemma matches_string name p :
  matches name (JSString p)
    = inr (endsWith p (47%N :: name) || bool_decide (p = name)).
Proof. done. Qed.

Lemma matches_true name p :
  endsWith p (47%N :: name) || bool_decide (p = name) = true ↔ path_matches name p.
Proof.
  unfold path_matches.
  rewrite orb_true_iff, endsWith_suffix, bool_decide_eq_true. done.
Qed.

(** On a listing of strings, [find] gives the first entry that matches. *)
Lemma find_path_strings name listing :
  find_path name (JSString <$> listing)
    = inr (List.find (λ p, endsWith p (47%N :: name) || bool_decide (p = name))
             listing).
Proof.
  induction listing as [|p listing IH]; [done|].
  cbn [fmap list_fmap find_path List.find]. rewrite matches_string.
  by destruct (endsWith p (47%N :: name) || bool_decide (p = name)).
Qed.






End RouteFacts.

(** ** The Markdown renderer *)

Module MarkdownFacts.
Import JS Markdown.

#[local] Arguments str : simpl never.

Lemma run_app i l1 l2 st :
  run i (l1 ++ l2) st = run (i + length l1) l2 (run i l1 st).
Proof.
  revert i st. induction l1 as [|l l1 IH]; intros i st; simpl.
  - by rewrite Nat.add_0_r.
  - rewrite IH. f_equal. lia.
Qed.

Lemma flushList_code i st :
  inCodeBlock (flushList i st) = inCodeBlock st
  ∧ codeLines (flushList i st) = codeLines st.
Proof. unfold flushList. by destruct (listItems st), (listType st). Qed.

Lemma add_item_code i t it st :
  inCodeBlock (add_item i t it st) = inCodeBlock st
  ∧ codeLines (add_item i t it st) = codeLines st.
Proof.
  unfold add_item. destruct (bool_decide (listType st = Some t)); [done|].
  simpl. apply flushList_code.
Qed.

Lemma step_no_pending_code i line st :
  no_pending_code st → no_pending_code (step i line st).
Proof.
  unfold no_pending_code, step. intros Hst.
  destruct (is_fence line).
  { by destruct (inCodeBlock st). }
  destruct (inCodeBlock st) eqn:Hin; [by simpl|].
  specialize (Hst eq_refl).
  assert (Hpush : ∀ b, codeLines (push b (flushList i st)) = []).
  { intros b. simpl. by rewrite (proj2 (flushList_code i st)). }
  assert (Hadd : ∀ t it, codeLines (add_item i t it st) = []).
  { intros t it. by rewrite (proj2 (add_item_code i t it st)). }
  repeat match goal with
         | |- context [if ?c then _ else _] => destruct c
         | |- context [match ?x with Some _ => _ | None => _ end] =>
             destruct x as [[? ?]|]
         end; auto.
Qed.

Lemma run_no_pending_code lines : ∀ i st,
  no_pending_code st → no_pending_code (run i lines st).
Proof.
  induction lines as [|l lines IH]; intros i st Hst; [done|].
  simpl. by apply IH, step_no_pending_code.
Qed.

(** Inside an open fence, lines that are no fence only add to the code. *)
Lemma run_in_fence rest : ∀ i st,
  inCodeBlock st = true →
  Forall (λ line, is_fence line = false) rest →
  run i rest st = with_code st rest.
Proof.
  induction rest as [|l rest IH]; intros i st Hin Hrest.
  - unfold with_code. simpl. rewrite app_nil_r, <- Hin. by destruct st.
  - apply Forall_cons in Hrest as [Hl Hrest]. simpl.
    unfold step at 1. rewrite Hl, Hin.
    rewrite IH; [|done|done]. unfold with_code. simpl. by rewrite <- app_assoc.
Qed.

(** C8. Once a fence line has opened a code block, every line up to the
    closing fence is kept as code and gives no block of its own: the blocks
    are those before the fence, and the closing fence adds the one code block
    of the lines between. A fence that is never closed takes all the lines
    that remain as code, and they give no block at all; so a title line
    inside an open fence gives no heading. *)
Theorem open_fence_consumes_lines :
  (∀ i rest st,
     inCodeBlock st = true →
     Forall (λ line, is_fence line = false) rest →
     run i rest st = with_code st rest
     ∧ elements (run i rest st) = elements st)
  ∧ (∀ before fence body closing,
       inCodeBlock (run 0 before initial) = false →
       is_fence fence = true →
       Forall (λ line, is_fence line = false) body →
       is_fence closing = true →
       elements (run 0 (before ++ fence :: body ++ [closing]) initial)
         = render before
             ++ [Pre (length before + 1 + length body) (join [10%N] body)])
  ∧ (∀ before fence rest,
       inCodeBlock (run 0 before initial) = false →
       is_fence fence = true →
       Forall (λ line, is_fence line = false) rest →
       render (before ++ fence :: rest) = render before
       ∧ codeLines (run 0 (before ++ fence :: rest) initial) = rest)
  ∧ (∀ text before fence rest,
       text ≠ [] →
       split_on 10 text = before ++ fence :: rest →
       inCodeBlock (run 0 before initial) = false →
       is_fence fence = true →
       Forall (λ line, is_fence line = false) rest →
       renderMarkdown text = Some (render before))
  ∧ renderMarkdown (text_of "```|### Title|text") = Some [].
Proof.
  assert (Hopen : ∀ before fence rest,
            inCodeBlock (run 0 before initial) = false →
            is_fence fence = true →
            Forall (λ line, is_fence line = false) rest →
            run 0 (before ++ fence :: rest) initial
              = with_code (flushList (length before) (run 0 before initial))
                  rest).
  { intros before fence rest Hout Hfence Hrest.
    rewrite run_app. simpl. unfold step at 1. rewrite Hfence, Hout.
    rewrite (run_in_fence rest); [|reflexivity|exact Hrest].
    unfold with_code. simpl. done. }
  assert (Hrender : ∀ before fence rest,
            inCodeBlock (run 0 before initial) = false →
            is_fence fence = true →
            Forall (λ line, is_fence line = false) rest →
            render (before ++ fence :: rest) = render before).
  { intros before fence rest Hout Hfence Hrest.
    unfold render. rewrite (Hopen _ _ _ Hout Hfence Hrest).
    destruct (run 0 before initial) as [els inc cl [|it li] [t|]]; done. }
  split; [|split; [|split; [|split]]].
  - intros i rest st Hin Hrest. by rewrite (run_in_fence _ _ _ Hin Hrest).
  - intros before fence body closing Hout Hfence Hbody Hclosing.
    pose proof (run_no_pending_code before 0 initial (λ _, eq_refl)) as Hcode.
    specialize (Hcode Hout).
    rewrite run_app. simpl. unfold step at 1. rewrite Hfence, Hout.
    rewrite run_app. rewrite (run_in_fence body); [|reflexivity|exact Hbody]. simpl.
    unfold step. rewrite Hclosing. simpl.
    unfold render. rewrite (proj2 (flushList_code _ _)), Hcode. simpl.
    do 3 f_equal. lia.
  - intros before fence rest Hout Hfence Hrest.
    pose proof (run_no_pending_code before 0 initial (λ _, eq_refl)) as Hcode.
    specialize (Hcode Hout).
    split; [by apply Hrender|].
    rewrite (Hopen _ _ _ Hout Hfence Hrest). simpl.
    by rewrite (proj2 (flushList_code _ _)), Hcode.
  - intros text before fence rest Htext Hlines Hout Hfence Hrest.
    unfold renderMarkdown. rewrite bool_decide_eq_false_2 by done.
    by rewrite Hlines, (Hrender _ _ _ Hout Hfence Hrest).
  - by_evaluation.
Qed.

Lemma open_fence_consumes_lines_witness :
  elements (run 0 ([str "# A"] ++ str "```" :: [str "### Title"] ++ [str "```"])
              initial)
    = render [str "# A"]
        ++ [Pre (length [str "# A"] + 1 + length [str "### Title"])
              (join [10%N] [str "### Title"])]
  ∧ render ([str "# A"] ++ str "```" :: [str "### Title"; str "more"])
      = render [str "# A"]
  ∧ elements (run 1 [str "### Title"] (with_code initial []))
      = elements (with_code initial []).
Proof.
  destruct open_fence_consumes_lines as (Hin & Hclosed & Hopen & _ & _).
  split; [|split].
  - apply Hclosed; try (vm_compute; reflexivity). by repeat constructor.
  - apply (Hopen [str "# A"] (str "```") [str "### Title"; str "more"]);
      try (vm_compute; reflexivity). by repeat constructor.
  - apply (Hin 1%nat [str "### Title"] (with_code initial []));
      try (vm_compute; reflexivity). by repeat constructor.
Defined.

End MarkdownFacts.

(** ** More on the response normalizer *)

Module NormalizerMore.
Import JS Normalizer NormalizerFacts.

#[local] Arguments safeParseResult : simpl never.
#[local] Arguments build : simpl never.
#[local] Arguments str : simpl never.

(** X1. [safeParseResult] never raises. It gives the empty object for a falsy
    input, and what it gives is [null] or [undefined] only when the input is a
    non-empty string whose JSON value is that. *)
Theorem safeParseResult_never_raises v :
  ∃ d, safeParseResult v = Some d
       ∧ (truthy v = false → d = JSObject [])
       ∧ (nullish d = true →
          ∃ s, v = JSString s ∧ s ≠ [] ∧ JSON_parse s = Some d).
Proof.
  exists (parsed v). split; [apply safeParseResult_parsed|].
  unfold parsed, safeParseResult. split.
  - by intros ->.
  - destruct (truthy v) eqn:Hv; [|done].
    destruct v as [| |b|n|s|items|ps]; simpl in *; try done.
    + destruct (JSON_parse s) as [d|] eqn:E; simpl; [|done].
      intros _. exists s. split; [done|]. split; [|done].
      intros ->. done.
    + destruct (lookup_prop (str "answer") ps) as [| | | |t| |]; simpl; try done.
      destruct (startsWith t (str "{")); [|done]. by destruct (JSON_parse t).
Qed.

Lemma safeParseResult_never_raises_witness :
  ∃ s, JSString (str "null") = JSString s ∧ s ≠ []
       ∧ JSON_parse s = Some JSNull.
Proof.
  destruct (safeParseResult_never_raises (JSString (str "null")))
    as (d & Hd & _ & Hnull).
  assert (d = JSNull) as -> by (vm_compute in Hd; congruence).
  exact (Hnull eq_refl).
Defined.

(** X2. [safeArray] raises only on an array one of whose elements [String]
    cannot convert: on every other value, strings included, it returns. *)
Theorem safeArray_raises_only_on_array val :
  safeArray val = None →
  ∃ items x, val = JSArray items ∧ x ∈ items ∧ String_ x = None.
Proof.
  destruct val as [| | | |s|items|]; simpl; try done.
  - destruct (JSON_parse s) as [[| | | | |parsed|]|]; try done.
    by destruct (mapM String_ parsed).
  - intros H. apply mapM_None_1, Exists_exists in H as (x & Hx & Hnone).
    by exists items, x.
Qed.

Lemma safeArray_raises_only_on_array_witness :
  ∃ items x,
    JSArray [JSString (str "a"); JSObject [(str "toString", JSNull)]]
      = JSArray items
    ∧ x ∈ items ∧ String_ x = None.
Proof.
  apply safeArray_raises_only_on_array. vm_compute. reflexivity.
Defined.

Lemma call_toLowerCase_lower x t :
  call_toLowerCase x = Some t → toLowerCase t = t.
Proof.
  destruct x; try done. intros [= <-]. apply JSFacts.toLowerCase_idempotent.
Qed.

(** What [build] returns is lower-case in its two status fields, and its
    answer is a truthy value or the empty text. *)
Lemma build_invariants d r :
  build d = Some r →
  (truthy (answer r) = true ∨ answer r = JSString [])
  ∧ toLowerCase (compliance_status r) = compliance_status r
  ∧ toLowerCase (confidence r) = confidence r.
Proof.
  unfold build. intros H. simplify_option_eq. simpl. split; [|split].
  - unfold or_else. destruct (truthy H4) eqn:E; [by left|by right].
  - by eapply call_toLowerCase_lower.
  - by eapply call_toLowerCase_lower.
Qed.

Lemma defaults_invariants :
  (truthy (answer defaults) = true ∨ answer defaults = JSString [])
  ∧ toLowerCase (compliance_status defaults) = compliance_status defaults
  ∧ toLowerCase (confidence defaults) = confidence defaults.
Proof. split; [by right|]. split; by_evaluation. Qed.

(** The record that [deepExtractResponse] returns is the default one or is
    built from a candidate. *)
Lemma deepExtractResponse_built api r :
  deepExtractResponse api = Some r → r = defaults ∨ ∃ d, build d = Some r.
Proof.
  unfold deepExtractResponse.
  destruct (negb (truthy api)); [intros [= <-]; by left|].
  destruct (get api _) as [responseObj|]; [|done]. cbn [mbind option_bind].
  destruct (if truthy responseObj then _ else _) as [d1|]; [|done].
  cbn [mbind option_bind].
  destruct (from_top_level api d1) as [d2|]; [|done]. cbn [mbind option_bind].
  destruct (from_raw_response api d2) as [d3|]; [|done]. cbn [mbind option_bind].
  destruct (negb (truthy d3)); [intros [= <-]; by left|].
  right. by exists d3.
Qed.

(** X3. Whatever the payload, a record that [deepExtractResponse] returns
    has an answer that is a truthy value or the empty text, never [null] or
    [undefined], and its compliance status and confidence are in lower
    case. *)
Theorem returned_record_invariants api r :
  deepExtractResponse api = Some r →
  (truthy (answer r) = true ∨ answer r = JSString [])
  ∧ toLowerCase (compliance_status r) = compliance_status r
  ∧ toLowerCase (confidence r) = confidence r.
Proof.
  intros Hr. apply deepExtractResponse_built in Hr as [->|[d Hd]].
  - apply defaults_invariants.
  - by apply (build_invariants d).
Qed.

Lemma returned_record_invariants_witness :
  (truthy (JSString (str "M")) = true ∨ JSString (str "M") = JSString [])
  ∧ toLowerCase (str "compliant") = str "compliant"
  ∧ toLowerCase (str "medium") = str "medium".
Proof.
  refine (returned_record_invariants keys_and_message
            {| answer := JSString (str "M"); sources_consulted := [];
               compliance_status := str "compliant"; domains_accessed := [];
               confidence := str "medium"; flags := [] |} _).
  vm_compute. reflexivity.
Defined.

(** X4. A non-empty [response.result] text that is not JSON is returned as the
    answer, unchanged, with every other field at its default; nothing else in
    the payload is consulted. *)
Theorem plain_text_result_is_the_answer api resp s :
  get api (str "response") = Some resp →
  get resp (str "result") = Some (JSString s) →
  s ≠ [] →
  JSON_parse s = None →
  deepExtractResponse api
  = Some {| answer := JSString s;
            sources_consulted := [];
            compliance_status := str "compliant";
            domains_accessed := [];
            confidence := str "medium";
            flags := [] |}.
Proof.
  intros Hresp Hresult Hs Hparse.
  assert (truthy (JSString s) = true) as Hts.
  { simpl. by rewrite bool_decide_false. }
  assert (truthy resp = true) as Htr.
  { destruct resp; simpl in Hresult; try congruence. done. }
  assert (truthy api = true) as Hta.
  { destruct api; simpl in Hresp; try done;
      injection Hresp as <-; simpl in Hresult; congruence. }
  assert (safeParseResult (JSString s)
          = Some (JSObject [(str "answer", JSString s)])) as Hsafe.
  { unfold safeParseResult. rewrite Hts. simpl. by rewrite Hparse. }
  set (d := JSObject [(str "answer", JSString s)]) in *.
  assert (get d (str "answer") = Some (JSString s)) as Hget by by_evaluation.
  assert (lacks_answer d = Some false) as Hla.
  { unfold lacks_answer. change (truthy d) with true. cbn [negb].
    rewrite Hget. cbn [mbind option_bind]. by rewrite Hts. }
  assert (from_response resp = Some d) as H1.
  { unfold from_response. rewrite Hresult. cbn [mbind option_bind].
    rewrite Hts, Hsafe. cbn [mbind option_bind]. rewrite Hla.
    cbn [mbind option_bind andb]. change (truthy d) with true.
    rewrite Hget. cbn [mbind option_bind]. by rewrite Hts. }
  unfold deepExtractResponse. rewrite Hta. cbn [negb]. rewrite Hresp.
  cbn [mbind option_bind]. rewrite Htr, H1. cbn [mbind option_bind].
  unfold from_top_level. rewrite Hla. cbn [mbind option_bind].
  unfold from_raw_response. rewrite Hla. cbn [mbind option_bind andb].
  change (truthy d) with true. cbn [negb].
  unfold build. rewrite Hget. cbn [mbind option_bind].
  do 4 (rewrite (or_get_truthy _ _ _ Hts); cbn [mbind option_bind]).
  unfold or_else. rewrite Hts. by_evaluation.
Qed.

Lemma plain_text_result_is_the_answer_witness :
  deepExtractResponse
    (JSObject [(str "response",
                JSObject [(str "result", JSString (str "Take two daily."))])])
  = Some {| answer := JSString (str "Take two daily.");
            sources_consulted := [];
            compliance_status := str "compliant";
            domains_accessed := [];
            confidence := str "medium";
            flags := [] |}.
Proof.
  apply (plain_text_result_is_the_answer _
           (JSObject [(str "result", JSString (str "Take two daily."))]));
    [reflexivity | reflexivity | vm_compute; discriminate
    | vm_compute; reflexivity].
Defined.

End NormalizerMore.

(** ** More on the knowledge-base routes *)

Module RouteMore.
Import JS Route RouteFacts.

#[local] Arguments str : simpl never.

(** *** [split] and [pop] *)

Lemma split_on_nonempty c s : split_on c s ≠ [].
Proof.
  destruct s as [|x r]; simpl; [done|].
  destruct (bool_decide (x = c)); [done|]. by destruct (split_on c r).
Qed.

Lemma split_on_app c a b :
  split_on c (a ++ c :: b) = split_on c a ++ split_on c b.
Proof.
  induction a as [|x a IH]; simpl.
  - by rewrite bool_decide_true.
  - rewrite IH. destruct (bool_decide (x = c)); [done|].
    pose proof (split_on_nonempty c a). by destruct (split_on c a).
Qed.

Lemma split_on_absent c s : c ∉ s → split_on c s = [s].
Proof.
  induction s as [|x s IH]; [done|]. intros H.
  apply not_elem_of_cons in H as [Hx Hs]. simpl.
  rewrite bool_decide_false by done. by rewrite IH.
Qed.

Lemma pop_app l p : pop (l ++ [p]) = p.
Proof. unfold pop. by rewrite last_snoc. Qed.

Lemma pop_split_on_app c a b :
  c ∉ b → pop (split_on c (a ++ c :: b)) = b.
Proof.
  intros H. by rewrite split_on_app, (split_on_absent c b H), pop_app.
Qed.

(** The last piece holds no separator, and the text is that piece, or ends
    with the separator followed by that piece. *)
Lemma pop_split_on c s :
  (c ∉ pop (split_on c s))
  ∧ (s = pop (split_on c s) ∨ (c :: pop (split_on c s)) `suffix_of` s).
Proof.
  induction s as [|x s [IH1 IH2]]; simpl.
  - split; [|by left]. unfold pop. simpl. apply not_elem_of_nil.
  - pose proof (split_on_nonempty c s) as Hne.
    destruct (bool_decide (x = c)) eqn:E.
    + apply bool_decide_eq_true in E as ->.
      assert (pop ([] :: split_on c s) = pop (split_on c s)) as ->.
      { unfold pop. destruct (split_on c s) as [|p l]; [done|].
        by rewrite last_cons_cons. }
      split; [done|]. right. destruct IH2 as [IH2|[k IH2]].
      * exists []. simpl. by rewrite <- IH2.
      * exists (c :: k). simpl. by rewrite <- IH2.
    + apply bool_decide_eq_false in E.
      destruct (split_on c s) as [|p l] eqn:Es; [done|].
      destruct l as [|q l].
      * change (pop [p]) with p in IH1, IH2. change (pop [x :: p]) with (x :: p).
        split; [by apply not_elem_of_cons|].
        left. destruct IH2 as [->|[k Hk]]; [done|]. exfalso.
        rewrite Hk, split_on_app in Es. apply (f_equal length) in Es.
        rewrite length_app in Es. simpl in Es.
        pose proof (split_on_nonempty c k). pose proof (split_on_nonempty c p).
        destruct (split_on c k), (split_on c p); simpl in *; try done; lia.
      * assert (pop ((x :: p) :: q :: l) = pop (p :: q :: l)) as ->.
        { unfold pop. by rewrite !last_cons_cons. }
        split; [done|]. right. destruct IH2 as [IH2|[k IH2]].
        -- exfalso. rewrite <- IH2 in IH1.
           by rewrite (split_on_absent c s IH1) in Es.
        -- exists (x :: k). simpl. by rewrite <- IH2.
Qed.

(** *** Listing entries *)

Lemma to_document_string full :
  to_document (JSString full)
  = inr {| fileName := if bool_decide (pop (split_on 47 full) = []) then full
                       else pop (split_on 47 full);
           fullPath := full;
           fileType := type_of_extension (toLowerCase (pop (split_on 46
                         (if bool_decide (pop (split_on 47 full) = []) then full
                          else pop (split_on 47 full)))));
           doc_status := str "active" |}.
Proof. done. Qed.

Lemma type_of_extension_known ext :
  type_of_extension ext ∈ [str "pdf"; str "docx"; str "txt"; str "unknown"].
Proof.
  unfold type_of_extension. repeat case_bool_decide; set_solver.
Qed.

(** The name shown for an entry, against the entry. *)
Lemma shown_name full :
  let name := if bool_decide (pop (split_on 47 full) = []) then full
              else pop (split_on 47 full) in
  path_matches name full ∧ (47%N ∉ name ∨ name = full)
  ∧ (full = [] ∨ name ≠ []).
Proof.
  destruct (pop_split_on 47 full) as [Hno Hsuf]. cbv zeta.
  case_bool_decide as Hlast.
  - split; [by right|]. split; [by right|]. destruct full; [by left|by right].
  - split; [destruct Hsuf as [Hsuf|Hsuf]; [by right|by left]|].
    split; [by left|by right].
Qed.

(** X5. A listing entry that is a string always gives a document. Its
    [fullPath] is the entry. Its [fileName] is the part after the last
    separator, so the entry is that name or ends with the separator followed by
    it; the name holds a separator only when the entry ends with one, and the
    name is then the whole entry. The [fileType] is one of [pdf], [docx],
    [txt] and [unknown]. *)
Theorem listing_entry_of_path full :
  ∃ d, to_document (JSString full) = inr d
       ∧ fullPath d = full
       ∧ path_matches (fileName d) full
       ∧ (47%N ∉ fileName d ∨ fileName d = full)
       ∧ (full = [] ∨ fileName d ≠ [])
       ∧ fileType d ∈ [str "pdf"; str "docx"; str "txt"; str "unknown"].
Proof.
  eexists. split; [apply to_document_string|]. cbn [fullPath fileName fileType].
  split; [done|]. destruct (shown_name full) as (Hm & Hsep & Hne).
  split; [done|]. split; [done|]. split; [done|].
  apply type_of_extension_known.
Qed.

(** X6. Listing, then deleting by the displayed name. Take a listing of
    strings and the document shown for one of its non-empty entries. The name
    shown, given to the path resolution of [DELETE], resolves to a listing
    entry that is shown under that same name: the first such entry. *)
Theorem displayed_name_resolves paths p d :
  p ≠ [] → p ∈ paths → to_document (JSString p) = inr d →
  ∃ q d', full_path (JSArray (JSString <$> paths)) (fileName d) = inr (Some q)
          ∧ q ∈ paths
          ∧ to_document (JSString q) = inr d'
          ∧ fileName d' = fileName d.
Proof.
  intros Hp Hin Hd.
  destruct (shown_name p) as (Hm & Hsep & Hne).
  rewrite to_document_string in Hd. injection Hd as <-.
  cbn [fileName] in *.
  set (name := if bool_decide (pop (split_on 47 p) = []) then p
               else pop (split_on 47 p)) in *.
  destruct Hne as [Hne|Hne]; [done|].
  unfold full_path, includes. case_bool_decide as Hslash.
  - destruct Hsep as [Hsep|Hsep]; [done|]. eexists p, _. rewrite Hsep.
    split; [done|]. split; [done|]. split; [apply to_document_string|].
    cbn [fileName]. by fold name.
  - rewrite find_path_strings.
    set (test := λ q, endsWith q (47%N :: name) || bool_decide (q = name)).
    destruct (List.find test paths) as [q|] eqn:Hfind.
    + apply find_some in Hfind as [Hq Htest]. apply list_elem_of_In in Hq.
      apply matches_true in Htest.
      eexists q, _. split; [done|]. split; [done|].
      split; [apply to_document_string|]. cbn [fileName].
      assert (pop (split_on 47 q) = name) as ->.
      { destruct Htest as [[k ->]| ->].
        - by apply pop_split_on_app.
        - by rewrite split_on_absent. }
      by rewrite bool_decide_false.
    + exfalso. apply list_elem_of_In in Hin.
      pose proof (find_none _ _ Hfind p Hin) as Hno.
      apply matches_true in Hm. unfold test in Hno. congruence.
Qed.

Lemma displayed_name_resolves_witness :
  ∃ q d',
    full_path (JSArray (JSString <$> [str "storage/a.txt"; str "storage/report.pdf"]))
      (str "report.pdf") = inr (Some q)
    ∧ q ∈ [str "storage/a.txt"; str "storage/report.pdf"]
    ∧ to_document (JSString q) = inr d'
    ∧ fileName d' = str "report.pdf".
Proof.
  apply (displayed_name_resolves
           [str "storage/a.txt"; str "storage/report.pdf"]
           (str "storage/report.pdf")
           {| fileName := str "report.pdf"; fullPath := str "storage/report.pdf";
              fileType := str "pdf"; doc_status := str "active" |});
    [vm_compute; discriminate
    | apply (bool_decide_unpack _); vm_compute; exact I
    | vm_compute; reflexivity].
Defined.

(** *** The loop over the parsers, for any upstream *)

Lemma attempt_outcome o :
  Part001.attempt_failed o = true
  ∨ ∃ data, Part001.attempt_succeeded o = Some data.
Proof.
  destruct o as [r|e]; simpl; [|by left].
  destruct (ok r); [|by left]. destruct (json r); [by left|right; eauto].
Qed.

(** The loop never throws. It makes the attempts in the order of the list
    and stops after the first that succeeds, or after them all. *)
Lemma train_loop_spec up train : ∀ ps td err log,
  ∃ n data e,
    (n ≤ length ps)%nat
    ∧ Part001.train_loop up train ps td err log
      = (inr (data, e), log ++ (train <$> take n ps))
    ∧ ((n = length ps ∧ data = td)
       ∨ ((0 < n)%nat
          ∧ Part001.attempt_succeeded (up (length log + (n - 1))%nat)
            = Some data)).
Proof.
  induction ps as [|p ps IH]; intros td err log.
  - exists 0%nat, td, err. split; [done|]. split; [|by left].
    simpl. unfold ret. by rewrite app_nil_r.
  - destruct (attempt_outcome (up (length log))) as [Hfail|[data Hok]].
    + rewrite (train_loop_failed _ _ _ _ _ _ _ Hfail).
      destruct (IH td (Part001.attempt_error (up (length log))) (log ++ [train p]))
        as (n & data & e & Hn & Hrun & Hcase).
      exists (S n), data, e. split; [simpl; lia|]. split.
      * rewrite Hrun. simpl. by rewrite <- app_assoc.
      * destruct Hcase as [[-> ->]|[Hpos Hlast]]; [by left|right].
        split; [lia|]. rewrite length_app in Hlast. simpl in Hlast.
        by replace (length log + (S n - 1))%nat
             with (length log + 1 + (n - 1))%nat by lia.
    + exists 1%nat, data, err. split; [simpl; lia|]. split.
      * rewrite (train_loop_succeeded _ _ _ _ _ _ _ _ Hok). simpl.
        done.
      * right. split; [lia|]. by rewrite Nat.add_0_r.
Qed.

(** *** The list flow *)

Lemma documents_of_strings paths :
  ∃ docs, map_fallible to_document (JSString <$> paths) = inr docs
          ∧ fullPath <$> docs = paths.
Proof.
  induction paths as [|p paths (docs & Hdocs & Hpaths)]; [by exists []|].
  cbn [fmap list_fmap map_fallible]. rewrite to_document_string.
  fold (fmap (M:=list) JSString paths). rewrite Hdocs.
  eexists. split; [done|]. cbn [fmap list_fmap fullPath]. by f_equal.
Qed.

(** The list flow once the request is in order: one call, and the answer
    read off the response. *)
Lemma list_flow_run now up (ragId : jsstring) :
  ragId ≠ [] → well_formed ragId = true →
  list_flow now up (inr (Some ragId)) []
  = match up 0%nat with
    | Rejected e => (inl e, [ListDocuments ragId])
    | Responded r =>
        (if ok r then
           match json r with
           | inl e => inl e
           | inr data =>
               match documents_of data with
               | inl e => inl e
               | inr docs => inr (respond (Documents docs ragId now))
               end
           end
         else
           match text r with
           | inl e => inl e
           | inr t =>
               (NextResponse_json
                  (upstream_failure (str "Failed to get documents: ")
                     (status r) t) [ListDocuments ragId]).1
           end,
         [ListDocuments ragId])
    end.
Proof.
  intros Hrag Hwf. unfold list_flow.
  unfold bind at 1. unfold settle at 1. rewrite (present_Some _ Hrag).
  unfold bind, encodeURIComponent, ret, fetch, settle. rewrite Hwf. simpl.
  destruct (up 0%nat) as [r|e]; [|done].
  destruct (ok r).
  - destruct (json r) as [e|data]; [done|]. by destruct (documents_of data).
  - destruct (text r) as [e|t]; [done|]. simpl.
    rewrite <- (NextResponse_json_log
                  (upstream_failure (str "Failed to get documents: ") (status r) t)
                  [ListDocuments ragId]) at 3.
    apply surjective_pairing.
Qed.

(** X7. Listing round trip. When the upstream listing answers with success
    and its body resolves to an array of strings (the body itself, or its
    [documents] or [data] member), the list flow of [POST] in both route files
    and [GET] answer with one document per entry, in the order of the listing,
    each carrying its entry as [fullPath]; one upstream call is made. *)
Theorem listing_round_trip (key now : jsstring) up (ragId : jsstring) r data paths :
  key ≠ [] → ragId ≠ [] → well_formed ragId = true →
  up 0%nat = Responded r → ok r = true → json r = inr data →
  listed data = inr (JSArray (JSString <$> paths)) →
  ∃ docs,
    fullPath <$> docs = paths
    ∧ Part000.POST key now up (ListRequest (inr (Some ragId)))
      = (respond (Documents docs ragId now), [ListDocuments ragId])
    ∧ Part001.POST key now up (ListRequest (inr (Some ragId)))
      = (respond (Documents docs ragId now), [ListDocuments ragId])
    ∧ Part001.GET key now up (Some ragId)
      = (respond (Documents docs ragId now), [ListDocuments ragId]).
Proof.
  intros Hkey Hrag Hwf Hup Hok Hjson Hlisted.
  destruct (documents_of_strings paths) as (docs & Hdocs & Hpaths).
  assert (documents_of data = inr docs) as Hdoc.
  { unfold documents_of. by rewrite Hlisted. }
  exists docs. split; [done|].
  unfold Part000.POST, Part001.POST, Part001.GET, handle.
  rewrite (key_configured _ Hkey), (present_Some _ Hrag).
  pose proof (list_flow_run now up ragId Hrag Hwf) as Hrun.
  rewrite Hup, Hok, Hjson, Hdoc in Hrun. rewrite Hrun.
  split; [done|]. split; [done|].
  unfold bind, encodeURIComponent, ret, fetch, settle. rewrite Hwf. simpl.
  rewrite Hup, Hok. simpl. by rewrite Hjson, Hdoc.
Qed.

Lemma listing_round_trip_witness :
  ∃ docs,
    fullPath <$> docs = [str "storage/a.txt"; str "b.pdf"]
    ∧ Part000.POST (str "key") (str "now") always_listed
        (ListRequest (inr (Some (str "kb"))))
      = (respond (Documents docs (str "kb") (str "now")),
         [ListDocuments (str "kb")])
    ∧ Part001.POST (str "key") (str "now") always_listed
        (ListRequest (inr (Some (str "kb"))))
      = (respond (Documents docs (str "kb") (str "now")),
         [ListDocuments (str "kb")])
    ∧ Part001.GET (str "key") (str "now") always_listed
        (Some (str "kb"))
      = (respond (Documents docs (str "kb") (str "now")),
         [ListDocuments (str "kb")]).
Proof.
  apply (listing_round_trip _ _ _ _ wrapped_listing
           (JSObject [(str "documents",
                       JSArray [JSString (str "storage/a.txt");
                                JSString (str "b.pdf")])]));
    [vm_compute; discriminate | vm_compute; discriminate | reflexivity
    | reflexivity | reflexivity | reflexivity | reflexivity].
Defined.

(** *** Success is backed by the upstream *)

Lemma handle_success m resp log :
  handle m = (resp, log) → success (http_body resp) = true →
  m [] = (inr resp, log).
Proof.
  unfold handle. destruct (m []) as [[e|r] l]; intros [= <- <-]; [done|done].
Qed.

Lemma list_flow_success now up body resp log :
  list_flow now up body [] = (inr resp, log) →
  success (http_body resp) = true → accepted up log.
Proof.
  unfold list_flow, NextResponse_json, bind, settle, encodeURIComponent, ret,
    fetch, settle.
  intros H Hs.
  repeat (case_match; simplify_eq/=; try done).
  all: eexists _, _; split; [done|]; simpl; eauto.
Qed.

Lemma upload000_success now up form resp log :
  Part000.upload now up form [] = (inr resp, log) →
  success (http_body resp) = true → accepted up log.
Proof.
  unfold Part000.upload, NextResponse_json, bind, settle, encodeURIComponent,
    ret, fetch, settle.
  intros H Hs.
  repeat (case_match; simplify_eq/=; try done).
  match goal with Hok : negb (ok _) = false |- _ =>
    apply negb_false_iff in Hok
  end.
  eexists _, _; split; [done|]; simpl; eauto.
Qed.

Lemma upload001_success now up form resp log :
  Part001.upload now up form [] = (inr resp, log) →
  success (http_body resp) = true → accepted up log.
Proof.
  unfold Part001.upload. unfold bind at 1. unfold settle at 1.
  destruct form as [e|[ragId file]]; [done|]. cbn [fst snd].
  destruct (present ragId) as [id|]; [|by intros [= <- <-]].
  destruct file as [file|]; [|by intros [= <- <-]].
  destruct (Part001.resolve_type file) as [fileType|]; [|by intros [= <- <-]].
  unfold bind at 1. unfold encodeURIComponent.
  destruct (well_formed id); [|done]. unfold ret at 1. unfold bind.
  match goal with |- context [Part001.train_loop ?u ?t ?ps ?td ?e ?l] =>
    destruct (train_loop_spec u t ps td e l) as (n & data & err & Hn & -> & Hcase)
  end.
  destruct (truthy data) eqn:Ht; cbn [negb]; unfold ret; intros [= <- <-];
    [|done].
  intros _. destruct Hcase as [[_ ->]|[Hpos Hlast]]; [done|].
  simpl in Hn, Hlast. unfold accepted.
  rewrite length_fmap, length_take. simpl.
  replace (n `min` 3 - 1)%nat with (n - 1)%nat by lia.
  unfold Part001.attempt_succeeded in Hlast.
  destruct (up (n - 1)%nat) as [r|]; [|done].
  destruct (ok r) eqn:Hok; [|done]. destruct (json r) eqn:Hj; [done|].
  exists r, v. split; [|done].
  destruct n; [lia|]. done.
Qed.

(** X8. Neither [POST] handler reports success on its own: when the answer
    carries [success: true], at least one upstream call was made, and the
    last one was answered with a success status and a body that decodes. *)
Theorem post_success_is_backed_by_upstream (key now : jsstring) up request resp log :
  Part000.POST key now up request = (resp, log)
  ∨ Part001.POST key now up request = (resp, log) →
  success (http_body resp) = true →
  accepted up log.
Proof.
  intros H Hs. unfold Part000.POST, Part001.POST in H.
  destruct H as [H|H]; apply handle_success in H; try done;
    destruct (bool_decide (key = [])); try (by injection H as <- <-);
    destruct request; eauto using list_flow_success, upload000_success,
                        upload001_success.
Qed.

Lemma post_success_is_backed_by_upstream_witness :
  accepted Part001.fail_fail_succeed
    (Part001.POST (str "key") (str "now") Part001.fail_fail_succeed
       (UploadRequest (inr (Some (str "kb"), Some Part001.report_pdf)))).2.
Proof.
  eapply (post_success_is_backed_by_upstream (str "key") (str "now") _
            (UploadRequest (inr (Some (str "kb"), Some Part001.report_pdf)))).
  - right. apply surjective_pairing.
  - vm_compute. reflexivity.
Defined.

(** X9. [DELETE] reports success only for a delete call that the upstream
    accepted: the last call of the request is then a delete call answered with
    a success status, and [deletedCount] is the number of names that this
    call carried. *)
Theorem delete_success_counts_accepted_batch (key now : jsstring) up request resp log :
  DELETE key now up request = (resp, log) →
  success (http_body resp) = true →
  ∃ r id batch,
    last log = Some (DeleteDocuments id batch)
    ∧ up (length log - 1)%nat = Responded r ∧ ok r = true
    ∧ resp = deleted (length batch) id now.
Proof.
  intros H Hs. apply handle_success in H; [|done].
  unfold NextResponse_json, bind, settle, encodeURIComponent, ret, fetch,
    settle in H.
  repeat (case_match; simplify_eq/=; try done).
  all: eexists _, _, _; split; [done|]; simpl; eauto.
Qed.

Lemma delete_success_counts_accepted_batch_witness :
  ∃ r id batch,
    last (DELETE (str "key") (str "now") refused_then_listed
            (inr {| delete_ragId := Some (str "kb");
                    documentNames := Some [str "report.pdf"] |})).2
    = Some (DeleteDocuments id batch)
    ∧ refused_then_listed 2%nat = Responded r ∧ ok r = true
    ∧ (DELETE (str "key") (str "now") refused_then_listed
         (inr {| delete_ragId := Some (str "kb");
                 documentNames := Some [str "report.pdf"] |})).1
      = deleted (length batch) id (str "now").
Proof.
  apply (delete_success_counts_accepted_batch (str "key") (str "now")
           refused_then_listed
           (inr {| delete_ragId := Some (str "kb");
                   documentNames := Some [str "report.pdf"] |})).
  - apply surjective_pairing.
  - vm_compute. reflexivity.
Defined.

(** X10. When the first delete is refused, with a status that a response
    with a body may carry (from 200 to 599, and none of 204, 205 and 304), and
    the retry cannot be made, because the listing is refused too or because
    no name resolves to a path, [DELETE] reports the first refusal: its status
    and its text, not those of the listing. Two upstream calls are made. *)
Theorem unresolved_delete_reports_first_refusal
    (key now : jsstring) up (ragId : jsstring) names r1 r2 t1 :
  key ≠ [] → ragId ≠ [] → well_formed ragId = true →
  up 0%nat = Responded r1 → ok r1 = false → text r1 = inr t1 →
  carries_body (status r1) = true →
  up 1%nat = Responded r2 →
  (ok r2 = false
   ∨ ∃ data allPaths, json r2 = inr data ∧ listed data = inr allPaths
                      ∧ fullPaths names allPaths = inr []) →
  DELETE key now up
    (inr {| delete_ragId := Some ragId; documentNames := Some names |})
  = (upstream_failure (str "Failed to delete documents: ") (status r1) t1,
     [DeleteDocuments ragId names; ListDocuments ragId]).
Proof.
  intros Hkey Hrag Hwf Hup0 Hok0 Ht0 Hst Hup1 Hcase.
  unfold DELETE, handle. rewrite (key_configured _ Hkey).
  unfold bind at 1. unfold settle at 1. cbn [delete_ragId documentNames].
  rewrite (present_Some _ Hrag).
  unfold bind, encodeURIComponent, ret, fetch, settle. rewrite Hwf. simpl.
  rewrite Hup0, Hok0. simpl. rewrite Hup1.
  destruct Hcase as [Hok1|(data & allPaths & Hj & Hl & Hf)].
  - rewrite Hok1, Ht0. by rewrite NextResponse_json_carries.
  - destruct (ok r2); [|by rewrite Ht0, NextResponse_json_carries].
    rewrite Hj, Hl, Hf, Ht0. by rewrite NextResponse_json_carries.
Qed.

Lemma unresolved_delete_reports_first_refusal_witness :
  DELETE (str "key") (str "now") refused_then_listed
    (inr {| delete_ragId := Some (str "kb");
            documentNames := Some [str "other.pdf"] |})
  = (upstream_failure (str "Failed to delete documents: ") 404 (str "not found"),
     [DeleteDocuments (str "kb") [str "other.pdf"]; ListDocuments (str "kb")]).
Proof.
  apply (unresolved_delete_reports_first_refusal (str "key") (str "now")
           refused_then_listed (str "kb") [str "other.pdf"]
           {| ok := false; status := 404; json := inl NonError;
              text := inr (str "not found") |}
           {| ok := true; status := 200;
              json := inr (JSArray [JSString (str "storage/report.pdf")]);
              text := inr [] |});
    [vm_compute; discriminate | vm_compute; discriminate | reflexivity
    | reflexivity | reflexivity | reflexivity | reflexivity | reflexivity |].
  right. exists (JSArray [JSString (str "storage/report.pdf")]),
                (JSArray [JSString (str "storage/report.pdf")]).
  split; [reflexivity|]. split; [reflexivity|]. vm_compute. reflexivity.
Defined.

(** A refusal whose status no response with a body may carry leaves through
    the catch-all: [NextResponse.json] raises on it, and the answer is 500
    with the message of that error. *)
Lemma bodiless_refusal_is_a_server_error :
  Part000.POST (str "key") (str "now") (λ _, not_modified)
    (ListRequest (inr (Some (str "kb"))))
  = ({| http_status := 500;
        http_body := Failure
          (str "Response constructor: Invalid response status code 304")
          None |},
     [ListDocuments (str "kb")])
  ∧ http_status
      (DELETE (str "key") (str "now") (λ _, not_modified)
         (inr {| delete_ragId := Some (str "kb");
                 documentNames := Some [str "other.pdf"] |})).1 = 500.
Proof. split; by_evaluation. Qed.

(** *** What reaches the upstream *)

Lemma present_inv x s : present x = Some s → s ≠ [].
Proof. destruct x as [[|c r]|]; simpl; congruence. Qed.

Lemma guarded_nil key : guarded key [].
Proof. split; [simpl; lia|]. intros c Hc. by apply elem_of_nil in Hc. Qed.

Lemma guarded_calls (key : jsstring) x id log :
  bool_decide (key = []) = false → present x = Some id →
  well_formed id = true → (length log ≤ 3)%nat →
  Forall (λ c, call_ragId c = id) log →
  guarded key log.
Proof.
  intros Hkey Hid Hwf Hlen Hall. split; [done|]. intros c Hc.
  rewrite Forall_forall in Hall. rewrite (Hall c Hc).
  split; [by apply bool_decide_eq_false in Hkey|].
  split; [by eapply present_inv|done].
Qed.

Ltac run_handler H :=
  unfold handle, list_flow, Part000.upload, NextResponse_json, bind, settle,
    encodeURIComponent, ret, fetch, settle in H;
  repeat (case_match; simplify_eq/=; try done);
  try apply guarded_nil;
  eapply guarded_calls; eauto; simpl; try lia; repeat constructor.

Lemma guarded_000 (key now : jsstring) up rq resp log :
  Part000.POST key now up rq = (resp, log) → guarded key log.
Proof.
  intros H. unfold Part000.POST in H. run_handler H.
Qed.

Lemma guarded_get (key now : jsstring) up id resp log :
  Part001.GET key now up id = (resp, log) → guarded key log.
Proof.
  intros H. unfold Part001.GET in H. run_handler H.
Qed.

Lemma guarded_delete (key now : jsstring) up rq resp log :
  DELETE key now up rq = (resp, log) → guarded key log.
Proof.
  intros H. unfold DELETE in H. run_handler H.
Qed.

Lemma guarded_001 (key now : jsstring) up rq resp log :
  Part001.POST key now up rq = (resp, log) → guarded key log.
Proof.
  intros H. unfold Part001.POST in H. destruct rq as [body|form].
  { run_handler H. }
  unfold handle in H. destruct (bool_decide (key = [])) eqn:Hkey.
  { injection H as <- <-. apply guarded_nil. }
  unfold Part001.upload in H. unfold bind at 1 in H. unfold settle at 1 in H.
  destruct form as [e|[ragId file]]; [injection H as <- <-; apply guarded_nil|].
  cbn [fst snd] in H.
  destruct (present ragId) as [id|] eqn:Hid;
    [|injection H as <- <-; apply guarded_nil].
  destruct file as [file|]; [|injection H as <- <-; apply guarded_nil].
  destruct (Part001.resolve_type file) as [fileType|];
    [|injection H as <- <-; apply guarded_nil].
  unfold bind at 1 in H. unfold encodeURIComponent in H.
  destruct (well_formed id) eqn:Hwf; [|injection H as <- <-; apply guarded_nil].
  unfold ret at 1 in H. unfold bind in H.
  match type of H with context [Part001.train_loop ?u ?t ?ps ?td ?e ?l] =>
    destruct (train_loop_spec u t ps td e l) as (n & data & err & Hn & Hrun & _)
  end.
  rewrite Hrun in H.
  assert (log = (λ parser, Train fileType id
                   (Part001.buildTrainForm file (file_bytes file) parser))
                <$> take n Part001.parsers) as ->.
  { destruct (negb (truthy data)); by injection H as <- <-. }
  eapply guarded_calls; eauto.
  - rewrite length_fmap, length_take. simpl. lia.
  - apply Forall_fmap, Forall_forall. done.
Qed.

(** X11. Take a request whose [ragId], when it is given, is a string, and
    whose [documentNames], when given, is a list of strings. Whatever else
    the request holds and whatever the upstream does, a handler makes at most
    three upstream calls, and it makes none unless the API key is configured;
    every call it makes addresses a knowledge base whose id is non-empty and
    free of lone surrogates. *)
Theorem upstream_calls_are_guarded (key now : jsstring) up resp log :
  (∃ request, Part000.POST key now up request = (resp, log))
  ∨ (∃ request, Part001.POST key now up request = (resp, log))
  ∨ (∃ ragId, Part001.GET key now up ragId = (resp, log))
  ∨ (∃ request, DELETE key now up request = (resp, log)) →
  guarded key log.
Proof.
  intros [[rq H]|[[rq H]|[[id H]|[rq H]]]];
    eauto using guarded_000, guarded_001, guarded_get, guarded_delete.
Qed.

Lemma upstream_calls_are_guarded_witness :
  guarded (str "key")
    (DELETE (str "key") (str "now") refused_then_listed
       (inr {| delete_ragId := Some (str "kb");
               documentNames := Some [str "report.pdf"] |})).2.
Proof.
  eapply (upstream_calls_are_guarded (str "key") (str "now") refused_then_listed).
  right. right. right.
  exists (inr {| delete_ragId := Some (str "kb");
                 documentNames := Some [str "report.pdf"] |}).
  apply surjective_pairing.
Defined.

(** *** Uploads, for any upstream *)

(** X12. In the second route file an upload whose type resolves never
    leaves through the catch-all, whatever the upstream does, rejected calls
    and undecodable bodies included. It makes between one and three train
    calls, in the order of the parsers, and answers either with the trained
    document, counted from the truthy body of the last call, or with the
    report that the parsers failed. *)
Theorem upload_answers_trained_or_failed
    (key now : jsstring) up (ragId : jsstring) file fileType :
  key ≠ [] → ragId ≠ [] → well_formed ragId = true →
  Part001.resolve_type file = Some fileType →
  ∃ n, (1 ≤ n ≤ 3)%nat
    ∧ (Part001.POST key now up (UploadRequest (inr (Some ragId, Some file)))).2
      = (λ parser, Train fileType ragId
                     (Part001.buildTrainForm file (file_bytes file) parser))
        <$> take n Part001.parsers
    ∧ ((∃ data, Part001.attempt_succeeded (up (n - 1)%nat) = Some data
                ∧ truthy data = true
                ∧ (Part001.POST key now up
                     (UploadRequest (inr (Some ragId, Some file)))).1
                  = trained_response file fileType (document_count data)
                      ragId now)
       ∨ (∃ lastTrainError,
            (Part001.POST key now up
               (UploadRequest (inr (Some ragId, Some file)))).1
            = Part001.all_parsers_failed lastTrainError)).
Proof.
  intros Hkey Hrag Hwf Hty. rewrite (upload_runs_loop _ _ _ _ _ _ Hkey Hrag Hwf Hty).
  match goal with |- context [Part001.train_loop ?u ?t ?ps ?td ?e ?l] =>
    destruct (train_loop_spec u t ps td e l) as (n & data & err & Hn & -> & Hcase)
  end.
  cbn [fst snd app]. simpl in Hn.
  assert (1 ≤ n ≤ 3)%nat as Hrange.
  { destruct Hcase as [[-> _]|[Hpos _]]; simpl; lia. }
  exists n. split; [done|]. split; [done|].
  destruct (truthy data) eqn:Ht; cbn [negb]; [left|right; eauto].
  destruct Hcase as [[_ ->]|[_ Hlast]]; [done|]. simpl in Hlast. eauto.
Qed.

Lemma upload_answers_trained_or_failed_witness :
  ∃ n, (1 ≤ n ≤ 3)%nat
    ∧ (Part001.POST (str "key") (str "now") Part001.fail_fail_succeed
         (UploadRequest (inr (Some (str "kb"), Some Part001.report_pdf)))).2
      = (λ parser, Train (str "pdf") (str "kb")
                     (Part001.buildTrainForm Part001.report_pdf
                        (file_bytes Part001.report_pdf) parser))
        <$> take n Part001.parsers
    ∧ ((∃ data, Part001.attempt_succeeded
                  (Part001.fail_fail_succeed (n - 1)%nat) = Some data
                ∧ truthy data = true
                ∧ (Part001.POST (str "key") (str "now") Part001.fail_fail_succeed
                     (UploadRequest (inr (Some (str "kb"),
                                          Some Part001.report_pdf)))).1
                  = trained_response Part001.report_pdf (str "pdf")
                      (document_count data) (str "kb") (str "now"))
       ∨ (∃ lastTrainError,
            (Part001.POST (str "key") (str "now") Part001.fail_fail_succeed
               (UploadRequest (inr (Some (str "kb"),
                                    Some Part001.report_pdf)))).1
            = Part001.all_parsers_failed lastTrainError)).
Proof.
  apply upload_answers_trained_or_failed;
    [vm_compute; discriminate | vm_compute; discriminate
    | reflexivity | vm_compute; reflexivity].
Defined.

(** X13. A refusal is passed through. When the upstream answers the one
    call with a status that is no success and a readable text, and the status
    is one that a response with a body may carry (from 200 to 599, and none
    of 204, 205 and 304), the upload of the first route file and the list
    flow of [POST] in both files answer with that same status and carry the
    text as details. *)
Theorem refusal_passes_through
    (key now : jsstring) up (ragId : jsstring) file fileType r t :
  key ≠ [] → ragId ≠ [] → well_formed ragId = true →
  FILE_TYPE_MAP_at (file_type file) = Some fileType →
  up 0%nat = Responded r → ok r = false → text r = inr t →
  carries_body (status r) = true →
  Part000.POST key now up (UploadRequest (inr (Some ragId, Some file)))
  = (upstream_failure (str "Failed to train document: ") (status r) t,
     [Train fileType ragId (Part000.trainFormData file)])
  ∧ Part000.POST key now up (ListRequest (inr (Some ragId)))
    = (upstream_failure (str "Failed to get documents: ") (status r) t,
       [ListDocuments ragId])
  ∧ Part001.POST key now up (ListRequest (inr (Some ragId)))
    = (upstream_failure (str "Failed to get documents: ") (status r) t,
       [ListDocuments ragId]).
Proof.
  intros Hkey Hrag Hwf Hty Hup Hok Ht Hst.
  unfold Part000.POST, Part001.POST, handle. rewrite (key_configured _ Hkey).
  rewrite (list_flow_run now up ragId Hrag Hwf), Hup, Hok, Ht.
  rewrite NextResponse_json_carries by done.
  split; [|done].
  unfold Part000.upload. unfold bind at 1. unfold settle at 1. cbn [fst snd].
  rewrite (present_Some _ Hrag), Hty.
  unfold bind, encodeURIComponent, ret, fetch, settle. rewrite Hwf. simpl.
  rewrite Hup, Hok, Ht. simpl. by rewrite NextResponse_json_carries.
Qed.

Lemma refusal_passes_through_witness :
  Part000.POST (str "key") (str "now") Part001.always_unprocessable
    (UploadRequest (inr (Some (str "kb"), Some Part001.report_pdf)))
  = (upstream_failure (str "Failed to train document: ") 422 (str "unparsable"),
     [Train (str "pdf") (str "kb") (Part000.trainFormData Part001.report_pdf)])
  ∧ Part000.POST (str "key") (str "now") Part001.always_unprocessable
      (ListRequest (inr (Some (str "kb"))))
    = (upstream_failure (str "Failed to get documents: ") 422 (str "unparsable"),
       [ListDocuments (str "kb")])
  ∧ Part001.POST (str "key") (str "now") Part001.always_unprocessable
      (ListRequest (inr (Some (str "kb"))))
    = (upstream_failure (str "Failed to get documents: ") 422 (str "unparsable"),
       [ListDocuments (str "kb")]).
Proof.
  apply (refusal_passes_through (str "key") (str "now")
           Part001.always_unprocessable (str "kb") Part001.report_pdf (str "pdf")
           {| ok := false; status := 422; json := inl NonError;
              text := inr (str "unparsable") |});
    [vm_compute; discriminate | vm_compute; discriminate | reflexivity
    | vm_compute; reflexivity | reflexivity | reflexivity | reflexivity
    | reflexivity].
Defined.

(** X14. In the second route file the name decides when the file declares
    no media type: the part of the file name after its last dot, in lower
    case, is the type when it is one of [pdf], [docx] and [txt]. A file
    declared with no type and named [Report.PDF] is trained as [pdf]. *)
Theorem extension_decides_undeclared_type file base ext :
  file_type file = [] →
  file_name file = base ++ 46%N :: ext → 46%N ∉ ext →
  toLowerCase ext ∈ [str "pdf"; str "docx"; str "txt"] →
  Part001.resolve_type file = Some (toLowerCase ext).
Proof.
  intros Hty Hname Hdot Hext. unfold Part001.resolve_type.
  rewrite Hty, Hname, (pop_split_on_app _ _ _ Hdot).
  assert (FILE_TYPE_MAP_at ([] : list N) = None) as -> by by_evaluation.
  repeat (apply elem_of_cons in Hext as [->|Hext]; [by_evaluation|]).
  by apply elem_of_nil in Hext.
Qed.

Lemma extension_decides_undeclared_type_witness :
  Part001.resolve_type
    {| file_name := str "Report.PDF"; file_type := []; file_bytes := [] |}
  = Some (toLowerCase (str "PDF")).
Proof.
  apply (extension_decides_undeclared_type
           {| file_name := str "Report.PDF"; file_type := []; file_bytes := [] |}
           (str "Report") (str "PDF"));
    [reflexivity | reflexivity
    | apply (bool_decide_unpack _); vm_compute; exact I
    | apply (bool_decide_unpack _); vm_compute; exact I].
Defined.

End RouteMore.

(** ** More on the Markdown renderer *)

Module MarkdownMore.
Import JS Markdown MarkdownFacts.

#[local] Arguments str : simpl never.

(** What one turn of the loop does to the state, outside a fence. *)
Lemma step_cases i line st :
  is_fence line = false → inCodeBlock st = false →
  (∃ b, block_key b = (false, i) ∧ block_items b = [] ∧ lines_shown b = 1%nat
        ∧ step i line st = push b (flushList i st))
  ∨ (∃ t indent content,
       step i line st
       = add_item i t {| item_key := i; item_indent := indent;
                         item_text := content |} st).
Proof.
  intros Hf Hin. unfold step. rewrite Hf, Hin.
  repeat match goal with
         | |- context [if ?c then _ else _] => destruct c
         | |- context [match ?x with Some _ => _ | None => _ end] =>
             destruct x as [[? ?]|]
         end;
    first [ by left; eexists; split; [|split; [|split]]; [..|reflexivity]
          | by right; eexists _, _, _ ].
Qed.

(** *** Every line is shown *)

Lemma flushList_lines i n st :
  lines_inv n st →
  lines_inv n (flushList i st) ∧ listItems (flushList i st) = [].
Proof.
  intros (Hin & Hty & Hsum). unfold flushList, lines_inv.
  destruct (listItems st) as [|it its] eqn:Hits; [by rewrite Hits|].
  destruct (listType st) as [t|] eqn:Ht; [|by specialize (Hty eq_refl)].
  simpl. split; [|done]. split; [done|]. split; [done|].
  rewrite sum_list_with_app. simpl in *. destruct t; simpl; lia.
Qed.

Lemma push_lines i n b st :
  lines_shown b = 1%nat → lines_inv n (flushList i st) →
  listItems (flushList i st) = [] →
  lines_inv (S n) (push b (flushList i st)).
Proof.
  intros Hb (Hin & Hty & Hsum) Hnil. unfold lines_inv, push. simpl.
  split; [done|]. split; [done|]. rewrite Hnil in *.
  rewrite sum_list_with_app. simpl in *. lia.
Qed.

Lemma add_item_lines i n t it st :
  lines_inv n st → lines_inv (S n) (add_item i t it st).
Proof.
  intros Hst. unfold add_item. case_bool_decide as Ht.
  - destruct Hst as (Hin & Hty & Hsum). unfold lines_inv. simpl.
    split; [done|]. split; [by rewrite Ht|]. rewrite length_app. simpl. lia.
  - destruct (flushList_lines i n st Hst) as [(Hin & Hty & Hsum) Hnil].
    unfold lines_inv. simpl. split; [done|]. split; [done|].
    rewrite Hnil in *. simpl in *. lia.
Qed.

Lemma step_lines i n line st :
  is_fence line = false → lines_inv n st → lines_inv (S n) (step i line st).
Proof.
  intros Hf Hst.
  destruct (step_cases i line st Hf (proj1 Hst))
    as [(b & _ & _ & Hb & ->)|(t & indent & content & ->)].
  - destruct (flushList_lines i n st Hst). by apply push_lines.
  - by apply add_item_lines.
Qed.

Lemma run_lines lines : ∀ i n st,
  Forall (λ line, is_fence line = false) lines →
  lines_inv n st → lines_inv (n + length lines) (run i lines st).
Proof.
  induction lines as [|l lines IH]; intros i n st Hlines Hst.
  - simpl. by rewrite Nat.add_0_r.
  - apply Forall_cons in Hlines as [Hl Hlines]. simpl.
    replace (n + S (length lines))%nat with (S n + length lines)%nat by lia.
    apply IH; [done|]. by apply step_lines.
Qed.

(** X15. No line is lost outside code. When no line opens or closes a
    fence, every line of the text is shown exactly once: the items of the
    lists and the other blocks together are as many as the lines. *)
Theorem every_line_is_shown lines :
  Forall (λ line, is_fence line = false) lines →
  sum_list_with lines_shown (render lines) = length lines.
Proof.
  intros Hlines. unfold render.
  assert (lines_inv 0 initial) as H0 by done.
  pose proof (run_lines lines 0%nat 0%nat initial Hlines H0) as Hrun.
  destruct (flushList_lines (length lines) _ _ Hrun) as [(_ & _ & Hsum) Hnil].
  rewrite Hnil in Hsum. simpl in Hsum. lia.
Qed.

Lemma every_line_is_shown_witness :
  sum_list_with lines_shown
    (render [str "# Plan"; str "- one"; str "- two"; str ""; str "1. first";
             str "done"])
  = 6%nat.
Proof.
  apply (every_line_is_shown [str "# Plan"; str "- one"; str "- two";
                              str ""; str "1. first"; str "done"]).
  repeat constructor.
Defined.

(** *** React keys *)

Lemma keys_inv_weaken i st : keys_inv true i st → keys_inv false (S i) st.
Proof.
  intros (Hnd & Hlt & Hit & Hnd' & Hlt'). split; [done|]. split.
  { eapply Forall_impl; [exact Hlt|]. intros b [Hb|[_ Hb]]; left; [lia|].
    rewrite Hb. simpl. lia. }
  split; [done|]. split; [done|].
  eapply Forall_impl; [exact Hlt'|]. simpl. lia.
Qed.

Lemma keys_inv_allow i st : keys_inv false i st → keys_inv true i st.
Proof.
  intros (Hnd & Hlt & Hit & Hnd' & Hlt'). split; [done|]. split; [|done].
  eapply Forall_impl; [exact Hlt|]. intros b [Hb|[? _]]; [by left|done].
Qed.

Lemma keys_inv_same b i st st' :
  elements st' = elements st → listItems st' = listItems st →
  keys_inv b i st → keys_inv b i st'.
Proof. unfold keys_inv. by intros -> ->. Qed.

Lemma flushList_keys i st :
  keys_inv false i st → keys_inv true i (flushList i st).
Proof.
  intros Hst. pose proof Hst as (Hnd & Hlt & Hit & Hnd' & Hlt').
  unfold flushList.
  destruct (listItems st) as [|it its] eqn:Hits; [by apply keys_inv_allow|].
  destruct (listType st) as [t|] eqn:Ht; [|by apply keys_inv_allow].
  unfold keys_inv. simpl.
  set (b := match t with ul => Ul i (it :: its) | ol => Ol i (it :: its) end).
  assert (block_key b = (true, i)) as Hkey by by destruct t.
  assert (block_items b = it :: its) as Hitems by by destruct t.
  split.
  { rewrite fmap_app. apply NoDup_app. split; [done|].
    split; [|apply NoDup_singleton].
    intros k Hk Hk'. simpl in Hk'. apply list_elem_of_singleton in Hk' as ->.
    apply list_elem_of_fmap in Hk as (b' & Hb' & Hin).
    rewrite Forall_forall in Hlt. destruct (Hlt b' Hin) as [Hlt1|[? _]]; [|done].
    rewrite <- Hb', Hkey in Hlt1. simpl in Hlt1. lia. }
  split.
  { apply Forall_app. split.
    - eapply Forall_impl; [exact Hlt|]. intros b' [Hb'|[? _]]; [by left|done].
    - apply Forall_singleton. by right. }
  split.
  { apply Forall_app. split; [done|]. apply Forall_singleton. by rewrite Hitems. }
  split; [apply NoDup_nil_2|apply Forall_nil_2].
Qed.

Lemma push_keys i b st :
  block_key b = (false, i) → block_items b = [] →
  keys_inv true i st → keys_inv false (S i) (push b st).
Proof.
  intros Hkey Hitems (Hnd & Hlt & Hit & Hnd' & Hlt').
  unfold keys_inv, push. simpl. split.
  { rewrite fmap_app. apply NoDup_app. split; [done|].
    split; [|apply NoDup_singleton].
    intros k Hk Hk'. simpl in Hk'. apply list_elem_of_singleton in Hk' as ->.
    apply list_elem_of_fmap in Hk as (b' & Hb' & Hin).
    rewrite Forall_forall in Hlt. destruct (Hlt b' Hin) as [Hlt1|[_ Hb]].
    - rewrite <- Hb', Hkey in Hlt1. simpl in Hlt1. lia.
    - congruence. }
  split.
  { apply Forall_app. split.
    - eapply Forall_impl; [exact Hlt|]. intros b' [Hb'|[_ Hb']]; left; [lia|].
      rewrite Hb'. simpl. lia.
    - apply Forall_singleton. left. rewrite Hkey. simpl. lia. }
  split.
  { apply Forall_app. split; [done|]. apply Forall_singleton.
    rewrite Hitems. apply NoDup_nil_2. }
  split; [done|]. eapply Forall_impl; [exact Hlt'|]. simpl. lia.
Qed.

Lemma add_item_keys i t indent content st :
  keys_inv false i st →
  keys_inv false (S i)
    (add_item i t {| item_key := i; item_indent := indent;
                     item_text := content |} st).
Proof.
  intros Hst. unfold add_item.
  set (st0 := if bool_decide (listType st = Some t) then st else _).
  assert (keys_inv true i st0) as (Hnd & Hlt & Hit & Hnd' & Hlt').
  { unfold st0. case_bool_decide; [by apply keys_inv_allow|].
    eapply keys_inv_same; [..|by apply flushList_keys]; done. }
  unfold keys_inv. simpl. split; [done|]. split.
  { eapply Forall_impl; [exact Hlt|]. intros b [Hb|[_ Hb]]; left; [lia|].
    rewrite Hb. simpl. lia. }
  split; [done|]. split.
  - rewrite fmap_app. apply NoDup_app. split; [done|].
    split; [|apply NoDup_singleton].
    intros k Hk Hk'. simpl in Hk'. apply list_elem_of_singleton in Hk' as ->.
    apply list_elem_of_fmap in Hk as (it & Hit' & Hin).
    rewrite Forall_forall in Hlt'. specialize (Hlt' it Hin). lia.
  - apply Forall_app. split.
    + eapply Forall_impl; [exact Hlt'|]. simpl. lia.
    + apply Forall_singleton. simpl. lia.
Qed.

Lemma step_keys i line st :
  keys_inv false i st → keys_inv false (S i) (step i line st).
Proof.
  intros Hst. destruct (is_fence line) eqn:Hf.
  { unfold step. rewrite Hf. destruct (inCodeBlock st).
    - eapply keys_inv_same; [..|apply (push_keys i (Pre i (join [10%N] (codeLines st))) st)];
        try done. by apply keys_inv_allow.
    - apply keys_inv_weaken.
      eapply keys_inv_same; [..|by apply flushList_keys]; done. }
  destruct (inCodeBlock st) eqn:Hin.
  { unfold step. rewrite Hf, Hin.
    eapply keys_inv_same; [..|by apply keys_inv_weaken, keys_inv_allow]; done. }
  destruct (step_cases i line st Hf Hin)
    as [(b & Hkey & Hitems & _ & ->)|(t & indent & content & ->)].
  - by apply push_keys, flushList_keys.
  - by apply add_item_keys.
Qed.

Lemma run_keys lines : ∀ i st,
  keys_inv false i st → keys_inv false (i + length lines) (run i lines st).
Proof.
  induction lines as [|l lines IH]; intros i st Hst.
  - simpl. by rewrite Nat.add_0_r.
  - simpl. replace (i + S (length lines))%nat with (S i + length lines)%nat by lia.
    by apply IH, step_keys.
Qed.

(** X16. The keys of the rendered blocks are pairwise distinct, so React
    never sees two siblings with one key; and within every list the keys of
    the items are pairwise distinct. This holds for any text. *)
Theorem rendered_keys_are_distinct lines :
  NoDup (block_key <$> render lines)
  ∧ Forall (λ b, NoDup (item_key <$> block_items b)) (render lines).
Proof.
  unfold render.
  assert (keys_inv false 0 initial) as H0.
  { unfold keys_inv. simpl. repeat split; constructor. }
  pose proof (run_keys lines 0%nat initial H0) as Hrun. simpl in Hrun.
  apply flushList_keys in Hrun as (Hnd & _ & Hit & _). done.
Qed.

(** *** Bullet lines *)

Lemma span_spec p s :
  s = (span p s).1 ++ (span p s).2 ∧ Forall (λ c, p c = true) (span p s).1.
Proof.
  induction s as [|c r [IH1 IH2]]; simpl; [done|].
  destruct (p c) eqn:Hc; [|done].
  destruct (span p r) as [a b]. simpl in *. split; [by f_equal|].
  by constructor.
Qed.

Lemma trimStart_spaces ws r :
  Forall (λ c, is_space c = true) ws → trimStart (ws ++ r) = trimStart r.
Proof.
  induction 1 as [|c ws Hc _ IH]; [done|]. simpl. by rewrite Hc.
Qed.

Lemma trimStart_keeps_last l m :
  is_space m = false → ∃ k, trimStart (l ++ [m]) = k ++ [m] ∧ k `suffix_of` l.
Proof.
  intros Hm. induction l as [|c l (k & Hk & Hsuf)]; simpl.
  - rewrite Hm. by exists [].
  - destruct (is_space c).
    + exists k. split; [done|]. by apply suffix_cons_r.
    + by exists (c :: l).
Qed.

Lemma marker_no_space m : m ∈ [45; 42; 43]%N → is_space m = false.
Proof.
  intros H. repeat (apply elem_of_cons in H as [->|H]; [by_evaluation|]).
  by apply elem_of_nil in H.
Qed.

Lemma startsWith_head s c p x :
  head s = Some x → x ≠ c → startsWith s (c :: p) = false.
Proof.
  intros Hs Hx. unfold startsWith. apply bool_decide_eq_false.
  destruct s as [|y s]; simpl in *; congruence.
Qed.

(** The shape of a line that the unordered item pattern matches. *)
Lemma match_ul_shape line indent content :
  match_ul line = Some (indent, content) →
  ∃ ws m w rest,
    line = ws ++ m :: w :: rest
    ∧ Forall (λ c, is_space c = true) ws
    ∧ m ∈ [45; 42; 43]%N ∧ is_space w = true.
Proof.
  unfold match_ul. pose proof (span_spec is_space line) as [Hline Hws].
  destruct (span is_space line) as [ws r]. simpl in *.
  destruct r as [|m [|w [|c rest]]]; try done.
  destruct (bool_decide (m ∈ [45; 42; 43]%N)) eqn:Hm; [|done].
  destruct (is_space w) eqn:Hw; [|done]. intros _.
  apply bool_decide_eq_true in Hm. by exists ws, m, w, (c :: rest).
Qed.

(** Such a line is no fence, no rule, no heading and no quote: outside a
    fence it is taken as an item. *)
Lemma match_ul_step i line indent content st :
  match_ul line = Some (indent, content) → inCodeBlock st = false →
  step i line st
  = add_item i ul {| item_key := i; item_indent := indent;
                     item_text := content |} st.
Proof.
  intros Hul Hin.
  destruct (match_ul_shape _ _ _ Hul) as (ws & m & w & rest & -> & Hws & Hm & Hw).
  pose proof (marker_no_space m Hm) as Hms.
  assert (∃ x, head (ws ++ m :: w :: rest) = Some x
               ∧ (is_space x = true ∨ x ∈ [45; 42; 43]%N)) as (x & Hhead & Hx).
  { destruct Hws as [|c ws Hc _]; simpl; eauto. }
  assert (∀ c p, is_space c = false → c ∉ [45; 42; 43]%N →
                 startsWith (ws ++ m :: w :: rest) (c :: p) = false) as Hstart.
  { intros c p Hc1 Hc2. eapply startsWith_head; [done|].
    intros ->. destruct Hx; congruence. }
  assert (∃ t, trim (ws ++ m :: w :: rest) = m :: t
               ∧ (t = [] ∨ ∃ t', t = w :: t')) as (t & Htrim & Ht).
  { unfold trim. rewrite (trimStart_spaces _ _ Hws). simpl. rewrite Hms.
    change (rev (m :: w :: rest)) with (rev (w :: rest) ++ [m]).
    destruct (trimStart_keeps_last (rev (w :: rest)) m Hms) as (k & -> & Hsuf).
    rewrite rev_app_distr. simpl. exists (rev k). split; [done|].
    destruct k as [|k0 k _] using rev_ind; [by left|right].
    rewrite rev_app_distr. simpl. exists (rev k). f_equal.
    simpl in Hsuf. destruct Hsuf as [pre Hpre].
    rewrite app_assoc in Hpre. by apply app_inj_tail in Hpre as [_ ->]. }
  unfold step, is_fence. rewrite Htrim, Hin.
  assert (startsWith (m :: t) [96; 96; 96]%N = false) as ->.
  { eapply startsWith_head; [done|]. intros ->.
    repeat (apply elem_of_cons in Hm as [Hm|Hm]; [done|]).
    by apply elem_of_nil in Hm. }
  assert (is_rule (m :: t) = false) as ->.
  { unfold is_rule. destruct Ht as [->|[t' ->]].
    - simpl. by rewrite andb_false_r.
    - simpl. rewrite (bool_decide_false (w = m)) by congruence.
      by rewrite !andb_false_r. }
  change (str "#### ") with (35%N :: str "### ").
  change (str "### ") with (35%N :: str "## ").
  change (str "## ") with (35%N :: str "# ").
  change (str "# ") with (35%N :: str " ").
  change (str "> ") with (62%N :: str " ").
  rewrite !Hstart by (first [by_evaluation | by apply (bool_decide_unpack _)]).
  by rewrite Hul.
Qed.

Lemma add_item_same i t it st :
  listType st = Some t →
  add_item i t it st
  = {| elements := elements st; inCodeBlock := inCodeBlock st;
       codeLines := codeLines st; listItems := listItems st ++ [it];
       listType := Some t |}.
Proof. intros Ht. unfold add_item. rewrite bool_decide_true by done. by rewrite Ht. Qed.

Lemma run_bullets lines : ∀ ds i st,
  Forall2 (λ line d, match_ul line = Some d) lines ds →
  inCodeBlock st = false → listType st = Some ul →
  run i lines st
  = {| elements := elements st; inCodeBlock := false;
       codeLines := codeLines st;
       listItems := listItems st
                    ++ imap (λ k d, {| item_key := i + k; item_indent := d.1;
                                       item_text := d.2 |}) ds;
       listType := Some ul |}.
Proof.
  induction lines as [|line lines IH]; intros ds i st Hds Hin Hty.
  - apply Forall2_nil_inv_l in Hds as ->. simpl. rewrite app_nil_r.
    rewrite <- Hin, <- Hty. by destruct st.
  - apply Forall2_cons_inv_l in Hds as ([indent content] & ds' & Hd & Hds & ->).
    simpl. rewrite (match_ul_step _ _ _ _ _ Hd Hin), (add_item_same _ _ _ _ Hty).
    rewrite (IH ds'); [|done..]. simpl. rewrite <- app_assoc. simpl.
    rewrite Nat.add_0_r. do 3 f_equal. apply imap_ext. intros k d _. simpl.
    f_equal. lia.
Qed.

(** X17. A text made of bullet lines only, each matching the unordered
    item pattern, renders as one unordered list: one item per line, in the
    order of the lines, each with the indent and the text that the pattern
    captures and keyed by its line number. *)
Theorem bullet_lines_make_one_list lines ds :
  lines ≠ [] →
  Forall2 (λ line d, match_ul line = Some d) lines ds →
  render lines
  = [Ul (length lines)
       (imap (λ k d, {| item_key := k; item_indent := d.1; item_text := d.2 |})
          ds)].
Proof.
  intros Hne Hds. destruct lines as [|line lines]; [done|].
  apply Forall2_cons_inv_l in Hds as ([indent content] & ds' & Hd & Hds & ->).
  unfold render. simpl run.
  rewrite (match_ul_step 0 _ _ _ initial Hd eq_refl).
  erewrite run_bullets; [|done..]. unfold flushList. reflexivity.
Qed.

Lemma bullet_lines_make_one_list_witness :
  render [str "- alpha"; str "  * beta"]
  = [Ul 2 [ {| item_key := 0; item_indent := 0; item_text := str "alpha" |};
            {| item_key := 1; item_indent := 2; item_text := str "beta" |} ]].
Proof.
  apply (bullet_lines_make_one_list [str "- alpha"; str "  * beta"]
           [(0%nat, str "alpha"); (2%nat, str "beta")]).
  - discriminate.
  - repeat constructor.
Defined.

(** *** Inline tokens *)

Lemma startsWith_spec s m : startsWith s m = true → s = m ++ drop (length m) s.
Proof.
  unfold startsWith. rewrite bool_decide_eq_true. intros H.
  rewrite <- H at 1. by rewrite take_drop.
Qed.

Lemma find_marker_eq m s :
  find_marker m s
  = if startsWith s m then Some ([], drop (length m) s)
    else match s with
         | [] => None
         | c :: r =>
             match find_marker m r with
             | Some (a, b) => Some (c :: a, b)
             | None => None
             end
         end.
Proof. by destruct s. Qed.

Lemma find_marker_spec m : ∀ s a b,
  find_marker m s = Some (a, b) → s = a ++ m ++ b.
Proof.
  induction s as [|c r IH]; intros a b; rewrite find_marker_eq.
  - destruct (startsWith [] m) eqn:E; [|done]. intros [= <- <-].
    by apply startsWith_spec in E.
  - destruct (startsWith (c :: r) m) eqn:E.
    + intros [= <- <-]. by apply startsWith_spec in E.
    + destruct (find_marker m r) as [[a' b']|] eqn:Hr; [|done].
      intros [= <- <-]. simpl. f_equal. by apply IH.
Qed.

(** Before its first occurrence the marker does not occur. *)
Lemma find_marker_first m : m ≠ [] → ∀ s a b,
  find_marker m s = Some (a, b) → ∀ x y, a ≠ x ++ m ++ y.
Proof.
  intros Hm. induction s as [|c r IH]; intros a b; rewrite find_marker_eq.
  - destruct (startsWith [] m) eqn:E; [|done]. intros [= <- <-] x y Hxy.
    destruct x, m; done.
  - destruct (startsWith (c :: r) m) eqn:E.
    { intros [= <- <-] x y Hxy. destruct x, m; done. }
    destruct (find_marker m r) as [[a' b']|] eqn:Hr; [|done].
    intros [= <- <-] x y Hxy. destruct x as [|c' x].
    + simpl in Hxy. apply find_marker_spec in Hr.
      apply bool_decide_eq_false in E. apply E.
      rewrite Hr. rewrite app_comm_cons, Hxy, <- !app_assoc.
      by rewrite take_app_length.
    + injection Hxy as -> Hxy. by eapply IH.
Qed.

Lemma find_marker_unit_first c s a b :
  find_marker [c] s = Some (a, b) → c ∉ a.
Proof.
  intros H Hc. apply list_elem_of_split in Hc as (x & y & Hxy).
  assert ([c] ≠ []) as Hne by done.
  exact (find_marker_first [c] Hne s a b H x y Hxy).
Qed.

Lemma match_pair_spec m s before inner rest :
  match_pair m s = Some (before, inner, rest) →
  s = before ++ m ++ inner ++ m ++ rest
  ∧ ∃ after, find_marker m after = Some (inner, rest).
Proof.
  unfold match_pair.
  destruct (find_marker m s) as [[a b]|] eqn:H1; [|done].
  destruct (find_marker m b) as [[i r]|] eqn:H2; [|done].
  intros [= <- <- <-]. apply find_marker_spec in H1.
  pose proof (find_marker_spec _ _ _ _ H2) as H2'. split; [|eauto].
  by rewrite H1, H2'.
Qed.

Lemma tokens_of_source before t :
  concat (source <$> tokens_of before t) = before ++ source t.
Proof.
  unfold tokens_of. case_bool_decide as Hb; simpl.
  - rewrite Hb. by rewrite app_nil_r.
  - by rewrite app_nil_r.
Qed.

Lemma tokens_of_closed before t :
  closed_token t → Forall closed_token (tokens_of before t).
Proof.
  intros Ht. unfold tokens_of. case_bool_decide; repeat constructor; done.
Qed.

(** One turn: the tokens pushed, then the loop on a shorter rest. *)
Lemma inline_tokens_spec : ∀ fuel s,
  (length s ≤ fuel)%nat →
  ∃ ts, inline_tokens fuel s = Some ts
        ∧ concat (source <$> ts) = s
        ∧ Forall closed_token ts.
Proof.
  induction fuel as [|fuel IH]; intros s Hlen.
  { destruct s; [|simpl in Hlen; lia]. by exists []. }
  simpl. case_bool_decide as Hs; [exists []; by rewrite Hs|].
  assert (∀ m before inner rest t,
            match_pair m s = Some (before, inner, rest) → m ≠ [] →
            source t = m ++ inner ++ m → closed_token t →
            ∃ ts, (tokens_of before t ++.) <$> inline_tokens fuel rest = Some ts
                  ∧ concat (source <$> ts) = s ∧ Forall closed_token ts) as Hturn.
  { intros m before inner rest t Hm Hne Hsrc Ht.
    apply match_pair_spec in Hm as [Heq _].
    destruct (IH rest) as (ts & -> & Hts & Hcl).
    { rewrite Heq, !length_app in Hlen. destruct m; [done|]. simpl in Hlen. lia. }
    eexists. split; [done|]. split.
    - rewrite fmap_app, concat_app, tokens_of_source, Hts, Hsrc, Heq.
      by rewrite <- !app_assoc.
    - apply Forall_app. split; [by apply tokens_of_closed|done]. }
  destruct (match_pair [42; 42]%N s) as [[[before inner] rest]|] eqn:Hbold.
  { eapply Hturn; [done..|].
    apply match_pair_spec in Hbold as [_ [after Hafter]].
    intros a b. by eapply (find_marker_first [42; 42]%N). }
  destruct (match_pair [42%N] s) as [[[before inner] rest]|] eqn:Hem.
  { eapply Hturn; [done..|].
    apply match_pair_spec in Hem as [_ [after Hafter]].
    by eapply find_marker_unit_first. }
  destruct (match_pair [96%N] s) as [[[before inner] rest]|] eqn:Hcode.
  { eapply Hturn; [done..|].
    apply match_pair_spec in Hcode as [_ [after Hafter]].
    by eapply find_marker_unit_first. }
  exists [Text s]. split; [done|]. split; [simpl; by rewrite app_nil_r|].
  by repeat constructor.
Qed.

(** X18. [formatInline] always returns, and it loses nothing: writing each
    token back with its markers, in order, gives the text it was called
    with. *)
Theorem formatInline_round_trip text :
  ∃ n, formatInline text = Some n
       ∧ concat (source <$> node_tokens n) = text.
Proof.
  destruct (inline_tokens_spec (length text) text) as (ts & Hts & Hsrc & _);
    [done|].
  unfold formatInline. rewrite Hts. simpl.
  destruct ts as [|t [|t' ts]]; eexists; (split; [done|]); done.
Qed.

(** X19. The tokens that [formatInline] returns are closed: an emphasis
    holds no asterisk, a code span no backtick, a strong span no pair of
    asterisks, and no plain fragment is empty. *)
Theorem formatInline_tokens_closed text n :
  formatInline text = Some n → Forall closed_token (node_tokens n).
Proof.
  destruct (inline_tokens_spec (length text) text) as (ts & Hts & _ & Hcl);
    [done|].
  unfold formatInline. rewrite Hts. simpl. intros [= <-].
  by destruct ts as [|t [|t' ts]].
Qed.

Lemma formatInline_tokens_closed_witness :
  Forall closed_token
    [Text (str "Take "); Strong (str "two"); Text (str " with "); Em (str "food")].
Proof.
  apply (formatInline_tokens_closed (str "Take **two** with *food*")
           (Fragment [Text (str "Take "); Strong (str "two");
                      Text (str " with "); Em (str "food")])).
  vm_compute. reflexivity.
Defined.

Lemma find_marker_absent c m : ∀ s, c ∉ s → find_marker (c :: m) s = None.
Proof.
  induction s as [|x s IH]; intros Hc; rewrite find_marker_eq.
  - done.
  - apply not_elem_of_cons in Hc as [Hx Hs].
    assert (startsWith (x :: s) (c :: m) = false) as ->.
    { apply bool_decide_eq_false. simpl. congruence. }
    by rewrite IH.
Qed.

(** X20. A text that holds no asterisk and no backtick is returned as it
    is, as one plain fragment. *)
Theorem plain_text_is_one_fragment text :
  text ≠ [] → 42%N ∉ text → 96%N ∉ text →
  formatInline text = Some (Single (Text text)).
Proof.
  intros Hne Hstar Htick. unfold formatInline.
  destruct text as [|c text]; [done|]. cbn [length inline_tokens].
  rewrite bool_decide_false by done. unfold match_pair.
  by rewrite !find_marker_absent.
Qed.

Lemma plain_text_is_one_fragment_witness :
  formatInline (str "Dose: 5 mg") = Some (Single (Text (str "Dose: 5 mg"))).
Proof.
  apply plain_text_is_one_fragment;
    [vm_compute; discriminate
    | apply (bool_decide_unpack _); vm_compute; exact I
    | apply (bool_decide_unpack _); vm_compute; exact I].
Defined.

End MarkdownMore.

(** ** The exchange with the agent *)

Module ChatFacts.
Import JS Normalizer Chat.

#[local] Arguments str : simpl never.

Lemma error_content_truthy e : truthy (JSString (error_content e)) = true.
Proof.
  unfold error_content.
  change (str "An error occurred while processing your query: ")
    with (65%N :: str "n error occurred while processing your query: ").
  done.
Qed.

Lemma unable_truthy : truthy (JSString unable) = true.
Proof. by_evaluation. Qed.

Lemma final_answer_truthy extractText raised result extracted finalAnswer :
  final_answer extractText raised result extracted = inr finalAnswer →
  truthy finalAnswer = true
  ∧ or_else (answer extracted) finalAnswer = finalAnswer.
Proof.
  unfold final_answer, or_else.
  destruct (truthy (answer extracted)) eqn:Ha; [by intros [= <-]|].
  destruct (get result _) as [response|]; [|done].
  destruct (truthy response).
  - destruct (extractText response) as [e|text]; [done|]. intros [= <-].
    split; [|done]. destruct (truthy text) eqn:Ht; [done|apply unable_truthy].
  - intros [= <-]. split; [apply unable_truthy|done].
Qed.

(** X21. Whatever the agent call gives back, a rejection included, and
    whatever [extractText] does, the message appended for the agent never has
    an empty content: the content is a truthy value (it may still be a text
    of spaces only, when that is what the agent answered). When an audit
    entry is written, its [fullResponse] and the [answer] of the message's
    [parsedResponse] are that same content, and its query is the message
    sent. *)
Theorem agent_message_is_never_empty extractText raised msg session settled :
  truthy (content (reply extractText raised msg session settled).1) = true
  ∧ ∀ entry, (reply extractText raised msg session settled).2 = Some entry →
      fullResponse entry = content (reply extractText raised msg session settled).1
      ∧ answer <$> parsedResponse (reply extractText raised msg session settled).1
        = Some (content (reply extractText raised msg session settled).1)
      ∧ query entry = msg.
Proof.
  unfold reply. destruct settled as [e|result].
  { split; [apply error_content_truthy|done]. }
  unfold answer_to. destruct (deepExtractResponse result) as [extracted|].
  2:{ split; [apply error_content_truthy|done]. }
  destruct (final_answer _ _ _ _) as [e|finalAnswer] eqn:Hfinal.
  { split; [apply error_content_truthy|done]. }
  apply final_answer_truthy in Hfinal as [Ht Hfull]. simpl.
  split; [done|]. by intros entry [= <-].
Qed.

Lemma agent_message_is_never_empty_witness :
  fullResponse
    {| query := str "dose?"; responseStatus := str "compliant";
       domainsAccessed := []; audit_confidence := str "medium";
       sessionId := str "s1"; fullResponse := JSString unable;
       sourcesConsulted := []; audit_flags := [] |}
  = content (reply (λ _, inr JSUndefined) (λ _, Route.NonError)
               (str "dose?") (str "s1") (inr (JSObject []))).1
  ∧ answer <$> parsedResponse
                 (reply (λ _, inr JSUndefined) (λ _, Route.NonError)
                    (str "dose?") (str "s1") (inr (JSObject []))).1
    = Some (content (reply (λ _, inr JSUndefined) (λ _, Route.NonError)
                       (str "dose?") (str "s1") (inr (JSObject []))).1)
  ∧ query
      {| query := str "dose?"; responseStatus := str "compliant";
         domainsAccessed := []; audit_confidence := str "medium";
         sessionId := str "s1"; fullResponse := JSString unable;
         sourcesConsulted := []; audit_flags := [] |}
    = str "dose?".
Proof.
  apply (agent_message_is_never_empty (λ _, inr JSUndefined)
           (λ _, Route.NonError) (str "dose?") (str "s1") (inr (JSObject []))).
  vm_compute. reflexivity.
Defined.

(** X22. An audit entry, when one is written, carries a status and a
    confidence in lower case, whatever case the agent used: the filter of the
    audit view, which compares the lower-cased status with a lower-case
    choice, sees the status as it is stored. *)
Theorem audit_entry_is_lower_case extractText raised msg session settled entry :
  (reply extractText raised msg session settled).2 = Some entry →
  toLowerCase (responseStatus entry) = responseStatus entry
  ∧ toLowerCase (audit_confidence entry) = audit_confidence entry.
Proof.
  unfold reply. destruct settled as [e|result]; [done|].
  unfold answer_to.
  destruct (deepExtractResponse result) as [extracted|] eqn:Hex; [|done].
  destruct (final_answer _ _ _ _) as [e|finalAnswer]; [done|].
  intros [= <-]. simpl.
  apply NormalizerMore.deepExtractResponse_built in Hex as [->|[d Hd]].
  - by destruct NormalizerMore.defaults_invariants as (_ & ? & ?).
  - by destruct (NormalizerMore.build_invariants _ _ Hd) as (_ & ? & ?).
Qed.

Lemma audit_entry_is_lower_case_witness :
  toLowerCase (str "flagged") = str "flagged"
  ∧ toLowerCase (str "high") = str "high".
Proof.
  apply (audit_entry_is_lower_case (λ _, inr JSUndefined) (λ _, Route.NonError)
           (str "dose?") (str "s1")
           (inr (JSObject [(str "answer", JSString (str "5 mg"));
                           (str "compliance_status", JSString (str "FLAGGED"));
                           (str "confidence", JSString (str "High"))]))
           {| query := str "dose?"; responseStatus := str "flagged";
              domainsAccessed := []; audit_confidence := str "high";
              sessionId := str "s1"; fullResponse := JSString (str "5 mg");
              sourcesConsulted := []; audit_flags := [] |}).
  vm_compute. reflexivity.
Defined.

End ChatFacts.
